(** * Research-assistant MCP servers (ra-2, ra-3): resource index, rankers
      and content accessor.

    A shallow embedding of [ra-2/server/main.py] and [ra-3/server/main.py].
    Python values are modelled as the interpreter has them:
    - a [str] is its sequence of Unicode code points;
    - an [int] is a [Z];
    - a [float] is an IEEE-754 binary64 value ([spec_float] with the
      operations of the standard library at precision 53);
    - a [set] of strings is a [gset], the insertion-ordered [dict]
      [RESOURCE_INDEX] is an association list with unique keys;
    - a raised exception is the [Raise] branch of [result].
    The file system, the PDF extractor, the vector store and the other
    collaborators are the fields of the record [World]. *)

From Stdlib Require Import ZArith NArith List String Ascii Bool Lia.
From Stdlib Require Import Permutation Sorted SpecFloat.
From stdpp Require Import base decidable countable gmap sets list.

Import ListNotations.
Local Open Scope Z_scope.
Local Open Scope list_scope.

(* ===================================================================== *)
(** * Python strings *)
(* ===================================================================== *)

Module PyStr.

(** A code point, and a string as the sequence of its code points. *)
Definition codepoint := N.
Definition str := list codepoint.

(** The string denoted by an ASCII literal of the source. *)
Definition lit (s : string) : str :=
  List.map N_of_ascii (list_ascii_of_string s).
Arguments lit s%_string.

Definition str_eqb (a b : str) : bool := bool_decide (a = b).

(** [a < b] on strings: lexicographic on code points, a proper prefix
    is smaller. *)
Fixpoint str_compare (a b : str) : comparison :=
  match a, b with
  | [], [] => Eq
  | [], _ :: _ => Lt
  | _ :: _, [] => Gt
  | x :: a', y :: b' =>
      match N.compare x y with
      | Eq => str_compare a' b'
      | c => c
      end
  end.

Definition str_ltb (a b : str) : bool :=
  match str_compare a b with Lt => true | _ => false end.

(** [len(s)]. *)
Definition len (s : str) : Z := Z.of_nat (List.length s).

(** [sep.join(xs)]. *)
Fixpoint join (sep : str) (xs : list str) : str :=
  match xs with
  | [] => []
  | [x] => x
  | x :: rest => x ++ sep ++ join sep rest
  end.

(** [s.endswith(suffix)] and [s.startswith(prefix)]. *)
Fixpoint startswith (s prefix : str) : bool :=
  match prefix, s with
  | [], _ => true
  | _ :: _, [] => false
  | p :: prefix', c :: s' => N.eqb p c && startswith s' prefix'
  end.

Definition endswith (s suffix : str) : bool :=
  startswith (rev s) (rev suffix).

(** [str.isspace] on one code point: the code points whose
    bidirectional class is WS, B or S, or whose category is Zs. *)
Definition is_space (c : codepoint) : bool :=
  ((9 <=? c) && (c <=? 13) || (28 <=? c) && (c <=? 32)
   || (c =? 133) || (c =? 160) || (c =? 5760)
   || (8192 <=? c) && (c <=? 8202)
   || (c =? 8232) || (c =? 8233) || (c =? 8239) || (c =? 8287)
   || (c =? 12288))%N.

Fixpoint lstrip (s : str) : str :=
  match s with
  | c :: s' => if is_space c then lstrip s' else s
  | [] => []
  end.

(** [s.strip()]. *)
Definition strip (s : str) : str := rev (lstrip (rev (lstrip s))).

(** Decimal digits of a natural number, most significant first; the
    recursion is on [fuel], more than the number of digits. *)
Fixpoint digits_fuel (fuel : nat) (n : N) (acc : str) : str :=
  match fuel with
  | O => acc
  | S fuel' =>
      let acc' := (48 + n mod 10)%N :: acc in
      if (n <? 10)%N then acc' else digits_fuel fuel' (n / 10)%N acc'
  end.

Definition str_of_N (n : N) : str := digits_fuel (S (N.to_nat (N.log2 n))) n [].

(** [str(i)] for an [int]. *)
Definition str_of_Z (z : Z) : str :=
  match z with
  | Zneg p => lit "-" ++ str_of_N (Npos p)
  | _ => str_of_N (Z.to_N z)
  end.

End PyStr.
Export PyStr.

(* ===================================================================== *)
(** * Exceptions *)
(* ===================================================================== *)

Module PyExn.

(** The exception classes the servers distinguish in their [except]
    clauses, and the one their own code raises.  All are subclasses of
    [Exception]. *)
Inductive exn_class :=
| UnboundLocalError
| UnicodeDecodeError
| UnicodeEncodeError
| PermissionError
| ValueError
| OtherException.

(** An exception object: its class and [str(e)]. *)
Record exn := MkExn { exn_cls : exn_class; exn_msg : str }.

Inductive result (A : Type) :=
| Ret (a : A)
| Raise (e : exn).
Arguments Ret {A} a.
Arguments Raise {A} e.

Definition bind {A B} (r : result A) (k : A -> result B) : result B :=
  match r with
  | Ret a => k a
  | Raise e => Raise e
  end.

(** [try: body except Exception as e: handler(e)]. *)
Definition try_except {A} (body : result A) (handler : exn -> result A) : result A :=
  match body with
  | Ret a => Ret a
  | Raise e => handler e
  end.

Definition returns {A} (r : result A) : Prop := exists a, r = Ret a.
Definition raises {A} (r : result A) : Prop := exists e, r = Raise e.

(** [x ← c; k] runs [c] and passes its value on; an exception of [c]
    propagates. *)
#[export] Instance result_bind : MBind result := fun _ _ k r => bind r k.
#[export] Instance result_ret : MRet result := fun _ a => Ret a.

End PyExn.
Export PyExn.

(* ===================================================================== *)
(** * Python floats *)
(* ===================================================================== *)

Module PyFloat.

(** binary64 *)
Definition prec : Z := 53.
Definition emax : Z := 1024.

Definition float := spec_float.

Definition of_Z (z : Z) : float := binary_normalize prec emax z 0 false.

Definition neg (x : float) : float := SFopp x.
Definition sub (x y : float) : float := SFsub prec emax x y.
Definition div (x y : float) : float := SFdiv prec emax x y.
Definition eqb (x y : float) : bool := SFeqb x y.
Definition ltb (x y : float) : bool := SFltb x y.

Definition is_nan (x : float) : bool :=
  match x with S754_nan => true | _ => false end.

(** The float a decimal literal [n/10^k] of the source denotes: the
    correctly rounded quotient of two exactly representable integers. *)
Definition decimal (n : Z) (k : nat) : float := div (of_Z n) (of_Z (10 ^ Z.of_nat k)).

Definition f0_0 : float := S754_zero false.
Definition f1_0 : float := of_Z 1.

(** [|x| * 1000] rounded to the nearest integer, ties to even, for a
    finite [x] with mantissa [m] and exponent [e]. *)
Definition round_milli (m : positive) (e : Z) : Z :=
  let n := Zpos m * 1000 in
  match e with
  | Zneg p =>
      let d := 2 ^ Zpos p in
      let q := n / d in
      let r := n mod d in
      match Z.compare (2 * r) d with
      | Lt => q
      | Gt => q + 1
      | Eq => if Z.even q then q else q + 1
      end
  | _ => n * 2 ^ e
  end.

Definition pad3 (n : Z) : str :=
  let s := str_of_Z n in
  repeat 48%N (3 - List.length s)%nat ++ s.

(** [format(x, ".3f")]: fixed notation with three decimals, correctly
    rounded, ties to even. *)
Definition format_3f (x : float) : str :=
  match x with
  | S754_nan => lit "nan"
  | S754_infinity s => (if s then lit "-" else []) ++ lit "inf"
  | S754_zero s => (if s then lit "-" else []) ++ lit "0.000"
  | S754_finite s m e =>
      let n := round_milli m e in
      (if s then lit "-" else []) ++ str_of_Z (n / 1000) ++ lit "." ++ pad3 (n mod 1000)
  end.

End PyFloat.

(* ===================================================================== *)
(** * Built-ins that consult the Unicode database *)
(* ===================================================================== *)

Module PyBuiltins.

(** The case mapping on ASCII: [A-Z] go to [a-z], every other code point
    stays. *)
Definition ascii_lower_cp (c : codepoint) : codepoint :=
  if ((65 <=? c) && (c <=? 90))%N then (c + 32)%N else c.

Definition is_ascii (s : str) : Prop := Forall (fun c => (c < 128)%N) s.

(** [str_lower] is [str.lower], which on ASCII text is the ASCII case
    mapping; [int_of_str] is [int(s)] on a string (it raises [ValueError]
    on a string that is no integer literal). *)
Class Unicode := {
  str_lower : str -> str;
  str_lower_ascii : forall s, is_ascii s -> str_lower s = List.map ascii_lower_cp s;
  int_of_str : str -> result Z
}.

(** A value [argparse] leaves in [args]: the [default=] object when the
    option is absent, the command-line text otherwise. *)
Inductive arg_value :=
| ArgInt (z : Z)
| ArgStr (s : str).

(** [int(v)]. *)
Definition py_int `{Unicode} (v : arg_value) : result Z :=
  match v with
  | ArgInt z => Ret z
  | ArgStr s => int_of_str s
  end.

(** Truth value of a string: non-empty. *)
Definition truthy (s : str) : bool :=
  match s with [] => false | _ :: _ => true end.

(** [text[:limit]] for [limit > 0]. *)
Definition slice_to (text : str) (limit : Z) : str := firstn (Z.to_nat limit) text.

(** Reading a local variable that no executed statement has bound. *)
Definition load_local {A} (name : string) (v : option A) : result A :=
  match v with
  | Some a => Ret a
  | None =>
      Raise (MkExn UnboundLocalError
               (lit "cannot access local variable '" ++ lit name
                ++ lit "' where it is not associated with a value"))
  end.

Fixpoint ascii_digits (s : str) (acc : Z) : option Z :=
  match s with
  | [] => Some acc
  | c :: s' =>
      if ((48 <=? c) && (c <=? 57))%N
      then ascii_digits s' (10 * acc + (Z.of_N c - 48))
      else None
  end.

(** [int(s)] on plain ASCII decimal literals: optional blanks around an
    optional sign and digits. *)
Definition ascii_int (s : str) : result Z :=
  let bad := Raise (MkExn ValueError (lit "invalid literal for int() with base 10")) in
  let unsigned (d : str) (sign : Z) :=
    match d with
    | [] => bad
    | _ => match ascii_digits d 0 with Some z => Ret (sign * z) | None => bad end
    end in
  match strip s with
  | 45%N :: d => unsigned d (-1)
  | 43%N :: d => unsigned d 1
  | d => unsigned d 1
  end.

(** The two built-ins on ASCII text. *)
Definition ascii_unicode : Unicode :=
  {| str_lower := List.map ascii_lower_cp;
     str_lower_ascii := fun s _ => eq_refl;
     int_of_str := ascii_int |}.

End PyBuiltins.
Export PyBuiltins.

(* ===================================================================== *)
(** * pathlib: pure POSIX paths *)
(* ===================================================================== *)

Module PyPath.

(** A [PurePosixPath]: whether it is anchored at the root [/], and its
    components.  (A path with exactly two leading slashes is treated as
    anchored at [/].) *)
Record Path := MkPath { anchored : bool; names : list str }.

#[export] Instance Path_eq_dec : EqDecision Path.
Proof. solve_decision. Defined.

Definition slash : codepoint := 47%N.

(** [s.split(sep)] for a one-character separator. *)
Fixpoint split_on (sep : codepoint) (s : str) : list str :=
  match s with
  | [] => [[]]
  | c :: s' =>
      if (c =? sep)%N then [] :: split_on sep s'
      else match split_on sep s' with
           | w :: ws => (c :: w) :: ws
           | [] => [[c]]
           end
  end.

(** A component the constructor keeps: neither empty nor [.]. *)
Definition kept (n : str) : bool :=
  negb (str_eqb n [] || str_eqb n (lit ".")).

(** [Path(s)]. *)
Definition Path_of_str (s : str) : Path :=
  {| anchored := startswith s (lit "/");
     names := List.filter kept (split_on slash s) |}.

(** [p.parts]. *)
Definition parts (p : Path) : list str :=
  if anchored p then lit "/" :: names p else names p.

(** [p.as_posix()], which is [str(p)] on POSIX. *)
Definition as_posix (p : Path) : str :=
  if anchored p then lit "/" ++ join (lit "/") (names p)
  else match names p with
       | [] => lit "."
       | ns => join (lit "/") ns
       end.

(** [p.name]: the final component, if any. *)
Definition name (p : Path) : str := List.last (names p) [].

Definition is_absolute (p : Path) : bool := anchored p.

(** [a.joinpath(b)], also written [a / b]. *)
Definition joinpath (a b : Path) : Path :=
  if anchored b then b
  else {| anchored := anchored a; names := names a ++ names b |}.

Fixpoint strip_prefix (pre l : list str) : option (list str) :=
  match pre, l with
  | [], _ => Some l
  | _ :: _, [] => None
  | x :: pre', y :: l' => if str_eqb x y then strip_prefix pre' l' else None
  end.

(** [p.relative_to(root)]. *)
Definition relative_to (p root : Path) : result Path :=
  let err := MkExn ValueError (as_posix p ++ lit " is not in the subpath of " ++ as_posix root) in
  if Bool.eqb (anchored p) (anchored root) then
    match strip_prefix (names root) (names p) with
    | Some rest => Ret {| anchored := false; names := rest |}
    | None => Raise err
    end
  else Raise err.

End PyPath.
Export PyPath.

(* ===================================================================== *)
(** * urllib.parse.quote *)
(* ===================================================================== *)

Module Urllib.

(** A [bytes] object. *)
Definition bytes := list N.

(** UTF-8 encoding of one code point; a surrogate (or a number that is no
    code point) has none. *)
Definition utf8_encode_cp (c : codepoint) : option bytes :=
  (if c <? 128 then Some [c]
   else if c <? 2048 then Some [192 + c / 64; 128 + c mod 64]
   else if c <? 65536 then
     if (55296 <=? c) && (c <? 57344) then None
     else Some [224 + c / 4096; 128 + (c / 64) mod 64; 128 + c mod 64]
   else if c <? 1114112 then
     Some [240 + c / 262144; 128 + (c / 4096) mod 64; 128 + (c / 64) mod 64; 128 + c mod 64]
   else None)%N.

(** [s.encode("utf-8", "strict")]. *)
Fixpoint utf8_encode (s : str) : result bytes :=
  match s with
  | [] => Ret []
  | c :: s' =>
      match utf8_encode_cp c with
      | Some bs => rest ← utf8_encode s'; Ret (bs ++ rest)
      | None =>
          Raise (MkExn UnicodeEncodeError
                   (lit "'utf-8' codec can't encode character: surrogates not allowed"))
      end
  end.

(** [_ALWAYS_SAFE]: the unreserved characters of RFC 3986. *)
Definition always_safe (b : N) : bool :=
  ((65 <=? b) && (b <=? 90) || (97 <=? b) && (b <=? 122)
   || (48 <=? b) && (b <=? 57)
   || (b =? 95) || (b =? 46) || (b =? 45) || (b =? 126))%N.

Definition hex_digit (n : N) : codepoint :=
  (if n <? 10 then 48 + n else 55 + n)%N.

(** One byte through the quoter: itself when safe, else ["%XX"] with
    upper-case digits. *)
Definition quote_byte (safe : str) (b : N) : str :=
  if always_safe b || existsb (N.eqb b) (List.filter (fun c => c <? 128)%N safe)
  then [b]
  else [37%N; hex_digit (b / 16); hex_digit (b mod 16)].

(** [quote_from_bytes(bs, safe)]; the shortcut the library takes when no
    byte needs quoting returns the same string. *)
Definition quote_from_bytes (bs : bytes) (safe : str) : str :=
  List.concat (List.map (quote_byte safe) bs).

(** [quote(s, safe=safe)]. *)
Definition quote (s : str) (safe : str) : result str :=
  match s with
  | [] => Ret []
  | _ => bs ← utf8_encode s; Ret (quote_from_bytes bs safe)
  end.

End Urllib.
Export Urllib.

(* ===================================================================== *)
(** * The collaborators *)
(* ===================================================================== *)

Module Env.

(** [os.stat_result], the two fields read. *)
Record Stat := MkStat { st_size : Z; st_mtime : PyFloat.float }.

(** What iterating [PdfReader(f).pages] gives: for each page reached, the
    outcome of [page.extract_text()], and the exception, if any, that
    ends the iteration. *)
Record PdfDocument := MkPdf {
  pdf_pages : list (result str);
  pdf_abort : option exn
}.

(** The file system and the libraries, at the time of one call. *)
Record World := MkWorld {
  (** [Path.expanduser], [Path.resolve] *)
  fs_expanduser : Path -> result Path;
  fs_resolve : Path -> result Path;
  (** [Path.exists], [is_file], [is_dir], [is_symlink], [stat] *)
  fs_exists : Path -> result bool;
  fs_is_file : Path -> result bool;
  fs_is_dir : Path -> result bool;
  fs_is_symlink : Path -> result bool;
  fs_stat : Path -> result Stat;
  (** [root.glob(pattern)]: the paths the generator yields, and the
      exception, if any, it ends with *)
  fs_glob : Path -> str -> list Path * option exn;
  (** [open("r", encoding="utf-8")] followed by [read()] *)
  fs_read_text : Path -> result str;
  (** [open("rb")] followed by [PdfReader(f)] *)
  fs_pdf_reader : Path -> result PdfDocument;
  (** [mimetypes.guess_type(name)[0]] *)
  guess_type : str -> option str;
  (** [datetime.fromtimestamp(t).timestamp()] *)
  datetime_timestamp : PyFloat.float -> result PyFloat.float;
  (** the decorator [mcp.resource(uri, name=, description=, mime_type=)]
      applied to the accessor *)
  mcp_resource : str -> str -> str -> str -> result unit
}.

(** The parsed command line. *)
Record Args := MkArgs {
  workspace_directory : str;
  limit_text : arg_value;
  chroma_db_path : str
}.

End Env.
Export Env.

(* ===================================================================== *)
(** * list.sort(key=...) *)
(* ===================================================================== *)

Module PySort.
Section Sort.
Context {A K : Type} (key : A -> K) (lt : K -> K -> bool).

(** Insertion of [x], which stood before every element of [l], into the
    sorted [l]: it passes the elements whose key is smaller than its own
    and stops at the first that is not. *)
Fixpoint insert_by (x : A) (l : list A) : list A :=
  match l with
  | [] => [x]
  | y :: l' => if lt (key y) (key x) then y :: insert_by x l' else x :: l
  end.

(** [l.sort(key=key)]: the stable sort by [<] on the keys. *)
Fixpoint sort_by (l : list A) : list A :=
  match l with
  | [] => []
  | x :: l' => insert_by x (sort_by l')
  end.

(** [x] does not come after [y]: the key of [y] is not below that of [x]. *)
Definition key_le (x y : A) : Prop := lt (key y) (key x) = false.

End Sort.
End PySort.
Export PySort.

(* ===================================================================== *)
(** * Content accessor (ra-2 and ra-3, the same text in both) *)
(* ===================================================================== *)

Module Content.
Section Content.
Context `{Unicode} (w : World) (args : Args).

Definition nl : str := [10%N].

(** One turn of the loop over [reader.pages]; an exception inside the
    [try] leaves [content] as it was. *)
Definition page_step (content : list str) (page : result str) : list str :=
  let body :=
    text ← page;
    if truthy text then
      limit ← py_int (limit_text args);
      Ret (content ++ [if 0 <? limit then slice_to text limit else text])
    else Ret content in
  match body with
  | Ret content' => content'
  | Raise _ => content
  end.

Definition extract_pages (pages : list (result str)) : list str :=
  fold_left page_step pages [].

(** The body of the outer [try]. *)
Definition read_body (path : str) (path_obj : Path) : result str :=
  if endswith (str_lower (strip path)) (lit ".pdf") then
    doc ← fs_pdf_reader w path_obj;
    let content := extract_pages (pdf_pages doc) in
    match pdf_abort doc with
    | Some e => Raise e
    | None => Ret (lit "Contents of " ++ path ++ lit ":" ++ nl ++ join nl content)
    end
  else
    content ← fs_read_text w path_obj;
    Ret (lit "Contents of " ++ path ++ lit ":" ++ nl ++ content).

(** The three [except] clauses, in their order. *)
Definition read_handler (path : str) (e : exn) : result str :=
  match exn_cls e with
  | UnicodeDecodeError =>
      Ret (lit "File is not text or uses unsupported encoding: " ++ path)
  | PermissionError => Ret (lit "Permission denied reading: " ++ path)
  | _ => Ret (lit "Error reading file: " ++ exn_msg e)
  end.

Definition obtain_resource_content (path : str) : result str :=
  let file := Path_of_str path in
  root ← (fs_expanduser w (Path_of_str (workspace_directory args)) ≫= fs_resolve w);
  (* [path_obj] is bound by the [if] only *)
  path_obj ← (if negb (is_absolute file)
              then po ← fs_resolve w (joinpath root file); Ret (Some po)
              else Ret None);
  po ← load_local "path_obj" path_obj;
  ex ← fs_exists w po;
  if negb ex then Ret (lit "File not found: " ++ path) else
  po ← load_local "path_obj" path_obj;
  isf ← fs_is_file w po;
  if negb isf then Ret (lit "Path is not a file: " ++ path) else
  po ← load_local "path_obj" path_obj;
  try_except (read_body path po) (read_handler path).

End Content.
End Content.

(* ===================================================================== *)
(** * The resource index and the walker that fills it *)
(* ===================================================================== *)

Module Registry.

(** A value of [RESOURCE_INDEX]: the dict literal of the registration
    loop. *)
Record Meta := MkMeta {
  meta_name : str;
  meta_path : str;
  meta_size : Z;
  meta_mtime : PyFloat.float;
  meta_mime : str
}.

(** [RESOURCE_INDEX]: a dict, in insertion order. *)
Definition Index := list (str * Meta).

(** [d[k] = v]: a key already present keeps its place and takes the new
    value, a new key goes last. *)
Fixpoint dict_set (d : Index) (k : str) (v : Meta) : Index :=
  match d with
  | [] => [(k, v)]
  | (k', v') :: d' =>
      if str_eqb k' k then (k', v) :: d' else (k', v') :: dict_set d' k v
  end.

Section Register.
Context (w : World).
Context (include_globs : list str) (ignore_dirs : list str)
        (follow_symlinks : bool) (max_bytes : option Z).

(** [any(ig in parts for ig in ignore_dirs)] with [parts = set(p.parts)]. *)
Definition ignored (p : Path) : bool :=
  let parts : gset str := list_to_set (parts p) in
  existsb (fun ig => bool_decide (ig ∈ parts)) ignore_dirs.

(** The tests of the inner loop on one path: [true] when the path reaches
    [candidates.append(p)], [false] on a [continue]. *)
Definition accepts (p : Path) : result bool :=
  if ignored p then Ret false else
  sym ← (if negb follow_symlinks then fs_is_symlink w p else Ret false);
  if (sym : bool) then Ret false else
  ex ← fs_exists w p;
  isf ← (if (ex : bool) then fs_is_file w p else Ret false);
  if negb ex || negb isf then Ret false else
  match max_bytes with
  | None => Ret true
  | Some mb =>
      match fs_stat w p with
      | Ret st => Ret (negb (mb <? st_size st))
      | Raise _ => Ret false
      end
  end.

(** The inner [for] over what one pattern yields; an exception leaves the
    loop with the candidates appended so far. *)
Fixpoint scan_matches (ps : list Path) (candidates : list Path) : list Path :=
  match ps with
  | [] => candidates
  | p :: rest =>
      match accepts p with
      | Ret true => scan_matches rest (candidates ++ [p])
      | Ret false => scan_matches rest candidates
      | Raise _ => candidates
      end
  end.

(** The outer [for] over the patterns. *)
Definition scan_patterns (root : Path) : list Path :=
  fold_left (fun candidates pattern =>
               scan_matches (fst (fs_glob w root pattern)) candidates)
            include_globs [].

(** The walker: the candidate list after [candidates.sort(key=lambda x:
    x.as_posix())]. *)
Definition scan (root : Path) : list Path :=
  sort_by as_posix str_ltb (scan_patterns root).

(** The URI of the file [p] under [root]. *)
Definition file_uri (root p : Path) : result str :=
  rel ← relative_to p root;
  q ← quote (as_posix rel) (lit "/");
  Ret (lit "workspace://" ++ q).

(** The body of the registration loop for one file. *)
Definition register_body (root p : Path) (index : Index) : result Index :=
  rel ← relative_to p root;
  let rel := as_posix rel in
  q ← quote rel (lit "/");
  let uri := lit "workspace://" ++ q in
  st ← fs_stat w p;
  let size := st_size st in
  st' ← fs_stat w p;
  mtime ← datetime_timestamp w (st_mtime st');
  let mime :=
    match guess_type w (name p) with
    | Some m => if truthy m then m else lit "application/pdf"
    | None => lit "application/pdf"
    end in
  let description := join (lit " | ") [name p] in
  let display_name := rel in
  _ ← mcp_resource w uri display_name description mime;
  Ret (dict_set index uri
         {| meta_name := display_name;
            meta_path := as_posix p;
            meta_size := size;
            meta_mtime := mtime;
            meta_mime := mime |}).

(** One turn of the registration loop: both [except] clauses [continue]. *)
Definition register_one (root : Path) (index : Index) (p : Path) : Index :=
  match register_body root p index with
  | Ret index' => index'
  | Raise _ => index
  end.

(** [register_file_resources(workspace, ...)]: the new content of
    [RESOURCE_INDEX]; when it raises, the index is as it was. *)
Definition register_file_resources (workspace : str) : result Index :=
  root ← (fs_expanduser w (Path_of_str workspace) ≫= fs_resolve w);
  ex ← fs_exists w root;
  isd ← (if (ex : bool) then fs_is_dir w root else Ret false);
  if negb ex || negb isd then
    Raise (MkExn ValueError
             (lit "Workspace does not exist or is not a directory: " ++ workspace))
  else
    Ret (fold_left (register_one root) (scan root) []).

End Register.

Definition default_include_globs : list str := [lit "**/*.pdf"].
Definition default_ignore_dirs : list str := [lit ".git"; lit ".svn"; lit "__pycache__"].

End Registry.
Export Registry.

(* ===================================================================== *)
(** * ra-2: the lexical ranker *)
(* ===================================================================== *)

Module Ra2.
Section Ranker.
Context `{Unicode}.

Definition is_token_char (c : codepoint) : bool :=
  ((97 <=? c) && (c <=? 122) || (48 <=? c) && (c <=? 57))%N.

(** [re.findall(r"[a-z0-9]+", s)]: the scan keeps the run read so far,
    reversed, in [cur]. *)
Fixpoint findall_from (cur : str) (s : str) : list str :=
  match s with
  | [] => match cur with [] => [] | _ => [rev cur] end
  | c :: s' =>
      if is_token_char c then findall_from (c :: cur) s'
      else match cur with
           | [] => findall_from [] s'
           | _ => rev cur :: findall_from [] s'
           end
  end.

Definition findall (s : str) : list str := findall_from [] s.

Definition tokenize (text : str) : gset str :=
  list_to_set (findall (str_lower text)).

Record Candidate := MkCandidate {
  score : Z;
  uri : str;
  meta : Meta;
  filename : str
}.

(** The candidate the loop appends for one item of the index. *)
Definition candidate_of (q_tokens : gset str) (item : str * Meta) : Candidate :=
  let '(uri, meta) := item in
  let nm := if truthy (meta_name meta) then meta_name meta else uri in
  let filename := name (Path_of_str nm) in
  let overlap := Z.of_nat (size (q_tokens ∩ tokenize (str_lower filename))) in
  {| score := overlap; uri := uri; meta := meta; filename := filename |}.

Definition SortKey : Type := Z * PyFloat.float * Z * str.

Definition sort_key (item : Candidate) : SortKey :=
  let mtime := meta_mtime (meta item) in
  (- score item, PyFloat.neg mtime, len (filename item), uri item).

(** [a < b] on two keys, as tuples compare: the first position where the
    two differ decides. *)
Definition key_lt (a b : SortKey) : bool :=
  let '(s1, m1, l1, u1) := a in
  let '(s2, m2, l2, u2) := b in
  if negb (s1 =? s2) then s1 <? s2
  else if negb (PyFloat.eqb m1 m2) then PyFloat.ltb m1 m2
  else if negb (l1 =? l2) then l1 <? l2
  else if negb (str_eqb u1 u2) then str_ltb u1 u2
  else false.

Definition rank (candidates : list Candidate) : list Candidate :=
  sort_by sort_key key_lt candidates.

Definition candidate_line (i : nat) (it : Candidate) : str :=
  str_of_Z (Z.of_nat i) ++ lit "- filename: `" ++ filename it
  ++ lit "` --- (overlap " ++ str_of_Z (score it) ++ lit ")".

Definition empty_query : str := lit "Query is empty.".
Definition no_resources : str := lit "No resources available to search.".

Definition locate_relevant_resouces (RESOURCE_INDEX : Index) (query : str) : str :=
  let q_tokens := tokenize (str_lower query) in
  if bool_decide (q_tokens = ∅) then empty_query
  else
    match RESOURCE_INDEX with
    | _ :: _ =>
        let candidates := List.map (candidate_of q_tokens) RESOURCE_INDEX in
        let candidates := rank candidates in
        let lines := lit "Top candidates:" :: imap candidate_line (firstn 10 candidates) in
        join Content.nl lines
    | [] => no_resources
    end.

End Ranker.
End Ra2.

(* ===================================================================== *)
(** * ra-3: the similarity ranker *)
(* ===================================================================== *)

Module Ra3.

(** The metadata dict of one stored document, each value as the text an
    f-string prints for it. *)
Definition Metadata := gmap str str.

(** What [collection.query] returns. *)
Record QueryResult := MkQueryResult {
  ids : list (list str);
  documents : option (list (list str));
  distances : option (list (list (option PyFloat.float)));
  metadatas : option (list (list (option Metadata)))
}.

(** [chroma_collection.query(query_texts=[query], n_results=n)]. *)
Record Collection := MkCollection {
  coll_query : str -> Z -> result QueryResult
}.

(** [xs[0] if xs else []] on an optional list of lists. *)
Definition first_or_empty {A} (xs : option (list (list A))) : list A :=
  match xs with
  | Some (x :: _) => x
  | _ => []
  end.

Definition similarity_score (distance : option PyFloat.float) : PyFloat.float :=
  match distance with
  | Some d => PyFloat.sub PyFloat.f1_0 d
  | None => PyFloat.f0_0
  end.

Definition display_name (doc_id : str) (metadata : option Metadata) : str :=
  match metadata with
  | Some md =>
      if bool_decide (md = ∅) then doc_id
      else default doc_id (md !! lit "filename")
  | None => doc_id
  end.

Definition result_line (i : nat) (row : str * option PyFloat.float * option Metadata) : str :=
  let '(doc_id, distance, metadata) := row in
  str_of_Z (Z.of_nat i) ++ lit "- filename: `" ++ display_name doc_id metadata
  ++ lit "` --- (similarity " ++ PyFloat.format_3f (similarity_score distance) ++ lit ")".

(** [zip(ids, distances, metadatas)]. *)
Fixpoint zip3 {A B C} (xs : list A) (ys : list B) (zs : list C) : list (A * B * C) :=
  match xs, ys, zs with
  | x :: xs', y :: ys', z :: zs' => (x, y, z) :: zip3 xs' ys' zs'
  | _, _, _ => []
  end.

(** The lines the loop appends after the heading. *)
Definition result_lines (results : QueryResult) : list str :=
  let distances := first_or_empty (distances results) in
  let metadatas := first_or_empty (metadatas results) in
  let ids := match ids results with x :: _ => x | [] => [] end in
  imap result_line (zip3 ids distances metadatas).

Definition locate_relevant_resources (chroma_collection : option Collection)
    (query : str) : str :=
  if negb (truthy (strip query)) then lit "Query is empty."
  else
    match chroma_collection with
    | None => lit "ChromaDB collection not available. Please check the database path."
    | Some collection =>
        let body :=
          results ← coll_query collection query 10;
          match first_or_empty (documents results) with
          | [] => Ret (lit "No relevant documents found in the database.")
          | _ :: _ =>
              Ret (join Content.nl (lit "Top candidates:" :: result_lines results))
          end in
        match body with
        | Ret s => s
        | Raise e => lit "Error querying ChromaDB: " ++ exn_msg e
        end
    end.

End Ra3.

(* ===================================================================== *)
(** * Resolving a resource URI (the reading side of the URI scheme) *)
(* ===================================================================== *)

Module UriSpec.

(** Stated from the specification, not from the servers (which only build
    URIs): a URI is resolved by removing the scheme, percent-decoding the
    rest, and joining the decoded relative path to the workspace root. *)

Definition hex_value (c : codepoint) : option N :=
  (if (48 <=? c) && (c <=? 57) then Some (c - 48)
   else if (65 <=? c) && (c <=? 70) then Some (c - 55)
   else if (97 <=? c) && (c <=? 102) then Some (c - 87)
   else None)%N.

(** Percent-decoding to bytes: ["%XX"] is the byte [XX], every other
    character stands for itself. *)
Fixpoint unquote_to_bytes (s : str) : bytes :=
  match s with
  | [] => []
  | c :: s' =>
      match s' with
      | h :: l :: rest =>
          if (c =? 37)%N then
            match hex_value h, hex_value l with
            | Some a, Some b => (16 * a + b)%N :: unquote_to_bytes rest
            | _, _ => c :: unquote_to_bytes s'
            end
          else c :: unquote_to_bytes s'
      | _ => c :: unquote_to_bytes s'
      end
  end.

Definition is_cont (b : N) : bool := ((128 <=? b) && (b <? 192))%N.

(** Strict UTF-8 decoding: no overlong forms, no surrogates, nothing
    above U+10FFFF. *)
Fixpoint utf8_decode (bs : bytes) : option str :=
  match bs with
  | [] => Some []
  | b0 :: t0 =>
      if (b0 <? 128)%N then cons b0 <$> utf8_decode t0
      else if ((194 <=? b0) && (b0 <? 224))%N then
        match t0 with
        | b1 :: t1 =>
            if is_cont b1
            then cons ((b0 - 192) * 64 + (b1 - 128))%N <$> utf8_decode t1
            else None
        | _ => None
        end
      else if ((224 <=? b0) && (b0 <? 240))%N then
        match t0 with
        | b1 :: b2 :: t2 =>
            let c := ((b0 - 224) * 4096 + (b1 - 128) * 64 + (b2 - 128))%N in
            if is_cont b1 && is_cont b2 && (2048 <=? c)%N
               && negb ((55296 <=? c) && (c <? 57344))%N
            then cons c <$> utf8_decode t2
            else None
        | _ => None
        end
      else if ((240 <=? b0) && (b0 <? 245))%N then
        match t0 with
        | b1 :: b2 :: b3 :: t3 =>
            let c := ((b0 - 240) * 262144 + (b1 - 128) * 4096
                      + (b2 - 128) * 64 + (b3 - 128))%N in
            if is_cont b1 && is_cont b2 && is_cont b3
               && (65536 <=? c)%N && (c <? 1114112)%N
            then cons c <$> utf8_decode t3
            else None
        | _ => None
        end
      else None
  end.

(** Percent-decoding of a string. *)
Definition unquote (s : str) : option str := utf8_decode (unquote_to_bytes s).

Definition scheme : str := lit "workspace://".

(** The file a URI names under [root]. *)
Definition uri_to_path (root : Path) (uri : str) : option Path :=
  if startswith uri scheme then
    rel ← unquote (skipn (List.length scheme) uri);
    Some (joinpath root (Path_of_str rel))
  else None.

(** A component as the path constructor leaves it: not empty, not [.],
    without a slash. *)
Definition wf_name (n : str) : Prop := kept n = true /\ ~ In slash n.

Definition wf_path (p : Path) : Prop := Forall wf_name (names p).

End UriSpec.

(* ===================================================================== *)
(** * A small workspace for the scenarios *)
(* ===================================================================== *)

Module Demo.

Definition root : Path := MkPath true [lit "ws"].
Definition report : Path := MkPath true [lit "ws"; lit "docs"; lit "report 1.pdf"].
Definition draft : Path := MkPath true [lit "ws"; lit "notes"; lit "draft.pdf"].
Definition top : Path := MkPath true [lit "ws"; lit "a.pdf"].

Definition io_error : exn := MkExn OtherException (lit "I/O error").

Definition member (files : list Path) (p : Path) : bool :=
  existsb (fun q => bool_decide (p = q)) files.

(** A page of 200 characters. *)
Definition page200 : str := repeat 120%N 200.

(** A world with the regular files [files] under [root], each a PDF of
    the pages [pages]; [glob] says what each pattern yields. *)
Definition world (files : list Path) (glob : str -> list Path)
    (pages : list (result str)) : World :=
  {| fs_expanduser := Ret;
     fs_resolve := Ret;
     fs_exists p := Ret (member files p || bool_decide (p = root));
     fs_is_file p := Ret (member files p);
     fs_is_dir p := Ret (bool_decide (p = root));
     fs_is_symlink _ := Ret false;
     fs_stat p :=
       if member files p
       then Ret (MkStat 1000 (PyFloat.of_Z (1700000000 + len (name p))))
       else Raise io_error;
     fs_glob r pattern := (if bool_decide (r = root) then glob pattern else [], None);
     fs_read_text _ := Raise io_error;
     fs_pdf_reader p :=
       if member files p then Ret (MkPdf pages None) else Raise io_error;
     guess_type _ := Some (lit "application/pdf");
     datetime_timestamp t := Ret t;
     mcp_resource _ _ _ _ := Ret tt |}.

Definition args (limit : arg_value) : Args :=
  {| workspace_directory := lit "/ws"; limit_text := limit; chroma_db_path := lit "/db" |}.

(** The workspace of the scenario: [docs/report 1.pdf] and
    [notes/draft.pdf], found by the default pattern. *)
Definition docs_world : World :=
  world [report; draft]
        (fun pattern => if str_eqb pattern (lit "**/*.pdf") then [report; draft] else [])
        [Ret page200].

(** The index a registration of that workspace builds. *)
Definition docs_index : Index :=
  Eval vm_compute in
    match register_file_resources docs_world default_include_globs default_ignore_dirs
            false None (lit "/ws") with
    | Ret index => index
    | Raise _ => []
    end.

(** One file [a.pdf] in the root, matched by both [**/*.pdf] and [*.pdf]. *)
Definition overlap_world : World :=
  world [top]
        (fun pattern =>
           if str_eqb pattern (lit "**/*.pdf") || str_eqb pattern (lit "*.pdf")
           then [top] else [])
        [Ret page200].

(** The same workspace, its directories read in the other order. *)
Definition docs_world_rev : World :=
  world [report; draft]
        (fun pattern => if str_eqb pattern (lit "**/*.pdf") then [draft; report] else [])
        [Ret page200].

(** A workspace under version control: a PDF inside [.git] next to the
    report. *)
Definition hidden : Path := MkPath true [lit "ws"; lit ".git"; lit "objects"; lit "pack.pdf"].

Definition vcs_world : World :=
  world [report; hidden]
        (fun pattern => if str_eqb pattern (lit "**/*.pdf") then [hidden; report] else [])
        [Ret page200].

(** A store that answers every query with two documents, at the
    distances [0.1] and [0.4]; the first has a [filename] in its
    metadata, the second has no metadata. *)
Definition collection : Ra3.Collection :=
  {| Ra3.coll_query _ _ :=
       Ret {| Ra3.ids := [[lit "id-1"; lit "id-2"]];
              Ra3.documents := Some [[lit "text one"; lit "text two"]];
              Ra3.distances :=
                Some [[Some (PyFloat.decimal 1 1); Some (PyFloat.decimal 4 1)]];
              Ra3.metadatas :=
                Some [[Some {[ lit "filename" := lit "a.pdf" ]}; None]] |} |}.

End Demo.

(* ===================================================================== *)
(** * What a PDF read is to contain *)
(* ===================================================================== *)

Module ContentSpec.

(** Stated from the specification: the texts that take part in the
    concatenation are those of the pages whose extraction succeeds with a
    non-empty text, in page order. *)
Definition page_texts (pages : list (result str)) : list str :=
  omap (fun page =>
          match page with
          | Ret text => if truthy text then Some text else None
          | Raise _ => None
          end) pages.

(** A page text under the limit [limit]. *)
Definition clip (limit : Z) (text : str) : str :=
  if 0 <? limit then slice_to text limit else text.

(** The header line and the concatenated page texts. *)
Definition pdf_contents (path : str) (texts : list str) : str :=
  lit "Contents of " ++ path ++ lit ":" ++ Content.nl ++ join Content.nl texts.

End ContentSpec.

(* ===================================================================== *)
(** * What the walker's output is to satisfy *)
(* ===================================================================== *)

Module WalkerSpec.

(** Stated from the specification: the order of the output, by the
    forward-slash string form of the paths. *)
Definition posix_le (p q : Path) : Prop := str_ltb (as_posix q) (as_posix p) = false.

(** Everything the patterns yield under [root], pattern after pattern. *)
Definition matches (w : World) (include_globs : list str) (root : Path) : list Path :=
  List.concat (List.map (fun pattern => fst (fs_glob w root pattern)) include_globs).

(** The test of the inner loop as a filter. *)
Definition accepted (w : World) (ignore_dirs : list str) (follow_symlinks : bool)
    (max_bytes : option Z) (p : Path) : bool :=
  match accepts w ignore_dirs follow_symlinks max_bytes p with
  | Ret true => true
  | _ => false
  end.

(** A second run [w'] over the file system of [w], unchanged: the path
    tests answer as before and each pattern yields the same paths, in an
    order that may differ. *)
Record unchanged (w w' : World) (include_globs : list str) (root : Path) : Prop := {
  same_is_symlink : forall p, fs_is_symlink w' p = fs_is_symlink w p;
  same_exists : forall p, fs_exists w' p = fs_exists w p;
  same_is_file : forall p, fs_is_file w' p = fs_is_file w p;
  same_stat : forall p, fs_stat w' p = fs_stat w p;
  same_matches : forall pattern, In pattern include_globs ->
    Permutation (fst (fs_glob w root pattern)) (fst (fs_glob w' root pattern))
}.

End WalkerSpec.

(* ===================================================================== *)
(** * Comparisons *)
(* ===================================================================== *)

Module KeyOrder.

(** A three-way comparison that behaves as one of a total preorder. *)
Record ordered {A} (cmp : A -> A -> comparison) : Prop := {
  cmp_opp : forall x y, cmp y x = CompOpp (cmp x y);
  cmp_lt_trans : forall x y z, cmp x y = Lt -> cmp y z = Lt -> cmp x z = Lt;
  cmp_eq_l : forall x y z, cmp x y = Eq -> cmp x z = cmp y z
}.

(** Lexicographic comparison of pairs. *)
Definition lex {A B} (c1 : A -> A -> comparison) (c2 : B -> B -> comparison)
    (x y : A * B) : comparison :=
  match c1 (fst x) (fst y) with
  | Eq => c2 (snd x) (snd y)
  | r => r
  end.

(** The comparison of two floats, completed so that a NaN sits below
    every other value; on floats that are no NaN it is [SFcompare]. *)
Definition fcmp (x y : PyFloat.float) : comparison :=
  match SFcompare x y with
  | Some c => c
  | None =>
      match PyFloat.is_nan x, PyFloat.is_nan y with
      | true, true => Eq
      | true, false => Lt
      | _, _ => Gt
      end
  end.

(** The magnitudes of two finite floats of one sign: exponents first. *)
Definition mag_cmp (e1 : Z) (m1 : positive) (e2 : Z) (m2 : positive) : comparison :=
  match Z.compare e1 e2 with
  | Lt => Lt
  | Gt => Gt
  | Eq => Pos.compare m1 m2
  end.

(** The place of a float on the line: its class, from NaN and the
    negative infinity up to the positive infinity, then exponent and
    mantissa, both negated below zero. *)
Definition place (x : PyFloat.float) : Z * (Z * Z) :=
  match x with
  | S754_nan => (-3, (0, 0))
  | S754_infinity true => (-2, (0, 0))
  | S754_finite true m e => (-1, (- e, Z.neg m))
  | S754_zero _ => (0, (0, 0))
  | S754_finite false m e => (1, (e, Z.pos m))
  | S754_infinity false => (2, (0, 0))
  end.

(** The comparison of two sort keys of the lexical ranker, position by
    position. *)
Definition cmp_key : Ra2.SortKey -> Ra2.SortKey -> comparison :=
  lex (lex (lex Z.compare fcmp) Z.compare) str_compare.

(** The time in a sort key. *)
Definition key_time (k : Ra2.SortKey) : PyFloat.float := snd (fst (fst k)).

(** A candidate whose modification time is a number. *)
Definition timed (c : Ra2.Candidate) : Prop :=
  PyFloat.is_nan (meta_mtime (Ra2.meta c)) = false.

(** The strict order the ranking puts the candidates in. *)
Definition ranks_before (x y : Ra2.Candidate) : Prop :=
  Ra2.key_lt (Ra2.sort_key x) (Ra2.sort_key y) = true.

End KeyOrder.

(* ===================================================================== *)
(** * What a token is *)
(* ===================================================================== *)

Module TokenSpec.

(** Stated from the specification: a token of a text is a maximal run of
    characters of [[a-z0-9]] in it: a non-empty stretch of such
    characters with no such character right before or right after. *)
Definition boundary (s : str) : Prop :=
  match s with
  | [] => True
  | c :: _ => Ra2.is_token_char c = false
  end.

Definition maximal_run (s t : str) : Prop :=
  t <> []
  /\ List.Forall (fun c => Ra2.is_token_char c = true) t
  /\ exists l r, s = l ++ t ++ r /\ boundary (rev l) /\ boundary r.

End TokenSpec.

(* ===================================================================== *)
(** * ra-3: opening the vector store *)
(* ===================================================================== *)

Module Ra3Init.

(** A [chromadb.PersistentClient]: what [list_collections()] gives. *)
Record Client := MkClient {
  list_collections : result (list Ra3.Collection)
}.

(** The two module globals. *)
Record Globals := MkGlobals {
  chroma_client : option Client;
  chroma_collection : option Ra3.Collection
}.

(** The globals when the module is loaded. *)
Definition unset : Globals := {| chroma_client := None; chroma_collection := None |}.

(** [initialize_chromadb()]: the globals after the call ([persistent_client]
    is [chromadb.PersistentClient(path=...)]; what is printed is left
    out).  An exception anywhere in the [try] resets both globals; a
    store without collections leaves [chroma_collection] as it was. *)
Definition initialize_chromadb (persistent_client : str -> result Client)
    (args : Args) (g : Globals) : Globals :=
  match persistent_client (chroma_db_path args) with
  | Ret client =>
      match list_collections client with
      | Ret (first :: _) =>
          {| chroma_client := Some client; chroma_collection := Some first |}
      | Ret [] =>
          {| chroma_client := Some client; chroma_collection := chroma_collection g |}
      | Raise _ => unset
      end
  | Raise _ => unset
  end.

End Ra3Init.

(* ===================================================================== *)
(** * ra-1: registration without an index *)
(* ===================================================================== *)

Module Ra1.

(** What [make_resource(uri, target, display_name)] registers. *)
Record Resource := MkResource {
  res_uri : str;
  res_target : Path;
  res_name : str
}.

Section Register.
Context (w : World).

(** [root.rglob(pattern)], which is [root.glob("**/" + pattern)]. *)
Definition rglob (root : Path) (pattern : str) : list Path * option exn :=
  fs_glob w root (lit "**/" ++ pattern).

(** The body of the loop for one path: the resource registered, if the
    path is a file.  Nothing is caught here. *)
Definition register_path (root p : Path) : result (option Resource) :=
  isf ← fs_is_file w p;
  if (isf : bool) then
    rel ← relative_to p root;
    q ← quote (as_posix rel) (lit "/");
    let uri := lit "workspace://" ++ q in
    _ ← mcp_resource w uri (name p) (name p) (lit "application/pdf");
    Ret (Some (MkResource uri p (name p)))
  else Ret None.

(** The loop: the resources registered, and the exception that ended it
    before its time, if any. *)
Fixpoint register_paths (root : Path) (ps : list Path) (registered : list Resource)
    : list Resource * option exn :=
  match ps with
  | [] => (registered, None)
  | p :: rest =>
      match register_path root p with
      | Ret (Some r) => register_paths root rest (registered ++ [r])
      | Ret None => register_paths root rest registered
      | Raise e => (registered, Some e)
      end
  end.

(** The resources of the files among [ps], in order. *)
Definition resources_of (root : Path) (ps : list Path) : list Resource :=
  flat_map (fun p => match register_path root p with
                     | Ret (Some r) => [r]
                     | _ => []
                     end) ps.

(** [register_file_resources(workspace)]: what has been registered when
    the call ends, and the exception it ends with, if any. *)
Definition register_file_resources (workspace : str) : list Resource * option exn :=
  let checked :=
    root ← (fs_expanduser w (Path_of_str workspace) ≫= fs_resolve w);
    ex ← fs_exists w root;
    isd ← (if (ex : bool) then fs_is_dir w root else Ret false);
    if negb ex || negb isd then
      Raise (MkExn ValueError
               (lit "Workspace does not exist or is not a directory: " ++ workspace))
    else Ret root in
  match checked with
  | Raise e => ([], Some e)
  | Ret root =>
      let '(ps, stop) := rglob root (lit "*.pdf") in
      match register_paths root ps [] with
      | (registered, Some e) => (registered, Some e)
      | (registered, None) => (registered, stop)
      end
  end.

End Register.
End Ra1.

(* ===================================================================== *)
(** * package_dxt.py: the checks of the packager *)
(* ===================================================================== *)

Module Packager.

(** A value [json.load] returns. *)
#[warnings="-register-all"]
Inductive json :=
| JNull
| JBool (b : bool)
| JInt (z : Z)
| JFloat (f : PyFloat.float)
| JStr (s : str)
| JArr (items : list json)
| JObj (members : list (str * json)).

(** How a method of the packager ends: it returns, it leaves the process
    through [self.error] ([sys.exit(1)] after the message), or it raises. *)
Inductive outcome (A : Type) :=
| Done (a : A)
| Exit (code : Z) (message : str)
| Fail (e : exn).
Arguments Done {A} a.
Arguments Exit {A} code message.
Arguments Fail {A} e.

(** [self.error(message)]. *)
Definition error {A} (message : str) : outcome A :=
  Exit 1 (lit "[ERROR] " ++ message).

(** The output file name [__init__] settles on. *)
Definition output_name (name : option str) (source_dir : Path) : str :=
  match name with
  | Some n =>
      if truthy n then (if endswith n (lit ".dxt") then n else n ++ lit ".dxt")
      else PyPath.name source_dir ++ lit ".dxt"
  | None => PyPath.name source_dir ++ lit ".dxt"
  end.

(** [needle in hay] on two strings. *)
Fixpoint is_substring (needle hay : str) : bool :=
  startswith hay needle
  || match hay with
     | [] => false
     | _ :: hay' => is_substring needle hay'
     end.

(** [d.get(key)] on the members of a dict. *)
Fixpoint members_get (members : list (str * json)) (key : str) : option json :=
  match members with
  | [] => None
  | (k, v) :: rest => if str_eqb k key then Some v else members_get rest key
  end.

Definition is_str (v : json) (s : str) : bool :=
  match v with
  | JStr s' => str_eqb s' s
  | _ => false
  end.

Definition type_error (what : string) : exn :=
  MkExn OtherException (lit "argument of type '" ++ lit what ++ lit "' is not iterable").

Definition attribute_error (what : string) : exn :=
  MkExn OtherException (lit "'" ++ lit what ++ lit "' object has no attribute 'get'").

(** [field in container]. *)
Definition contains (container : json) (field : str) : result bool :=
  match container with
  | JObj members => Ret (bool_decide (is_Some (members_get members field)))
  | JArr items => Ret (existsb (fun v => is_str v field) items)
  | JStr s => Ret (is_substring field s)
  | JNull => Raise (type_error "NoneType")
  | JBool _ => Raise (type_error "bool")
  | JInt _ => Raise (type_error "int")
  | JFloat _ => Raise (type_error "float")
  end.

(** [container.get(key, default)]. *)
Definition get (container : json) (key : str) (default : json) : result json :=
  match container with
  | JObj members => Ret (match members_get members key with Some v => v | None => default end)
  | JArr _ => Raise (attribute_error "list")
  | JStr _ => Raise (attribute_error "str")
  | JNull => Raise (attribute_error "NoneType")
  | JBool _ => Raise (attribute_error "bool")
  | JInt _ => Raise (attribute_error "int")
  | JFloat _ => Raise (attribute_error "float")
  end.

(** What opening and parsing [manifest.json] gives. *)
Inductive loaded :=
| Loaded (manifest : json)
| JSONDecodeError (e : str)
| LoadError (e : str).

Definition required_fields : list str :=
  [lit "dxt_version"; lit "name"; lit "version"; lit "server"].

(** The loop over the required fields, then [rest]. *)
Fixpoint check_required (manifest : json) (fields : list str) (rest : outcome json)
    : outcome json :=
  match fields with
  | [] => rest
  | field :: fields' =>
      match contains manifest field with
      | Raise e => Fail e
      | Ret false =>
          error (lit "Required field '" ++ field ++ lit "' missing from manifest.json")
      | Ret true => check_required manifest fields' rest
      end
  end.

(** The checks on the server configuration. *)
Definition check_server (manifest : json) : outcome json :=
  match get manifest (lit "server") (JObj []) with
  | Raise e => Fail e
  | Ret server_config =>
      match get server_config (lit "type") JNull with
      | Raise e => Fail e
      | Ret ty =>
          if negb (is_str ty (lit "python")) then
            error (lit "Only Python servers are supported")
          else
            match contains server_config (lit "entry_point") with
            | Raise e => Fail e
            | Ret false => error (lit "server.entry_point missing from manifest.json")
            | Ret true => Done manifest
            end
      end
  end.

(** [validate_manifest()], given what loading the file gives. *)
Definition validate_manifest (file : loaded) : outcome json :=
  match file with
  | JSONDecodeError e => error (lit "Invalid JSON in manifest.json: " ++ e)
  | LoadError e => error (lit "Error reading manifest.json: " ++ e)
  | Loaded manifest => check_required manifest required_fields (check_server manifest)
  end.

(** [validate_source_structure()]. *)
Definition validate_source_structure (w : World) (source_dir : Path) : outcome unit :=
  let check (p : Path) (message : str) (rest : outcome unit) : outcome unit :=
    match fs_exists w p with
    | Raise e => Fail e
    | Ret false => error message
    | Ret true => rest
    end in
  let server_dir := joinpath source_dir (Path_of_str (lit "server")) in
  check source_dir (lit "Source directory does not exist: " ++ as_posix source_dir)
    (check (joinpath source_dir (Path_of_str (lit "manifest.json")))
           (lit "manifest.json not found in source directory")
       (check server_dir (lit "server/ directory not found")
          (check (joinpath server_dir (Path_of_str (lit "main.py")))
                 (lit "server/main.py not found")
             (Done tt)))).

(** A manifest that passes: an object with the four required members
    whose [server] is an object of type [python] with an entry point. *)
Definition manifest_ok (manifest : json) : Prop :=
  exists members server,
    manifest = JObj members
    /\ List.Forall (fun field => is_Some (members_get members field)) required_fields
    /\ members_get members (lit "server") = Some (JObj server)
    /\ members_get server (lit "type") = Some (JStr (lit "python"))
    /\ is_Some (members_get server (lit "entry_point")).

End Packager.

(* ===================================================================== *)
(** * Further notions the properties use *)
(* ===================================================================== *)

Module Notions.

(** A character [quote] can produce: unreserved, [/], or part of a
    [%XX] escape. *)
Definition quoted_char (c : codepoint) : bool :=
  (always_safe c || (c =? 47) || (c =? 37))%N.

(** A query of white space only. *)
Definition blank (query : str) : Prop := List.Forall (fun c => is_space c = true) query.

(** The lines of the answer of the lexical ranker, after the heading. *)
Definition ranked `{Unicode} (index : Index) (query : str) : list Ra2.Candidate :=
  Ra2.rank (List.map (Ra2.candidate_of (Ra2.tokenize (str_lower query))) index).

(** Every modification time of the index is a number. *)
Definition timed_index (index : Index) : Prop :=
  List.Forall (fun item => PyFloat.is_nan (meta_mtime (snd item)) = false) index.

(** What the tests of the walker establish about a path. *)
Definition passes (w : World) (ignore_dirs : list str) (follow_symlinks : bool)
    (max_bytes : option Z) (p : Path) : Prop :=
  (forall ig, In ig ignore_dirs -> ~ In ig (parts p))
  /\ (follow_symlinks = false -> fs_is_symlink w p = Ret false)
  /\ fs_exists w p = Ret true
  /\ fs_is_file w p = Ret true
  /\ (forall mb, max_bytes = Some mb ->
        exists st, fs_stat w p = Ret st /\ st_size st <= mb).

End Notions.

(* ===================================================================== *)
(** * What an index entry records *)
(* ===================================================================== *)

Module EntrySpec.

(** The entry [(u, m)] is the one the registration loop stores for the
    file [p] under [root]. *)
Definition entry_for (w : World) (root p : Path) (u : str) (m : Meta) : Prop :=
  exists rel q st,
    relative_to p root = Ret rel
    /\ quote (as_posix rel) (lit "/") = Ret q
    /\ u = lit "workspace://" ++ q
    /\ fs_stat w p = Ret st
    /\ meta_name m = as_posix rel
    /\ meta_path m = as_posix p
    /\ meta_size m = st_size st
    /\ meta_mime m <> [].

End EntrySpec.

(* ===================================================================== *)
(** * A workspace with a text file *)
(* ===================================================================== *)

Module DemoText.

Definition readme : Path := MkPath true [lit "ws"; lit "notes"; lit "readme.txt"].

(** The world [w] in which reading [readme] as text gives [content]. *)
Definition with_readme (w : World) (content : str) : World :=
  {| fs_expanduser := fs_expanduser w;
     fs_resolve := fs_resolve w;
     fs_exists := fs_exists w;
     fs_is_file := fs_is_file w;
     fs_is_dir := fs_is_dir w;
     fs_is_symlink := fs_is_symlink w;
     fs_stat := fs_stat w;
     fs_glob := fs_glob w;
     fs_read_text p := if bool_decide (p = readme) then Ret content else fs_read_text w p;
     fs_pdf_reader := fs_pdf_reader w;
     guess_type := guess_type w;
     datetime_timestamp := datetime_timestamp w;
     mcp_resource := mcp_resource w |}.

(** The report and a readme of eleven characters. *)
Definition text_world : World :=
  with_readme
    (Demo.world [Demo.report; readme]
       (fun pattern => if str_eqb pattern (lit "**/*.pdf") then [Demo.report] else [])
       [Ret Demo.page200])
    (lit "hello world").

(** A store that cannot be opened, one without collections, and one with
    the collection of the scenarios and a second one behind it. *)
Definition no_store (path : str) : result Ra3Init.Client :=
  Raise (MkExn OtherException (lit "could not connect to tenant default_tenant")).

Definition empty_store (path : str) : result Ra3Init.Client :=
  Ret (Ra3Init.MkClient (Ret [])).

Definition other_collection : Ra3.Collection :=
  {| Ra3.coll_query _ _ := Raise (MkExn OtherException (lit "never asked")) |}.

Definition full_store (path : str) : result Ra3Init.Client :=
  Ret (Ra3Init.MkClient (Ret [Demo.collection; other_collection])).

(** A store whose answer has documents and identifiers but no distances. *)
Definition bare_collection : Ra3.Collection :=
  {| Ra3.coll_query _ _ :=
       Ret {| Ra3.ids := [[lit "id-1"; lit "id-2"]];
              Ra3.documents := Some [[lit "text one"; lit "text two"]];
              Ra3.distances := None;
              Ra3.metadatas := Some [[None; None]] |} |}.

End DemoText.

(* ===================================================================== *)
(** * A workspace with a file that cannot be examined *)
(* ===================================================================== *)

Module DemoBroken.

Definition broken : Path := MkPath true [lit "ws"; lit "locked"; lit "secret.pdf"].

(** The world [w] in which [is_file] on [bad] raises. *)
Definition with_broken (w : World) (bad : Path) : World :=
  {| fs_expanduser := fs_expanduser w;
     fs_resolve := fs_resolve w;
     fs_exists := fs_exists w;
     fs_is_file p := if bool_decide (p = bad) then Raise Demo.io_error else fs_is_file w p;
     fs_is_dir := fs_is_dir w;
     fs_is_symlink := fs_is_symlink w;
     fs_stat := fs_stat w;
     fs_glob := fs_glob w;
     fs_read_text := fs_read_text w;
     fs_pdf_reader := fs_pdf_reader w;
     guess_type := guess_type w;
     datetime_timestamp := datetime_timestamp w;
     mcp_resource := mcp_resource w |}.

(** The report, then the file that cannot be examined, then the draft. *)
Definition broken_world : World :=
  with_broken
    (Demo.world [Demo.report; broken; Demo.draft]
       (fun pattern =>
          if str_eqb pattern (lit "**/*.pdf") then [Demo.report; broken; Demo.draft] else [])
       [Ret Demo.page200])
    broken.

End DemoBroken.

(* ===================================================================== *)
(** * A manifest for the packager *)
(* ===================================================================== *)

Module DemoPack.
Import Packager.

Definition manifest : json :=
  JObj [(lit "dxt_version", JStr (lit "0.1"));
        (lit "name", JStr (lit "ra-3"));
        (lit "version", JStr (lit "1.0.0"));
        (lit "server",
         JObj [(lit "type", JStr (lit "python"));
               (lit "entry_point", JStr (lit "server/main.py"))])].

(** A source directory with everything the packager looks for. *)
Definition source_dir : Path := MkPath true [lit "src"; lit "ra-3"].

Definition source_world : World :=
  Demo.world
    [MkPath true [lit "src"; lit "ra-3"];
     MkPath true [lit "src"; lit "ra-3"; lit "manifest.json"];
     MkPath true [lit "src"; lit "ra-3"; lit "server"];
     MkPath true [lit "src"; lit "ra-3"; lit "server"; lit "main.py"]]
    (fun _ => []) [].

End DemoPack.

(* ===================================================================== *)
(** * The order of a listing *)
(* ===================================================================== *)

Module RankOrder.

(** [x] stands before [y] in the list [l]. *)
Definition listed_before {A} (l : list A) (x y : A) : Prop :=
  exists i j : nat, (i < j)%nat /\ l !! i = Some x /\ l !! j = Some y.

End RankOrder.

(* ===================================================================== *)
(** * A workspace with a file that cannot be examined, read twice *)
(* ===================================================================== *)

Module DemoRerun.

(** The workspace of [DemoBroken.broken_world], its matches yielded in
    the opposite order. *)
Definition second_run : World :=
  DemoBroken.with_broken
    (Demo.world [Demo.report; DemoBroken.broken; Demo.draft]
       (fun pattern =>
          if str_eqb pattern (lit "**/*.pdf")
          then [Demo.draft; DemoBroken.broken; Demo.report] else [])
       [Ret Demo.page200])
    DemoBroken.broken.

End DemoRerun.

(* ===================================================================== *)
(** * Properties *)
(* ===================================================================== *)

(** ** The exception monad *)

Lemma bind_Ret {A B} (a : A) (k : A -> result B) : Ret a ≫= k = k a.
Proof. reflexivity. Qed.

Lemma bind_Raise {A B} (e : exn) (k : A -> result B) : Raise e ≫= k = Raise e.
Proof. reflexivity. Qed.

(** ** Content accessor: which inputs return *)

Module ContentFacts.
Import Content.
Section Facts.
Context `{Unicode} (w : World) (args : Args).

Lemma read_handler_returns (path : str) (e : exn) :
  returns (read_handler path e).
Proof. unfold read_handler. destruct (exn_cls e); eexists; reflexivity. Qed.

(** Once the two path tests have passed, the accessor returns a string
    whatever the reading raises. *)
Lemma guarded_read_returns (path : str) (po : Path) :
  returns (try_except (read_body w args path po) (read_handler path)).
Proof.
  destruct (read_body w args path po) as [s|e]; simpl.
  - eexists; reflexivity.
  - apply read_handler_returns.
Qed.

(** A relative path returns a string when the workspace root resolves
    and the two path tests themselves do not raise. *)
Lemma relative_path_returns (path : str) (root po : Path) (ex isf : bool) :
  is_absolute (Path_of_str path) = false ->
  fs_expanduser w (Path_of_str (workspace_directory args)) ≫= fs_resolve w = Ret root ->
  fs_resolve w (joinpath root (Path_of_str path)) = Ret po ->
  fs_exists w po = Ret ex ->
  fs_is_file w po = Ret isf ->
  returns (obtain_resource_content w args path).
Proof.
  intros Hrel Hroot Hres Hex Hisf. unfold obtain_resource_content.
  rewrite Hroot, bind_Ret, Hrel. simpl negb. cbv iota.
  rewrite Hres, !bind_Ret. simpl load_local. rewrite !bind_Ret, Hex, bind_Ret.
  destruct ex; simpl negb; cbv iota; [|eexists; reflexivity].
  rewrite Hisf, bind_Ret.
  destruct isf; simpl negb; cbv iota; [|eexists; reflexivity].
  apply guarded_read_returns.
Qed.

(** An absolute path never returns: [path_obj] is read unbound, unless
    resolving the workspace root has raised before. *)
Lemma absolute_path_raises (path : str) :
  is_absolute (Path_of_str path) = true ->
  raises (obtain_resource_content w args path).
Proof.
  intros Habs. unfold obtain_resource_content.
  destruct (fs_expanduser w (Path_of_str (workspace_directory args)) ≫= fs_resolve w)
    as [root|e].
  - rewrite bind_Ret, Habs. eexists; reflexivity.
  - eexists; reflexivity.
Qed.

End Facts.
End ContentFacts.

(** C1 (fails on the code): the accessor is meant to answer every path
    with a string, but on the absolute path [/ws/docs/report 1.pdf] of an
    existing, readable PDF it raises [UnboundLocalError]: the variable
    [path_obj] is assigned for relative paths only. *)
Theorem obtain_resource_content_absolute_unbound :
  @Content.obtain_resource_content ascii_unicode Demo.docs_world
     (Demo.args (ArgInt (-1))) (lit "/ws/docs/report 1.pdf")
  = Raise (MkExn UnboundLocalError
             (lit "cannot access local variable 'path_obj' where it is not associated with a value")).
Proof. vm_compute. reflexivity. Qed.

(** ** Lexical ranker: the two sentinels *)

Module SentinelFacts.
Import Ra2.
Section Facts.
Context `{Unicode}.

Lemma findall_from_nil_inv (cur s : str) :
  findall_from cur s = [] -> cur = [] /\ Forall (fun c => is_token_char c = false) s.
Proof.
  revert cur. induction s as [|c s IH]; intros cur Hf; simpl in Hf.
  - destruct cur; [split; [reflexivity|constructor] | discriminate].
  - destruct (is_token_char c) eqn:Hc.
    + apply IH in Hf as [Hcur _]. discriminate.
    + destruct cur; [|discriminate].
      apply IH in Hf as [_ Hs]. split; [reflexivity|]. constructor; assumption.
Qed.

Lemma findall_no_token_char (s : str) :
  Forall (fun c => is_token_char c = false) s -> findall s = [].
Proof.
  unfold findall. induction 1 as [|c s Hc _ IH]; simpl; [reflexivity|].
  rewrite Hc. exact IH.
Qed.

(** The token set is empty exactly when the lower-cased text has no
    character of [[a-z0-9]]. *)
Lemma tokenize_empty_iff (text : str) :
  tokenize text = ∅ <-> Forall (fun c => is_token_char c = false) (str_lower text).
Proof.
  unfold tokenize. split.
  - intros He. destruct (findall (str_lower text)) as [|t ts] eqn:Hf.
    + apply findall_from_nil_inv in Hf as [_ Hs]. exact Hs.
    + exfalso. assert (Ht : t ∈ (list_to_set (t :: ts) : gset str)) by set_solver.
      rewrite He in Ht. set_solver.
  - intros Hs. rewrite findall_no_token_char by assumption. reflexivity.
Qed.

Lemma locate_empty_tokens (index : Index) (query : str) :
  tokenize (str_lower query) = ∅ ->
  locate_relevant_resouces index query = empty_query.
Proof.
  intros He. unfold locate_relevant_resouces.
  rewrite bool_decide_eq_true_2 by assumption. reflexivity.
Qed.

Lemma locate_empty_index (query : str) :
  tokenize (str_lower query) <> ∅ ->
  locate_relevant_resouces [] query = no_resources.
Proof.
  intros Hne. unfold locate_relevant_resouces.
  rewrite bool_decide_eq_false_2 by assumption. reflexivity.
Qed.

End Facts.
End SentinelFacts.

(** C4: a query whose token set is empty is answered with the sentinel
    [Query is empty.], whatever the index holds. *)
Theorem empty_query_sentinel `{Unicode} (index : Index) (query : str) :
  Ra2.tokenize (str_lower query) = ∅ ->
  Ra2.locate_relevant_resouces index query = lit "Query is empty.".
Proof. apply SentinelFacts.locate_empty_tokens. Qed.

Lemma empty_query_sentinel_witness :
  @Ra2.tokenize ascii_unicode (@str_lower ascii_unicode (lit "?! -- ...")) = ∅
  /\ @Ra2.locate_relevant_resouces ascii_unicode
       [(lit "workspace://a.pdf",
         MkMeta (lit "a.pdf") (lit "/ws/a.pdf") 10 PyFloat.f0_0 (lit "application/pdf"))]
       (lit "?! -- ...")
     = lit "Query is empty.".
Proof.
  split.
  - vm_compute. reflexivity.
  - apply (@empty_query_sentinel ascii_unicode). vm_compute. reflexivity.
Defined.

(** C10: with an empty index and a query without tokens, the answer is
    the empty-query sentinel and not the no-resources sentinel; the
    no-resources sentinel is the answer to an empty index only when the
    query has a token. *)
Theorem empty_query_precedes_empty_index `{Unicode} (query : str) :
  Ra2.tokenize (str_lower query) = ∅ ->
  Ra2.locate_relevant_resouces [] query = lit "Query is empty."
  /\ Ra2.locate_relevant_resouces [] query <> lit "No resources available to search.".
Proof.
  intros He. rewrite SentinelFacts.locate_empty_tokens by assumption.
  split; [reflexivity | discriminate].
Qed.

Lemma empty_query_precedes_empty_index_witness :
  @Ra2.tokenize ascii_unicode (@str_lower ascii_unicode []) = ∅
  /\ @Ra2.locate_relevant_resouces ascii_unicode [] [] = lit "Query is empty."
  /\ @Ra2.locate_relevant_resouces ascii_unicode [] []
     <> lit "No resources available to search.".
Proof.
  split.
  - vm_compute. reflexivity.
  - apply (@empty_query_precedes_empty_index ascii_unicode). vm_compute. reflexivity.
Defined.

(** ** Content accessor: the per-page limit *)

Module LimitFacts.
Import Content ContentSpec.
Section Facts.
Context `{Unicode} (w : World) (args : Args).

Lemma fold_page_step (limit : Z) (pages : list (result str)) (content : list str) :
  py_int (limit_text args) = Ret limit ->
  fold_left (page_step args) pages content
  = content ++ List.map (clip limit) (page_texts pages).
Proof.
  intros Hlim. revert content.
  induction pages as [|page pages IH]; intros content; simpl.
  - rewrite app_nil_r. reflexivity.
  - rewrite IH. unfold page_step, page_texts. destruct page as [text|e]; simpl.
    + destruct (truthy text); simpl.
      * rewrite Hlim. simpl. rewrite <- app_assoc. reflexivity.
      * reflexivity.
    + reflexivity.
Qed.

Lemma extract_pages_clip (limit : Z) (pages : list (result str)) :
  py_int (limit_text args) = Ret limit ->
  extract_pages args pages = List.map (clip limit) (page_texts pages).
Proof. intros Hlim. unfold extract_pages. rewrite (fold_page_step limit); auto. Qed.

(** A limit that is no integer literal makes every page fail inside its
    [try]: nothing is appended. *)
Lemma extract_pages_bad_limit (e : exn) (pages : list (result str)) :
  py_int (limit_text args) = Raise e ->
  extract_pages args pages = [].
Proof.
  intros Hlim. unfold extract_pages.
  induction pages as [|page pages IH]; simpl; [reflexivity|].
  replace (page_step args [] page) with (@nil str); [exact IH|].
  unfold page_step. destruct page as [text|e']; simpl; [|reflexivity].
  destruct (truthy text); simpl; [|reflexivity]. rewrite Hlim. reflexivity.
Qed.

Lemma map_clip_pos (limit : Z) (texts : list str) :
  0 < limit -> List.map (clip limit) texts = List.map (firstn (Z.to_nat limit)) texts.
Proof.
  intros Hpos. apply List.map_ext. intros t. unfold clip, slice_to.
  destruct (Z.ltb_spec 0 limit); [reflexivity | lia].
Qed.

Lemma map_clip_nonpos (limit : Z) (texts : list str) :
  limit <= 0 -> List.map (clip limit) texts = texts.
Proof.
  intros Hle. rewrite <- (List.map_id texts) at 2. apply List.map_ext. intros t.
  unfold clip. destruct (Z.ltb_spec 0 limit); [lia | reflexivity].
Qed.

Lemma len_firstn_le (limit : Z) (text : str) :
  0 < limit -> len (firstn (Z.to_nat limit) text) <= limit.
Proof.
  intros Hpos. unfold len. rewrite List.length_firstn. lia.
Qed.

(** The read of a PDF that opens and whose page iteration ends normally. *)
Lemma pdf_read (path : str) (root po : Path) (pages : list (result str)) (limit : Z) :
  is_absolute (Path_of_str path) = false ->
  endswith (str_lower (strip path)) (lit ".pdf") = true ->
  fs_expanduser w (Path_of_str (workspace_directory args)) ≫= fs_resolve w = Ret root ->
  fs_resolve w (joinpath root (Path_of_str path)) = Ret po ->
  fs_exists w po = Ret true ->
  fs_is_file w po = Ret true ->
  fs_pdf_reader w po = Ret (MkPdf pages None) ->
  py_int (limit_text args) = Ret limit ->
  obtain_resource_content w args path
  = Ret (pdf_contents path (List.map (clip limit) (page_texts pages))).
Proof.
  intros Hrel Hpdf Hroot Hres Hex Hisf Hdoc Hlim. unfold obtain_resource_content.
  rewrite Hroot, bind_Ret, Hrel. simpl negb. cbv iota.
  rewrite Hres, !bind_Ret. simpl load_local. rewrite !bind_Ret, Hex, bind_Ret.
  simpl negb. cbv iota. rewrite Hisf, bind_Ret. simpl negb. cbv iota.
  unfold read_body. rewrite Hpdf, Hdoc, bind_Ret. simpl pdf_abort. cbv iota.
  simpl pdf_pages. rewrite (extract_pages_clip limit) by assumption.
  reflexivity.
Qed.

End Facts.
End LimitFacts.

(** C9: on a PDF read, a positive limit cuts each page's text to its
    first [limit] characters before the texts are joined, and a limit
    that is zero or negative (the default [-1] of an absent option
    included) leaves every text whole; a single page of 200 characters
    under the limit 50 contributes its first 50 characters. *)
Theorem pdf_page_text_limit `{Unicode} (w : World) (args : Args)
    (path : str) (root po : Path) (pages : list (result str)) (limit : Z) :
  is_absolute (Path_of_str path) = false ->
  endswith (str_lower (strip path)) (lit ".pdf") = true ->
  fs_expanduser w (Path_of_str (workspace_directory args)) ≫= fs_resolve w = Ret root ->
  fs_resolve w (joinpath root (Path_of_str path)) = Ret po ->
  fs_exists w po = Ret true ->
  fs_is_file w po = Ret true ->
  fs_pdf_reader w po = Ret (MkPdf pages None) ->
  py_int (limit_text args) = Ret limit ->
  (0 < limit ->
     Content.obtain_resource_content w args path
     = Ret (ContentSpec.pdf_contents path
              (List.map (firstn (Z.to_nat limit)) (ContentSpec.page_texts pages)))
     /\ Forall (fun t => len t <= limit)
          (List.map (firstn (Z.to_nat limit)) (ContentSpec.page_texts pages)))
  /\ (limit <= 0 ->
     Content.obtain_resource_content w args path
     = Ret (ContentSpec.pdf_contents path (ContentSpec.page_texts pages)))
  /\ (forall text, pages = [Ret text] -> len text = 200 -> limit = 50 ->
     Content.obtain_resource_content w args path
     = Ret (lit "Contents of " ++ path ++ lit ":" ++ Content.nl ++ firstn 50 text)
     /\ len (firstn 50 text) = 50).
Proof.
  intros Hrel Hpdf Hroot Hres Hex Hisf Hdoc Hlim.
  pose proof (LimitFacts.pdf_read w args path root po pages limit
                Hrel Hpdf Hroot Hres Hex Hisf Hdoc Hlim) as Hread.
  split; [|split].
  - intros Hpos. rewrite Hread, LimitFacts.map_clip_pos by assumption.
    split; [reflexivity|].
    apply List.Forall_forall. intros t Ht. apply List.in_map_iff in Ht as [t0 [<- _]].
    apply LimitFacts.len_firstn_le. assumption.
  - intros Hle. rewrite Hread, LimitFacts.map_clip_nonpos by assumption. reflexivity.
  - intros text -> Hlen ->. rewrite Hread. unfold ContentSpec.page_texts. simpl omap.
    destruct text as [|c text]; [discriminate Hlen|]. simpl truthy. cbv iota.
    split; [reflexivity|].
    unfold len in *. rewrite List.length_firstn. lia.
Qed.

Lemma pdf_page_text_limit_witness :
  @Content.obtain_resource_content ascii_unicode Demo.docs_world
     (Demo.args (ArgStr (lit "50"))) (lit "docs/report 1.pdf")
  = Ret (lit "Contents of docs/report 1.pdf:" ++ Content.nl ++ repeat 120%N 50).
Proof.
  pose proof (@pdf_page_text_limit ascii_unicode Demo.docs_world
                (Demo.args (ArgStr (lit "50"))) (lit "docs/report 1.pdf")
                Demo.root Demo.report [Ret Demo.page200] 50
                eq_refl eq_refl eq_refl eq_refl eq_refl eq_refl eq_refl eq_refl)
    as [_ [_ Hscenario]].
  destruct (Hscenario Demo.page200 eq_refl eq_refl eq_refl) as [Hout _].
  rewrite Hout. vm_compute. reflexivity.
Defined.

(** ** Similarity ranker: scores *)

Module SimilarityFacts.
Import Ra3.

Lemma zip3_lookup {A B C} (xs : list A) (ys : list B) (zs : list C) (i : nat) x y z :
  xs !! i = Some x -> ys !! i = Some y -> zs !! i = Some z ->
  zip3 xs ys zs !! i = Some (x, y, z).
Proof.
  revert ys zs i. induction xs as [|x0 xs IH]; intros ys zs i Hx Hy Hz.
  - destruct i; discriminate.
  - destruct ys as [|y0 ys]; [destruct i; discriminate|].
    destruct zs as [|z0 zs]; [destruct i; discriminate|].
    destruct i as [|i]; simpl in *.
    + congruence.
    + apply IH; assumption.
Qed.

Lemma zip3_length {A B C} (xs : list A) (ys : list B) (zs : list C) :
  List.length (zip3 xs ys zs)
  = Nat.min (List.length xs) (Nat.min (List.length ys) (List.length zs)).
Proof.
  revert ys zs. induction xs as [|x xs IH]; intros ys zs; [reflexivity|].
  destruct ys as [|y ys]; [reflexivity|].
  destruct zs as [|z zs]; [simpl; lia|].
  simpl. rewrite IH. reflexivity.
Qed.

(** The answer when the store is there, the query is not blank and the
    store finds documents. *)
Lemma locate_lines (collection : Collection) (query : str) (results : QueryResult) :
  truthy (strip query) = true ->
  coll_query collection query 10 = Ret results ->
  first_or_empty (documents results) <> [] ->
  locate_relevant_resources (Some collection) query
  = join Content.nl (lit "Top candidates:" :: result_lines results).
Proof.
  intros Hq Hres Hdocs. unfold locate_relevant_resources.
  rewrite Hq. simpl negb. cbv iota. rewrite Hres, bind_Ret.
  destruct (first_or_empty (documents results)); [contradiction | reflexivity].
Qed.

Lemma result_lines_lookup (results : QueryResult) (i : nat) doc_id distance metadata :
  List.hd [] (ids results) !! i = Some doc_id ->
  first_or_empty (distances results) !! i = Some distance ->
  first_or_empty (metadatas results) !! i = Some metadata ->
  result_lines results !! i = Some (result_line i (doc_id, distance, metadata)).
Proof.
  intros Hid Hd Hm. unfold result_lines. rewrite list_lookup_imap.
  replace (match ids results with [] => [] | x :: _ => x end)
    with (List.hd [] (ids results)) by (destruct (ids results); reflexivity).
  rewrite (zip3_lookup _ _ _ i doc_id distance metadata) by assumption.
  reflexivity.
Qed.

(** The literals [0.1] and [0.4] are the doubles nearest to 1/10 and
    4/10, and [1.0] is one. *)
Lemma literals :
  PyFloat.decimal 1 1 = S754_finite false 7205759403792794 (-56)
  /\ PyFloat.decimal 4 1 = S754_finite false 7205759403792794 (-54)
  /\ PyFloat.f1_0 = S754_finite false 4503599627370496 (-52).
Proof. repeat split; vm_compute; reflexivity. Qed.

Lemma score_0_1 :
  PyFloat.format_3f (similarity_score (Some (PyFloat.decimal 1 1))) = lit "0.900".
Proof. vm_compute. reflexivity. Qed.

Lemma score_0_4 :
  PyFloat.format_3f (similarity_score (Some (PyFloat.decimal 4 1))) = lit "0.600".
Proof. vm_compute. reflexivity. Qed.

End SimilarityFacts.

(** C8: every result the similarity ranker lists carries the score
    [1.0 - distance], or [0.0] when the store gave no distance, printed
    with three decimals, in the order of the store; the distances [0.1]
    and [0.4] are listed as [0.900] and [0.600]. *)
Theorem similarity_is_one_minus_distance
    (collection : Ra3.Collection) (query : str) (results : Ra3.QueryResult) :
  truthy (strip query) = true ->
  Ra3.coll_query collection query 10 = Ret results ->
  Ra3.first_or_empty (Ra3.documents results) <> [] ->
  Ra3.locate_relevant_resources (Some collection) query
  = join Content.nl (lit "Top candidates:" :: Ra3.result_lines results)
  /\ (forall (i : nat) doc_id distance metadata,
        List.hd [] (Ra3.ids results) !! i = Some doc_id ->
        Ra3.first_or_empty (Ra3.distances results) !! i = Some distance ->
        Ra3.first_or_empty (Ra3.metadatas results) !! i = Some metadata ->
        Ra3.result_lines results !! i
        = Some (str_of_Z (Z.of_nat i) ++ lit "- filename: `"
                ++ Ra3.display_name doc_id metadata ++ lit "` --- (similarity "
                ++ PyFloat.format_3f
                     match distance with
                     | Some d => PyFloat.sub (PyFloat.of_Z 1) d
                     | None => S754_zero false
                     end
                ++ lit ")"))
  /\ (forall id1 id2 md1 md2,
        Ra3.ids results = [[id1; id2]] ->
        Ra3.distances results
        = Some [[Some (PyFloat.decimal 1 1); Some (PyFloat.decimal 4 1)]] ->
        Ra3.metadatas results = Some [[md1; md2]] ->
        Ra3.locate_relevant_resources (Some collection) query
        = join Content.nl
            [lit "Top candidates:";
             lit "0- filename: `" ++ Ra3.display_name id1 md1
               ++ lit "` --- (similarity 0.900)";
             lit "1- filename: `" ++ Ra3.display_name id2 md2
               ++ lit "` --- (similarity 0.600)"]).
Proof.
  intros Hq Hres Hdocs.
  pose proof (SimilarityFacts.locate_lines collection query results Hq Hres Hdocs) as Hloc.
  split; [exact Hloc|]. split.
  - intros i doc_id distance metadata Hid Hd Hm.
    etrans; [exact (SimilarityFacts.result_lines_lookup
                      results i doc_id distance metadata Hid Hd Hm)|].
    destruct distance; reflexivity.
  - intros id1 id2 md1 md2 Hids Hds Hms. rewrite Hloc.
    unfold Ra3.result_lines. rewrite Hids, Hds, Hms. simpl Ra3.first_or_empty.
    simpl Ra3.zip3.
    change (imap Ra3.result_line ?l)
      with [Ra3.result_line 0 (id1, Some (PyFloat.decimal 1 1), md1);
            Ra3.result_line 1 (id2, Some (PyFloat.decimal 4 1), md2)].
    unfold Ra3.result_line.
    rewrite SimilarityFacts.score_0_1, SimilarityFacts.score_0_4.
    reflexivity.
Qed.

Lemma similarity_is_one_minus_distance_witness :
  Ra3.locate_relevant_resources (Some Demo.collection) (lit "governance")
  = join Content.nl
      [lit "Top candidates:";
       lit "0- filename: `a.pdf` --- (similarity 0.900)";
       lit "1- filename: `id-2` --- (similarity 0.600)"].
Proof.
  destruct (similarity_is_one_minus_distance Demo.collection (lit "governance") _
              eq_refl eq_refl ltac:(discriminate)) as [_ [_ Hscenario]].
  rewrite (Hscenario _ _ _ _ eq_refl eq_refl eq_refl).
  vm_compute. reflexivity.
Defined.

(** ** Order on strings *)

Module StrFacts.

Lemma str_compare_eq (a b : str) : str_compare a b = Eq <-> a = b.
Proof.
  revert b. induction a as [|x a IH]; intros [|y b]; simpl; try (split; congruence).
  destruct (N.compare_spec x y) as [-> | Hlt | Hgt].
  - rewrite IH. split; congruence.
  - split; [discriminate | intros [= -> _]; lia].
  - split; [discriminate | intros [= -> _]; lia].
Qed.

Lemma str_compare_antisym (a b : str) : str_compare b a = CompOpp (str_compare a b).
Proof.
  revert b. induction a as [|x a IH]; intros [|y b]; simpl; try reflexivity.
  rewrite (N.compare_antisym x y).
  destruct (N.compare x y); simpl; [apply IH | reflexivity | reflexivity].
Qed.

Lemma str_compare_trans (a b c : str) :
  str_compare a b = Lt -> str_compare b c = Lt -> str_compare a c = Lt.
Proof.
  revert b c. induction a as [|x a IH]; intros [|y b] [|z c]; simpl;
    try congruence.
  destruct (N.compare_spec x y) as [-> | Hxy | Hxy]; try discriminate.
  - destruct (N.compare_spec y z) as [-> | Hyz | Hyz]; try discriminate.
    + apply IH.
    + reflexivity.
  - intros _. destruct (N.compare_spec y z) as [-> | Hyz | Hyz]; try discriminate.
    + intros _. destruct (N.compare_spec x z); [lia | reflexivity | lia].
    + intros _. destruct (N.compare_spec x z); [lia | reflexivity | lia].
Qed.

Lemma str_ltb_irrefl (a : str) : str_ltb a a = false.
Proof.
  unfold str_ltb. replace (str_compare a a) with Eq; [reflexivity|].
  symmetry. apply str_compare_eq. reflexivity.
Qed.

Lemma str_ltb_asym (a b : str) : str_ltb a b = true -> str_ltb b a = false.
Proof.
  unfold str_ltb. rewrite (str_compare_antisym a b).
  destruct (str_compare a b); simpl; congruence.
Qed.

Lemma str_ltb_trans (a b c : str) :
  str_ltb a b = true -> str_ltb b c = true -> str_ltb a c = true.
Proof.
  unfold str_ltb. intros Hab Hbc.
  rewrite (str_compare_trans a b c); [reflexivity | |].
  - destruct (str_compare a b); congruence.
  - destruct (str_compare b c); congruence.
Qed.

(** Two different strings are ordered one way or the other. *)
Lemma str_ltb_total (a b : str) : a <> b -> str_ltb a b = true \/ str_ltb b a = true.
Proof.
  intros Hne. unfold str_ltb. rewrite (str_compare_antisym a b).
  destruct (str_compare a b) eqn:Hc; simpl; auto.
  apply str_compare_eq in Hc. contradiction.
Qed.

Lemma str_ltb_antisym (a b : str) :
  str_ltb a b = false -> str_ltb b a = false -> a = b.
Proof.
  intros Hab Hba. destruct (decide (a = b)) as [|Hne]; [assumption|].
  destruct (str_ltb_total a b Hne); congruence.
Qed.

Lemma str_ltb_negtrans (a b c : str) :
  str_ltb a b = false -> str_ltb b c = false -> str_ltb a c = false.
Proof.
  intros Hab Hbc.
  destruct (str_ltb a c) eqn:Hac; [|reflexivity].
  destruct (decide (a = b)) as [->|Hne1]; [congruence|].
  destruct (decide (b = c)) as [->|Hne2]; [congruence|].
  destruct (str_ltb_total a b Hne1) as [H1|H1]; [congruence|].
  destruct (str_ltb_total b c Hne2) as [H2|H2]; [congruence|].
  pose proof (str_ltb_trans c b a H2 H1) as Hca.
  apply str_ltb_asym in Hca. congruence.
Qed.

Lemma str_eqb_eq (a b : str) : str_eqb a b = true <-> a = b.
Proof. unfold str_eqb. apply bool_decide_eq_true. Qed.

Lemma str_eqb_neq (a b : str) : str_eqb a b = false <-> a <> b.
Proof. unfold str_eqb. apply bool_decide_eq_false. Qed.

End StrFacts.

(** ** The stable sort *)

Module SortFacts.
Section Facts.
Context {A K : Type} (key : A -> K) (lt : K -> K -> bool).

Local Abbreviation key_le := (key_le key lt).

Lemma insert_by_perm (x : A) (l : list A) :
  Permutation (insert_by key lt x l) (x :: l).
Proof.
  induction l as [|y l IH]; simpl; [reflexivity|].
  destruct (lt (key y) (key x)); [|reflexivity].
  rewrite IH. apply perm_swap.
Qed.

Lemma sort_by_perm (l : list A) : Permutation (sort_by key lt l) l.
Proof.
  induction l as [|x l IH]; simpl; [reflexivity|].
  rewrite insert_by_perm, IH. reflexivity.
Qed.

Lemma sort_by_In (x : A) (l : list A) : In x (sort_by key lt l) <-> In x l.
Proof.
  split; apply Permutation_in; [|symmetry]; apply sort_by_perm.
Qed.

Lemma sort_by_length (l : list A) : List.length (sort_by key lt l) = List.length l.
Proof. apply Permutation_length, sort_by_perm. Qed.

(** The laws of [<] on the keys that occur: a domain [D] of keys on which
    [<] is asymmetric and its complement transitive. *)
Context (D : K -> Prop).
Hypothesis lt_asym : forall a b, D a -> D b -> lt a b = true -> lt b a = false.
Hypothesis lt_negtrans :
  forall a b c, D a -> D b -> D c -> lt a b = false -> lt b c = false -> lt a c = false.

Local Abbreviation in_domain := (List.Forall (fun x => D (key x))).

Lemma insert_by_sorted (x : A) (l : list A) :
  D (key x) -> in_domain l ->
  StronglySorted key_le l -> StronglySorted key_le (insert_by key lt x l).
Proof.
  intros Dx Dl Hs. induction Hs as [|y l Hs IH Hy]; simpl.
  - constructor; constructor.
  - apply List.Forall_cons_iff in Dl as [Dy Dl].
    destruct (lt (key y) (key x)) eqn:Hyx.
    + constructor; [apply IH; assumption|].
      apply (Permutation_Forall (x := x :: l)).
      { symmetry. apply insert_by_perm. }
      constructor; [|assumption].
      unfold key_le. apply lt_asym; assumption.
    + constructor; [constructor; assumption|].
      constructor; [exact Hyx|].
      rewrite List.Forall_forall in Hy, Dl |- *. intros z Hz. unfold key_le in *.
      apply (lt_negtrans (key z) (key y) (key x)); auto.
Qed.

Lemma sort_by_sorted (l : list A) :
  in_domain l -> StronglySorted key_le (sort_by key lt l).
Proof.
  intros Dl. induction l as [|x l IH]; simpl; [constructor|].
  apply List.Forall_cons_iff in Dl as [Dx Dl].
  apply insert_by_sorted; [assumption | | apply IH; assumption].
  apply (Permutation_Forall (x := l)); [symmetry; apply sort_by_perm | assumption].
Qed.

(** Two sorted arrangements of the same elements are the same list, when
    elements that do not come after one another are equal. *)
Lemma sorted_perm_unique (l1 l2 : list A) :
  (forall x y, In x l1 -> In y l1 -> key_le x y -> key_le y x -> x = y) ->
  StronglySorted key_le l1 -> StronglySorted key_le l2 ->
  Permutation l1 l2 -> l1 = l2.
Proof.
  intros Hanti Hs1. revert l2. induction Hs1 as [|x l1 Hs1 IH Hx]; intros l2 Hs2 Hp.
  - apply Permutation_nil in Hp. congruence.
  - destruct Hs2 as [|y l2 Hs2 Hy].
    + symmetry in Hp. apply Permutation_nil in Hp. discriminate.
    + assert (Hxy : x = y).
      { assert (Hin1 : In x (y :: l2)) by (eapply Permutation_in; [exact Hp | left; reflexivity]).
        assert (Hin2 : In y (x :: l1))
          by (eapply Permutation_in; [symmetry; exact Hp | left; reflexivity]).
        destruct Hin1 as [->|Hin1]; [reflexivity|].
        destruct Hin2 as [->|Hin2]; [reflexivity|].
        rewrite List.Forall_forall in Hx, Hy.
        apply Hanti; [left; reflexivity | right; assumption | auto | auto]. }
      subst y. f_equal. apply IH; [| assumption |].
      * intros a b Ha Hb. apply Hanti; right; assumption.
      * eapply Permutation_cons_inv. exact Hp.
Qed.

End Facts.
End SortFacts.

(** ** Paths and their string form *)

Module PathFacts.
Import UriSpec.

Lemma split_on_no_sep (sep : codepoint) (x : str) :
  ~ In sep x -> split_on sep x = [x].
Proof.
  induction x as [|c x IH]; intros Hnot; simpl; [reflexivity|].
  destruct (N.eqb_spec c sep) as [->|Hne].
  - exfalso. apply Hnot. left. reflexivity.
  - rewrite IH; [reflexivity|]. intros Hin. apply Hnot. right. assumption.
Qed.

Lemma split_on_app (sep : codepoint) (x s : str) :
  ~ In sep x -> split_on sep (x ++ sep :: s) = x :: split_on sep s.
Proof.
  induction x as [|c x IH]; intros Hnot; simpl.
  - rewrite N.eqb_refl. reflexivity.
  - destruct (N.eqb_spec c sep) as [->|Hne].
    + exfalso. apply Hnot. left. reflexivity.
    + rewrite IH; [reflexivity|]. intros Hin. apply Hnot. right. assumption.
Qed.

Lemma split_join (ns : list str) :
  ns <> [] -> List.Forall (fun n => ~ In slash n) ns ->
  split_on slash (join [slash] ns) = ns.
Proof.
  induction ns as [|n ns IH]; intros Hne Hns; [contradiction|].
  apply List.Forall_cons_iff in Hns as [Hn Hns].
  destruct ns as [|n' ns].
  - simpl. apply split_on_no_sep. assumption.
  - change (join [slash] (n :: n' :: ns)) with (n ++ slash :: join [slash] (n' :: ns)).
    rewrite split_on_app by assumption.
    rewrite IH; [reflexivity | discriminate | assumption].
Qed.

Lemma filter_kept (ns : list str) :
  List.Forall wf_name ns -> List.filter kept ns = ns.
Proof.
  induction 1 as [|n ns [Hk _] _ IH]; simpl; [reflexivity|].
  rewrite Hk, IH. reflexivity.
Qed.

Lemma wf_no_slash (ns : list str) :
  List.Forall wf_name ns -> List.Forall (fun n => ~ In slash n) ns.
Proof. apply List.Forall_impl. intros n [_ Hn]. exact Hn. Qed.

Lemma names_of_join (ns : list str) :
  List.Forall wf_name ns -> ns <> [] ->
  List.filter kept (split_on slash (join [slash] ns)) = ns.
Proof.
  intros Hwf Hne. rewrite split_join; [apply filter_kept; assumption | assumption |].
  apply wf_no_slash. assumption.
Qed.

Lemma join_first_char (n : str) (ns : list str) :
  wf_name n -> exists c rest, join [slash] (n :: ns) = c :: rest /\ c <> slash.
Proof.
  intros [Hk Hn]. destruct n as [|c n]; [discriminate Hk|].
  exists c. destruct ns as [|n' ns]; simpl; eexists; (split; [reflexivity|]);
    intros ->; apply Hn; left; reflexivity.
Qed.

(** Parsing the string form of a well-formed path gives the path back. *)
Lemma Path_of_str_as_posix (p : Path) :
  wf_path p -> Path_of_str (as_posix p) = p.
Proof.
  destruct p as [a ns]. unfold wf_path, as_posix, Path_of_str. simpl names. simpl anchored.
  intros Hwf. destruct a.
  - change (lit "/") with [slash]. simpl app. f_equal.
    + simpl. destruct (join [slash] ns); reflexivity.
    + change (split_on slash (slash :: join [slash] ns))
        with ([] :: split_on slash (join [slash] ns)).
      change (List.filter kept ([] :: ?l)) with (List.filter kept l).
      destruct ns as [|n ns]; [reflexivity|].
      apply names_of_join; [assumption | discriminate].
  - destruct ns as [|n ns]; [reflexivity|].
    change (lit "/") with [slash].
    rewrite names_of_join by (assumption || discriminate).
    f_equal. apply List.Forall_cons_iff in Hwf as [Hn _].
    destruct (join_first_char n ns Hn) as (c & rest & -> & Hc).
    change (startswith (c :: rest) [slash]) with ((slash =? c)%N && startswith rest []).
    destruct (N.eqb_spec slash c) as [<-|]; [contradiction | reflexivity].
Qed.

Lemma as_posix_inj (p q : Path) :
  wf_path p -> wf_path q -> as_posix p = as_posix q -> p = q.
Proof.
  intros Hp Hq Heq. rewrite <- (Path_of_str_as_posix p), <- (Path_of_str_as_posix q)
    by assumption. rewrite Heq. reflexivity.
Qed.

Lemma strip_prefix_app (pre l rest : list str) :
  strip_prefix pre l = Some rest -> l = pre ++ rest.
Proof.
  revert l. induction pre as [|x pre IH]; intros l; simpl.
  - intros [= ->]. reflexivity.
  - destruct l as [|y l]; [discriminate|].
    destruct (str_eqb x y) eqn:Hxy; [|discriminate].
    apply StrFacts.str_eqb_eq in Hxy as ->.
    intros Hs. rewrite (IH l Hs). reflexivity.
Qed.

(** A path under [root] is [root] joined with its relative part. *)
Lemma relative_to_joinpath (p root rel : Path) :
  relative_to p root = Ret rel -> joinpath root rel = p /\ anchored rel = false.
Proof.
  unfold relative_to. destruct (Bool.eqb (anchored p) (anchored root)) eqn:Ha; [|discriminate].
  destruct (strip_prefix (names root) (names p)) as [rest|] eqn:Hs; [|discriminate].
  intros [= <-]. unfold joinpath. simpl. split; [|reflexivity].
  apply strip_prefix_app in Hs. apply Bool.eqb_prop in Ha.
  destruct p as [a ns]. simpl in *. subst. reflexivity.
Qed.

Lemma relative_to_wf (p root rel : Path) :
  wf_path p -> relative_to p root = Ret rel -> wf_path rel.
Proof.
  intros Hwf Hrel. apply relative_to_joinpath in Hrel as [<- Ha].
  unfold wf_path, joinpath in *. rewrite Ha in Hwf. simpl in Hwf.
  apply List.Forall_app in Hwf as [_ Hwf]. exact Hwf.
Qed.

End PathFacts.

(** ** The walker *)

Module WalkerFacts.
Import WalkerSpec UriSpec.
Section Facts.
Context (w : World) (include_globs ignore_dirs : list str)
        (follow_symlinks : bool) (max_bytes : option Z).

Local Abbreviation accepts := (accepts w ignore_dirs follow_symlinks max_bytes).
Local Abbreviation scan_matches := (scan_matches w ignore_dirs follow_symlinks max_bytes).
Local Abbreviation scan_patterns := (scan_patterns w include_globs ignore_dirs follow_symlinks max_bytes).
Local Abbreviation scan := (scan w include_globs ignore_dirs follow_symlinks max_bytes).

Lemma ignored_iff (p : Path) :
  ignored ignore_dirs p = true <-> exists ig, In ig ignore_dirs /\ In ig (parts p).
Proof.
  unfold ignored. rewrite List.existsb_exists. split.
  - intros (ig & Hin & Hd). exists ig. split; [assumption|].
    apply bool_decide_eq_true in Hd. apply elem_of_list_to_set in Hd.
    apply list_elem_of_In. exact Hd.
  - intros (ig & Hin & Hp). exists ig. split; [assumption|].
    apply bool_decide_eq_true. apply elem_of_list_to_set. apply list_elem_of_In. exact Hp.
Qed.

Lemma accepts_not_ignored (p : Path) :
  accepts p = Ret true -> ignored ignore_dirs p = false.
Proof.
  unfold Registry.accepts. destruct (ignored ignore_dirs p); [discriminate | reflexivity].
Qed.

(** The inner loop appends, in order, some of the paths it is given, each
    of them accepted. *)
Lemma scan_matches_app (ps candidates : list Path) :
  exists kept, scan_matches ps candidates = candidates ++ kept
               /\ kept `sublist_of` ps
               /\ List.Forall (fun p => accepts p = Ret true) kept.
Proof.
  revert candidates. induction ps as [|p ps IH]; intros candidates; simpl.
  - exists []. rewrite app_nil_r. repeat split; constructor.
  - destruct (accepts p) as [[|]|e] eqn:Hacc.
    + destruct (IH (candidates ++ [p])) as (kept & -> & Hsub & Hall).
      exists (p :: kept). rewrite <- app_assoc. repeat split.
      * constructor. assumption.
      * constructor; assumption.
    + destruct (IH candidates) as (kept & -> & Hsub & Hall).
      exists kept. repeat split; [constructor|]; assumption.
    + exists []. rewrite app_nil_r. repeat split; [apply sublist_nil_l | constructor].
Qed.

Lemma fold_patterns_app (root : Path) (patterns : list str) (candidates : list Path) :
  exists kept,
    fold_left (fun cs pattern => scan_matches (fst (fs_glob w root pattern)) cs)
              patterns candidates
    = candidates ++ kept
    /\ kept `sublist_of` matches w patterns root
    /\ List.Forall (fun p => accepts p = Ret true) kept.
Proof.
  revert candidates. induction patterns as [|pattern patterns IH]; intros candidates; simpl.
  - exists []. rewrite app_nil_r. repeat split; constructor.
  - destruct (scan_matches_app (fst (fs_glob w root pattern)) candidates)
      as (k1 & -> & Hsub1 & Hall1).
    destruct (IH (candidates ++ k1)) as (k2 & -> & Hsub2 & Hall2).
    exists (k1 ++ k2). rewrite <- app_assoc. repeat split.
    + unfold matches. simpl. apply sublist_app; assumption.
    + apply List.Forall_app. split; assumption.
Qed.

Lemma scan_patterns_sublist (root : Path) :
  scan_patterns root `sublist_of` matches w include_globs root
  /\ List.Forall (fun p => accepts p = Ret true) (scan_patterns root).
Proof.
  unfold Registry.scan_patterns.
  destruct (fold_patterns_app root include_globs []) as (kept & -> & Hsub & Hall).
  split; assumption.
Qed.

Lemma scan_perm (root : Path) : Permutation (scan root) (scan_patterns root).
Proof. apply SortFacts.sort_by_perm. Qed.

(** Every path of the output was accepted and was yielded by a pattern. *)
Lemma scan_In (root p : Path) :
  In p (scan root) -> accepts p = Ret true /\ In p (matches w include_globs root).
Proof.
  intros Hin. apply (Permutation_in _ (scan_perm root)) in Hin.
  destruct (scan_patterns_sublist root) as (Hsub & Hall). split.
  - rewrite List.Forall_forall in Hall. apply Hall. assumption.
  - apply list_elem_of_In. eapply elem_of_sublist; [|exact Hsub].
    apply list_elem_of_In. assumption.
Qed.

Lemma scan_sorted (root : Path) : StronglySorted posix_le (scan root).
Proof.
  apply (SortFacts.sort_by_sorted as_posix str_ltb (fun _ => True)).
  - intros a b _ _. apply StrFacts.str_ltb_asym.
  - intros a b c _ _ _. apply StrFacts.str_ltb_negtrans.
  - apply List.Forall_forall. intros; exact I.
Qed.

Lemma scan_NoDup (root : Path) :
  NoDup (matches w include_globs root) -> NoDup (scan root).
Proof.
  intros Hnd. rewrite (scan_perm root).
  eapply sublist_NoDup; [exact Hnd|]. apply scan_patterns_sublist.
Qed.

End Facts.
End WalkerFacts.

(** C6: a path with a component equal to one of the ignored directory
    names is not in the output of the walker. *)
Theorem ignored_component_excluded (w : World) (include_globs ignore_dirs : list str)
    (follow_symlinks : bool) (max_bytes : option Z) (root p : Path) (ig : str) :
  In ig ignore_dirs ->
  In ig (parts p) ->
  ~ In p (scan w include_globs ignore_dirs follow_symlinks max_bytes root).
Proof.
  intros Hig Hpart Hin. apply WalkerFacts.scan_In in Hin as [Hacc _].
  apply WalkerFacts.accepts_not_ignored in Hacc.
  assert (Hyes : ignored ignore_dirs p = true)
    by (apply WalkerFacts.ignored_iff; exists ig; split; assumption).
  congruence.
Qed.

(** ** The walker on an unchanged file system *)

Module RerunFacts.
Import WalkerSpec UriSpec.

Lemma filter_perm {A} (f : A -> bool) (l l' : list A) :
  Permutation l l' -> Permutation (List.filter f l) (List.filter f l').
Proof.
  induction 1 as [|x l l' _ IH|x y l|l l' l'' _ IH1 _ IH2]; simpl.
  - reflexivity.
  - destruct (f x); [constructor|]; assumption.
  - destruct (f x), (f y); try reflexivity. apply perm_swap.
  - etransitivity; eassumption.
Qed.

Section Facts.
Context (w : World) (ignore_dirs : list str)
        (follow_symlinks : bool) (max_bytes : option Z).

Local Abbreviation accepts := (accepts w ignore_dirs follow_symlinks max_bytes).
Local Abbreviation scan_matches := (scan_matches w ignore_dirs follow_symlinks max_bytes).

Local Abbreviation accepted := (accepted w ignore_dirs follow_symlinks max_bytes).

Lemma scan_matches_filter (ps candidates : list Path) :
  List.Forall (fun p => returns (accepts p)) ps ->
  scan_matches ps candidates = candidates ++ List.filter accepted ps.
Proof.
  intros Hret. revert candidates.
  induction Hret as [|p ps [b Hb] _ IH]; intros candidates; simpl.
  - rewrite app_nil_r. reflexivity.
  - unfold accepted. rewrite Hb. destruct b.
    + rewrite IH, <- app_assoc. reflexivity.
    + apply IH.
Qed.

Lemma fold_patterns_filter (root : Path) (patterns : list str) (candidates : list Path) :
  List.Forall (fun p => returns (accepts p)) (matches w patterns root) ->
  fold_left (fun cs pattern => scan_matches (fst (fs_glob w root pattern)) cs)
            patterns candidates
  = candidates
    ++ List.concat (List.map (fun pattern => List.filter accepted (fst (fs_glob w root pattern)))
                             patterns).
Proof.
  revert candidates. induction patterns as [|pattern patterns IH]; intros candidates Hret; simpl.
  - rewrite app_nil_r. reflexivity.
  - unfold matches in Hret. simpl in Hret. apply List.Forall_app in Hret as [H1 H2].
    rewrite scan_matches_filter by assumption.
    rewrite IH by assumption. rewrite <- app_assoc. reflexivity.
Qed.

End Facts.

Section Rerun.
Context (w w' : World) (include_globs ignore_dirs : list str)
        (follow_symlinks : bool) (max_bytes : option Z) (root : Path).
Hypothesis same : unchanged w w' include_globs root.

Lemma accepts_unchanged (p : Path) :
  Registry.accepts w' ignore_dirs follow_symlinks max_bytes p
  = Registry.accepts w ignore_dirs follow_symlinks max_bytes p.
Proof.
  destruct same as [Hsym Hex Hisf Hstat _]. unfold Registry.accepts.
  rewrite Hsym, Hex, Hisf, Hstat. reflexivity.
Qed.

Lemma accepted_unchanged (p : Path) :
  accepted w' ignore_dirs follow_symlinks max_bytes p
  = accepted w ignore_dirs follow_symlinks max_bytes p.
Proof. unfold accepted. rewrite accepts_unchanged. reflexivity. Qed.

Lemma matches_perm (patterns : list str) :
  (forall pattern, In pattern patterns -> In pattern include_globs) ->
  Permutation (matches w patterns root) (matches w' patterns root).
Proof.
  destruct same as [_ _ _ _ Hglob]. unfold matches.
  induction patterns as [|pattern patterns IH]; intros Hsub; simpl; [reflexivity|].
  apply Permutation_app.
  - apply Hglob, Hsub. left. reflexivity.
  - apply IH. intros q Hq. apply Hsub. right. assumption.
Qed.

Lemma kept_perm (patterns : list str) :
  (forall pattern, In pattern patterns -> In pattern include_globs) ->
  Permutation
    (List.concat (List.map (fun pattern =>
        List.filter (accepted w ignore_dirs follow_symlinks max_bytes)
                    (fst (fs_glob w root pattern))) patterns))
    (List.concat (List.map (fun pattern =>
        List.filter (accepted w' ignore_dirs follow_symlinks max_bytes)
                    (fst (fs_glob w' root pattern))) patterns)).
Proof.
  destruct same as [_ _ _ _ Hglob].
  induction patterns as [|pattern patterns IH]; intros Hsub; simpl; [reflexivity|].
  apply Permutation_app.
  - rewrite (List.filter_ext _ _ accepted_unchanged).
    apply filter_perm. apply Hglob, Hsub. left. reflexivity.
  - apply IH. intros q Hq. apply Hsub. right. assumption.
Qed.

(** The candidates of the two runs are the same up to their order, when
    no path test raises. *)
Lemma scan_patterns_perm :
  List.Forall (fun p => returns (Registry.accepts w ignore_dirs follow_symlinks max_bytes p))
              (matches w include_globs root) ->
  Permutation (scan_patterns w include_globs ignore_dirs follow_symlinks max_bytes root)
              (scan_patterns w' include_globs ignore_dirs follow_symlinks max_bytes root).
Proof.
  intros Hret. unfold scan_patterns.
  rewrite (fold_patterns_filter w) by assumption.
  rewrite (fold_patterns_filter w').
  - simpl. apply kept_perm. auto.
  - apply (Permutation_Forall (x := matches w include_globs root)).
    + apply matches_perm. auto.
    + revert Hret. apply List.Forall_impl. intros p Hp.
      rewrite accepts_unchanged. exact Hp.
Qed.

(** The second run gives the same sequence. *)
Lemma scan_unchanged :
  List.Forall (fun p => wf_path p
                 /\ returns (Registry.accepts w ignore_dirs follow_symlinks max_bytes p))
              (matches w include_globs root) ->
  scan w' include_globs ignore_dirs follow_symlinks max_bytes root
  = scan w include_globs ignore_dirs follow_symlinks max_bytes root.
Proof.
  intros Hall.
  assert (Hret : List.Forall
            (fun p => returns (Registry.accepts w ignore_dirs follow_symlinks max_bytes p))
            (matches w include_globs root))
    by (revert Hall; apply List.Forall_impl; tauto).
  symmetry. apply (SortFacts.sorted_perm_unique as_posix str_ltb).
  - intros x y Hx Hy Hxy Hyx.
    apply (WalkerFacts.scan_In w) in Hx as [_ Hx], Hy as [_ Hy].
    rewrite List.Forall_forall in Hall.
    apply PathFacts.as_posix_inj; [apply Hall, Hx | apply Hall, Hy |].
    apply StrFacts.str_ltb_antisym; assumption.
  - apply WalkerFacts.scan_sorted.
  - apply WalkerFacts.scan_sorted.
  - unfold scan. rewrite !SortFacts.sort_by_perm. apply scan_patterns_perm. assumption.
Qed.

(** The loop over the matches of one pattern runs as before. *)
Lemma scan_matches_unchanged (ps candidates : list Path) :
  scan_matches w' ignore_dirs follow_symlinks max_bytes ps candidates
  = scan_matches w ignore_dirs follow_symlinks max_bytes ps candidates.
Proof.
  revert candidates. induction ps as [|p ps IH]; intros candidates; simpl; [reflexivity|].
  rewrite accepts_unchanged.
  destruct (Registry.accepts w ignore_dirs follow_symlinks max_bytes p) as [[|]|e];
    [apply IH | apply IH | reflexivity].
Qed.

Lemma fold_patterns_same_order (patterns : list str) (candidates : list Path) :
  (forall pattern, In pattern patterns ->
     fst (fs_glob w' root pattern) = fst (fs_glob w root pattern)) ->
  fold_left (fun cs pattern =>
               scan_matches w' ignore_dirs follow_symlinks max_bytes
                 (fst (fs_glob w' root pattern)) cs) patterns candidates
  = fold_left (fun cs pattern =>
                 scan_matches w ignore_dirs follow_symlinks max_bytes
                   (fst (fs_glob w root pattern)) cs) patterns candidates.
Proof.
  revert candidates. induction patterns as [|pattern patterns IH]; intros candidates Hsame;
    simpl; [reflexivity|].
  rewrite (Hsame pattern) by (left; reflexivity). rewrite scan_matches_unchanged.
  apply IH. intros q Hq. apply Hsame. right. exact Hq.
Qed.

(** When every pattern yields its paths in the order of the first run,
    the second run gives the same sequence, whatever the path tests do. *)
Lemma scan_same_order :
  (forall pattern, In pattern include_globs ->
     fst (fs_glob w' root pattern) = fst (fs_glob w root pattern)) ->
  scan w' include_globs ignore_dirs follow_symlinks max_bytes root
  = scan w include_globs ignore_dirs follow_symlinks max_bytes root.
Proof.
  intros Hsame. unfold scan, scan_patterns.
  rewrite (fold_patterns_same_order include_globs [] Hsame). reflexivity.
Qed.

End Rerun.
End RerunFacts.

(** C3 (as the code has it): the output of the walker is in
    non-decreasing order of the paths' forward-slash string form.  A
    second run over the unchanged file system gives the same sequence
    when no path test raises on a yielded path and the yielded paths are
    in normal form, in whatever order the patterns yield them; and it
    gives the same sequence without any such proviso when every pattern
    yields its paths in the order of the first run.  The output has no
    path twice provided the include patterns yield no path twice (a path
    yielded by two patterns is listed twice). *)
Theorem walker_sorted_repeatable (w : World) (include_globs ignore_dirs : list str)
    (follow_symlinks : bool) (max_bytes : option Z) (root : Path) :
  StronglySorted WalkerSpec.posix_le
    (scan w include_globs ignore_dirs follow_symlinks max_bytes root)
  /\ (forall w',
        WalkerSpec.unchanged w w' include_globs root ->
        List.Forall (fun p => UriSpec.wf_path p
                       /\ returns (accepts w ignore_dirs follow_symlinks max_bytes p))
                    (WalkerSpec.matches w include_globs root) ->
        scan w' include_globs ignore_dirs follow_symlinks max_bytes root
        = scan w include_globs ignore_dirs follow_symlinks max_bytes root)
  /\ (NoDup (WalkerSpec.matches w include_globs root) ->
      NoDup (scan w include_globs ignore_dirs follow_symlinks max_bytes root))
  /\ (forall w',
        WalkerSpec.unchanged w w' include_globs root ->
        (forall pattern, In pattern include_globs ->
           fst (fs_glob w' root pattern) = fst (fs_glob w root pattern)) ->
        scan w' include_globs ignore_dirs follow_symlinks max_bytes root
        = scan w include_globs ignore_dirs follow_symlinks max_bytes root).
Proof.
  split; [apply WalkerFacts.scan_sorted | split; [|split]].
  - intros w' Hsame Hall. apply RerunFacts.scan_unchanged; assumption.
  - apply WalkerFacts.scan_NoDup.
  - intros w' Hsame Horder. apply RerunFacts.scan_same_order; assumption.
Qed.

(** Why the second run needs the proviso: a path test that raises ends
    the loop over the matches of its pattern, so what the walker returns
    depends on the order in which the pattern yields.  In a workspace
    where [is_file] raises on [locked/secret.pdf], yielded between the
    report and the draft, one run returns the report alone, and a run
    that is yielded the same paths in the opposite order the draft
    alone. *)
Lemma rerun_after_raise_differs :
  WalkerSpec.unchanged DemoBroken.broken_world DemoRerun.second_run
    default_include_globs Demo.root
  /\ scan DemoBroken.broken_world default_include_globs default_ignore_dirs false None
       Demo.root = [Demo.report]
  /\ scan DemoRerun.second_run default_include_globs default_ignore_dirs false None
       Demo.root = [Demo.draft].
Proof.
  split; [|split; vm_compute; reflexivity].
  constructor; try reflexivity.
  intros pattern [<-|[]].
  change (Permutation [Demo.report; DemoBroken.broken; Demo.draft]
                      [Demo.draft; DemoBroken.broken; Demo.report]).
  etransitivity; [apply perm_swap|]. etransitivity; [apply perm_skip, perm_swap|].
  apply perm_swap.
Qed.

(** C3 as stated fails: with the include patterns [**/*.pdf] and [*.pdf]
    the file [a.pdf] of the workspace root is listed twice. *)
Lemma walker_lists_a_file_twice :
  scan Demo.overlap_world [lit "**/*.pdf"; lit "*.pdf"] default_ignore_dirs false None Demo.root
  = [Demo.top; Demo.top]
  /\ ~ NoDup (scan Demo.overlap_world [lit "**/*.pdf"; lit "*.pdf"]
                   default_ignore_dirs false None Demo.root).
Proof.
  assert (Hscan : scan Demo.overlap_world [lit "**/*.pdf"; lit "*.pdf"]
                       default_ignore_dirs false None Demo.root = [Demo.top; Demo.top])
    by (vm_compute; reflexivity).
  split; [exact Hscan|]. rewrite Hscan. intros Hnd.
  apply NoDup_cons in Hnd as [Hnot _]. apply Hnot. left.
Qed.

Lemma ignored_component_excluded_witness :
  In (lit ".git") default_ignore_dirs
  /\ In (lit ".git") (parts Demo.hidden)
  /\ ~ In Demo.hidden
       (scan Demo.vcs_world default_include_globs default_ignore_dirs false None Demo.root)
  /\ scan Demo.vcs_world default_include_globs default_ignore_dirs false None Demo.root
     = [Demo.report].
Proof.
  assert (H1 : In (lit ".git") default_ignore_dirs) by (left; reflexivity).
  assert (H2 : In (lit ".git") (parts Demo.hidden)) by (right; right; left; reflexivity).
  split; [exact H1|]. split; [exact H2|]. split.
  - exact (ignored_component_excluded Demo.vcs_world default_include_globs
             default_ignore_dirs false None Demo.root Demo.hidden (lit ".git") H1 H2).
  - vm_compute. reflexivity.
Defined.

Lemma demo_paths_wf :
  UriSpec.wf_path Demo.report /\ UriSpec.wf_path Demo.draft.
Proof.
  split; repeat constructor; vm_compute; intuition discriminate.
Qed.

Lemma demo_unchanged :
  WalkerSpec.unchanged Demo.docs_world Demo.docs_world_rev default_include_globs Demo.root.
Proof.
  constructor; try reflexivity.
  intros pattern [<-|[]]. vm_compute. apply perm_swap.
Qed.

Lemma walker_sorted_repeatable_witness :
  scan Demo.docs_world_rev default_include_globs default_ignore_dirs false None Demo.root
  = scan Demo.docs_world default_include_globs default_ignore_dirs false None Demo.root
  /\ NoDup (scan Demo.docs_world default_include_globs default_ignore_dirs false None Demo.root)
  /\ scan Demo.docs_world default_include_globs default_ignore_dirs false None Demo.root
     = [Demo.report; Demo.draft].
Proof.
  destruct (walker_sorted_repeatable Demo.docs_world default_include_globs
              default_ignore_dirs false None Demo.root) as (_ & Hrerun & Hnodup & _).
  split; [|split].
  - apply Hrerun; [exact demo_unchanged|].
    destruct demo_paths_wf as [Hr Hd].
    change (WalkerSpec.matches Demo.docs_world default_include_globs Demo.root)
      with [Demo.report; Demo.draft].
    constructor; [split; [exact Hr | eexists; vm_compute; reflexivity]|].
    constructor; [split; [exact Hd | eexists; vm_compute; reflexivity]|].
    constructor.
  - apply Hnodup. apply (bool_decide_unpack _). vm_compute. exact I.
  - vm_compute. reflexivity.
Defined.

(** ** Percent-encoding and UTF-8 *)

Module QuoteFacts.
Import UriSpec.

(** Linear arithmetic with division and remainder by constants. *)
Ltac dlia := zify; Z.to_euclidean_division_equations; lia.

Ltac ntest :=
  repeat match goal with
    | |- context [(?a <? ?b)%N] => destruct (N.ltb_spec a b); try dlia
    | |- context [(?a <=? ?b)%N] => destruct (N.leb_spec a b); try dlia
    | |- context [(?a =? ?b)%N] => destruct (N.eqb_spec a b); try dlia
    end.

Lemma hex_value_digit (n : N) : (n < 16)%N -> hex_value (hex_digit n) = Some n.
Proof.
  intros Hn. unfold hex_digit, hex_value.
  destruct (N.ltb_spec n 10).
  - ntest; simpl; f_equal; dlia.
  - ntest; simpl; f_equal; dlia.
Qed.

(** A character other than [%] stands for itself. *)
Lemma unquote_literal (c : codepoint) (s : str) :
  c <> 37%N -> unquote_to_bytes (c :: s) = c :: unquote_to_bytes s.
Proof.
  intros Hc. simpl. destruct (N.eqb_spec c 37); [contradiction|].
  destruct s as [|h [|l rest]]; reflexivity.
Qed.

Lemma unquote_escape (b : N) (s : str) :
  (b < 256)%N ->
  unquote_to_bytes (37%N :: hex_digit (b / 16) :: hex_digit (b mod 16) :: s)
  = b :: unquote_to_bytes s.
Proof.
  intros Hb.
  change (unquote_to_bytes (37%N :: ?h :: ?l :: s))
    with (match hex_value h, hex_value l with
          | Some a, Some b => (16 * a + b)%N :: unquote_to_bytes s
          | _, _ => 37%N :: unquote_to_bytes (h :: l :: s)
          end).
  rewrite !hex_value_digit by (try apply N.mod_lt; try apply N.Div0.div_lt_upper_bound; lia).
  f_equal. symmetry. apply N.Div0.div_mod.
Qed.

Lemma safe_not_percent (b : N) :
  always_safe b || existsb (N.eqb b) (List.filter (fun c => c <? 128)%N (lit "/")) = true ->
  b <> 37%N.
Proof. intros Hs ->. vm_compute in Hs. discriminate. Qed.

(** Decoding the percent-encoding of bytes gives the bytes. *)
Lemma unquote_quote_bytes (bs : bytes) :
  List.Forall (fun b => (b < 256)%N) bs ->
  unquote_to_bytes (quote_from_bytes bs (lit "/")) = bs.
Proof.
  unfold quote_from_bytes. induction 1 as [|b bs Hb _ IH]; [reflexivity|].
  simpl List.map. simpl List.concat. unfold quote_byte at 1.
  destruct (always_safe b || _) eqn:Hsafe.
  - simpl app. rewrite unquote_literal by (apply safe_not_percent; assumption).
    rewrite IH. reflexivity.
  - simpl app. rewrite unquote_escape by assumption. rewrite IH. reflexivity.
Qed.

Ltac all_bytes := repeat (apply List.Forall_cons; [dlia|]); apply List.Forall_nil.

Lemma utf8_encode_cp_bytes (c : codepoint) (bs : bytes) :
  utf8_encode_cp c = Some bs -> List.Forall (fun b => (b < 256)%N) bs.
Proof.
  unfold utf8_encode_cp.
  destruct (N.ltb_spec c 128); [intros [= <-]; all_bytes|].
  destruct (N.ltb_spec c 2048); [intros [= <-]; all_bytes|].
  destruct (N.ltb_spec c 65536).
  { destruct ((55296 <=? c) && (c <? 57344))%N; [discriminate|].
    intros [= <-]; all_bytes. }
  destruct (N.ltb_spec c 1114112); [|discriminate].
  intros [= <-]; all_bytes.
Qed.

Lemma utf8_encode_bytes (s : str) (bs : bytes) :
  utf8_encode s = Ret bs -> List.Forall (fun b => (b < 256)%N) bs.
Proof.
  revert bs. induction s as [|c s IH]; intros bs; simpl.
  - intros [= <-]. constructor.
  - destruct (utf8_encode_cp c) as [b1|] eqn:Hc; [|discriminate].
    destruct (utf8_encode s) as [rest|e]; [|discriminate].
    rewrite bind_Ret. intros [= <-]. apply List.Forall_app. split.
    + eapply utf8_encode_cp_bytes. exact Hc.
    + apply IH. reflexivity.
Qed.

(** The decoder reads the encoding of one code point and goes on. *)
Lemma utf8_decode_cp (c : codepoint) (bs rest : bytes) :
  utf8_encode_cp c = Some bs ->
  utf8_decode (bs ++ rest) = cons c <$> utf8_decode rest.
Proof.
  unfold utf8_encode_cp.
  destruct (N.ltb_spec c 128).
  { intros [= <-]. simpl. destruct (N.ltb_spec c 128); [reflexivity | lia]. }
  destruct (N.ltb_spec c 2048).
  { intros [= <-]. simpl app. cbv beta iota delta [utf8_decode is_cont]. fold utf8_decode.
    ntest. simpl andb. cbv iota.
    replace ((192 + c / 64 - 192) * 64 + (128 + c mod 64 - 128))%N with c by dlia.
    reflexivity. }
  destruct (N.ltb_spec c 65536).
  { destruct (N.leb_spec 55296 c); destruct (N.ltb_spec c 57344); simpl andb; cbv iota;
      try discriminate.
    all: intros [= <-]; simpl app;
      cbv beta iota zeta delta [utf8_decode is_cont]; fold utf8_decode.
    all: replace ((224 + c / 4096 - 224) * 4096 + (128 + (c / 64) mod 64 - 128) * 64
                  + (128 + c mod 64 - 128))%N with c by dlia.
    all: ntest; simpl andb; simpl negb; cbv iota; reflexivity. }
  destruct (N.ltb_spec c 1114112); [|discriminate].
  intros [= <-]. simpl app.
  cbv beta iota zeta delta [utf8_decode is_cont]. fold utf8_decode.
  replace ((240 + c / 262144 - 240) * 262144 + (128 + (c / 4096) mod 64 - 128) * 4096
           + (128 + (c / 64) mod 64 - 128) * 64 + (128 + c mod 64 - 128))%N
    with c by dlia.
  ntest; simpl andb; cbv iota; reflexivity.
Qed.

Lemma utf8_decode_encode (s : str) (bs : bytes) :
  utf8_encode s = Ret bs -> utf8_decode bs = Some s.
Proof.
  revert bs. induction s as [|c s IH]; intros bs; simpl.
  - intros [= <-]. reflexivity.
  - destruct (utf8_encode_cp c) as [b1|] eqn:Hc; [|discriminate].
    destruct (utf8_encode s) as [rest|e]; [|discriminate].
    rewrite bind_Ret. intros [= <-].
    rewrite (utf8_decode_cp c b1 rest Hc), (IH rest eq_refl). reflexivity.
Qed.

(** Percent-decoding what [quote] returns gives the string back. *)
Lemma unquote_quote (s q : str) :
  quote s (lit "/") = Ret q -> unquote q = Some s.
Proof.
  unfold quote, unquote. destruct s as [|c s]; [intros [= <-]; reflexivity|].
  destruct (utf8_encode (c :: s)) as [bs|e] eqn:Henc; [|discriminate].
  rewrite bind_Ret. intros [= <-].
  rewrite unquote_quote_bytes by (eapply utf8_encode_bytes; exact Henc).
  apply utf8_decode_encode. assumption.
Qed.

End QuoteFacts.

(** ** The index and its URIs *)

Module IndexFacts.
Import UriSpec.

Lemma dict_set_In (d : Index) (k : str) (v : Meta) (k' : str) (v' : Meta) :
  In (k', v') (dict_set d k v) -> (k', v') = (k, v) \/ In (k', v') d.
Proof.
  induction d as [|[k0 v0] d IH]; simpl.
  - intros [H|[]]. left. symmetry. exact H.
  - destruct (str_eqb k0 k) eqn:Hk.
    + apply StrFacts.str_eqb_eq in Hk as ->.
      intros [H|H]; [left; symmetry; exact H | right; right; exact H].
    + intros [H|H]; [right; left; exact H|].
      destruct (IH H) as [H'|H']; [left; exact H' | right; right; exact H'].
Qed.

Lemma dict_set_keys (d : Index) (k : str) (v : Meta) :
  NoDup (List.map fst d) -> NoDup (List.map fst (dict_set d k v)).
Proof.
  induction d as [|[k0 v0] d IH]; simpl; intros Hnd.
  - apply NoDup_singleton.
  - destruct (str_eqb k0 k) eqn:Hk; [exact Hnd|].
    apply NoDup_cons in Hnd as [Hnot Hnd]. simpl. apply NoDup_cons. split.
    + intros Hin. apply list_elem_of_In, List.in_map_iff in Hin as [[k1 v1] [Hfst Hin]].
      simpl in Hfst. subst k1. apply dict_set_In in Hin as [[= -> _]|Hin].
      * apply StrFacts.str_eqb_neq in Hk. contradiction.
      * apply Hnot, list_elem_of_In, List.in_map_iff. exists (k0, v1). split; [reflexivity|exact Hin].
    + apply IH. exact Hnd.
Qed.

Section Facts.
Context (w : World).

(** What the registration loop stores for a file that goes through. *)
Lemma register_body_entry (root p : Path) (index index' : Index) :
  register_body w root p index = Ret index' ->
  exists uri meta,
    index' = dict_set index uri meta
    /\ file_uri root p = Ret uri
    /\ meta_path meta = as_posix p
    /\ (exists rel, relative_to p root = Ret rel /\ meta_name meta = as_posix rel).
Proof.
  unfold register_body, file_uri.
  destruct (relative_to p root) as [rel|e]; [|discriminate]. rewrite !bind_Ret.
  destruct (quote (as_posix rel) (lit "/")) as [q|e]; [|discriminate]. rewrite !bind_Ret.
  destruct (fs_stat w p) as [st|e]; [|discriminate]. rewrite !bind_Ret.
  destruct (datetime_timestamp w (st_mtime st)) as [mtime|e]; [|discriminate].
  rewrite !bind_Ret.
  destruct (mcp_resource w _ _ _ _) as [[]|e]; [|discriminate]. rewrite !bind_Ret.
  intros [= <-]. do 2 eexists. split; [reflexivity|]. split; [reflexivity|].
  split; [reflexivity|]. exists rel. split; reflexivity.
Qed.

Lemma register_loop_In (root : Path) (ps : list Path) (index : Index) (uri : str) (meta : Meta) :
  In (uri, meta) (fold_left (register_one w root) ps index) ->
  In (uri, meta) index
  \/ exists p, In p ps /\ file_uri root p = Ret uri /\ meta_path meta = as_posix p.
Proof.
  revert index. induction ps as [|p ps IH]; intros index; simpl; [auto|].
  intros Hin. apply IH in Hin as [Hin|(q & Hq & Huri & Hpath)].
  - unfold register_one in Hin.
    destruct (register_body w root p index) as [index'|e] eqn:Hbody; [|auto].
    apply register_body_entry in Hbody as (uri' & meta' & -> & Huri & Hpath & _).
    apply dict_set_In in Hin as [[= -> ->]|Hin]; [|auto].
    right. exists p. split; [left; reflexivity | split; assumption].
  - right. exists q. split; [right; assumption | split; assumption].
Qed.

Lemma register_loop_keys (root : Path) (ps : list Path) (index : Index) :
  NoDup (List.map fst index) ->
  NoDup (List.map fst (fold_left (register_one w root) ps index)).
Proof.
  revert index. induction ps as [|p ps IH]; intros index Hnd; simpl; [exact Hnd|].
  apply IH. unfold register_one.
  destruct (register_body w root p index) as [index'|e] eqn:Hbody; [|exact Hnd].
  apply register_body_entry in Hbody as (uri & meta & -> & _).
  apply dict_set_keys. exact Hnd.
Qed.

End Facts.

Lemma uri_to_path_scheme (root : Path) (q : str) :
  uri_to_path root (scheme ++ q)
  = (rel ← unquote q; Some (joinpath root (Path_of_str rel))).
Proof.
  unfold uri_to_path.
  replace (startswith (scheme ++ q) scheme) with true
    by (destruct q; vm_compute; reflexivity).
  replace (skipn (List.length scheme) (scheme ++ q)) with q by (vm_compute; reflexivity).
  reflexivity.
Qed.

(** Resolving the URI of a file under [root] gives the file. *)
Lemma file_uri_resolves (root p : Path) (uri : str) :
  wf_path p -> file_uri root p = Ret uri -> uri_to_path root uri = Some p.
Proof.
  intros Hwf. unfold file_uri.
  destruct (relative_to p root) as [rel|e] eqn:Hrel; [|discriminate]. rewrite bind_Ret.
  destruct (quote (as_posix rel) (lit "/")) as [q|e] eqn:Hq; [|discriminate].
  rewrite bind_Ret. intros Heq.
  assert (Huri : uri = scheme ++ q) by (unfold scheme; congruence).
  rewrite Huri, uri_to_path_scheme.
  rewrite (QuoteFacts.unquote_quote _ _ Hq). simpl.
  rewrite PathFacts.Path_of_str_as_posix by (eapply PathFacts.relative_to_wf; eassumption).
  apply PathFacts.relative_to_joinpath in Hrel as [-> _]. reflexivity.
Qed.

End IndexFacts.

(** C7: every entry of the index built by a registration has the URI of
    a file of the walk, and resolving that URI (percent-decoding it and
    joining the result to the workspace root) gives the path of that
    file. *)
Theorem uri_round_trip (w : World) (include_globs ignore_dirs : list str)
    (follow_symlinks : bool) (max_bytes : option Z)
    (workspace : str) (root : Path) (index : Index) (uri : str) (meta : Meta) :
  fs_expanduser w (Path_of_str workspace) ≫= fs_resolve w = Ret root ->
  List.Forall UriSpec.wf_path (WalkerSpec.matches w include_globs root) ->
  register_file_resources w include_globs ignore_dirs follow_symlinks max_bytes workspace
  = Ret index ->
  In (uri, meta) index ->
  exists p,
    In p (scan w include_globs ignore_dirs follow_symlinks max_bytes root)
    /\ meta_path meta = as_posix p
    /\ file_uri root p = Ret uri
    /\ UriSpec.uri_to_path root uri = Some p.
Proof.
  intros Hroot Hwf Hreg Hin. unfold register_file_resources in Hreg.
  rewrite Hroot, bind_Ret in Hreg.
  destruct (fs_exists w root) as [ex|e]; [|discriminate]. rewrite bind_Ret in Hreg.
  destruct (if ex then fs_is_dir w root else Ret false) as [isd|e]; [|discriminate].
  rewrite bind_Ret in Hreg.
  destruct (negb ex || negb isd); [discriminate|]. injection Hreg as <-.
  apply IndexFacts.register_loop_In in Hin as [[]|(p & Hp & Huri & Hpath)].
  exists p. repeat split; try assumption.
  apply IndexFacts.file_uri_resolves; [|assumption].
  apply WalkerFacts.scan_In in Hp as [_ Hp].
  rewrite List.Forall_forall in Hwf. apply Hwf. exact Hp.
Qed.

Lemma uri_round_trip_witness :
  exists index,
    register_file_resources Demo.docs_world default_include_globs default_ignore_dirs
      false None (lit "/ws") = Ret index
    /\ (exists meta, In (lit "workspace://docs/report%201.pdf", meta) index)
    /\ UriSpec.uri_to_path Demo.root (lit "workspace://docs/report%201.pdf")
       = Some Demo.report.
Proof.
  destruct (register_file_resources Demo.docs_world default_include_globs
              default_ignore_dirs false None (lit "/ws")) as [index|e] eqn:Hreg;
    [|vm_compute in Hreg; discriminate].
  exists index. split; [reflexivity|].
  assert (Hin : exists meta, In (lit "workspace://docs/report%201.pdf", meta) index).
  { vm_compute in Hreg. injection Hreg as <-. eexists. left. reflexivity. }
  split; [exact Hin|]. destruct Hin as [meta Hin].
  assert (Hwf : List.Forall UriSpec.wf_path
                  (WalkerSpec.matches Demo.docs_world default_include_globs Demo.root)).
  { destruct demo_paths_wf as [Hr Hd]. repeat (apply List.Forall_cons; [assumption|]).
    apply List.Forall_nil. }
  destruct (uri_round_trip Demo.docs_world default_include_globs default_ignore_dirs
              false None (lit "/ws") Demo.root index _ meta eq_refl Hwf Hreg Hin)
    as (p & _ & _ & _ & Hres).
  rewrite Hres. f_equal. vm_compute in Hres. injection Hres as <-. reflexivity.
Defined.

(** ** The order of the sort keys *)

Module KeyFacts.
Import KeyOrder.

Lemma ordered_refl {A} (cmp : A -> A -> comparison) (x : A) :
  ordered cmp -> cmp x x = Eq.
Proof.
  intros [Hopp _ _]. specialize (Hopp x x). destruct (cmp x x); simpl in Hopp; congruence.
Qed.

Lemma ordered_eq_r {A} (cmp : A -> A -> comparison) (x y z : A) :
  ordered cmp -> cmp y z = Eq -> cmp x y = cmp x z.
Proof.
  intros [Hopp _ Heq] Hyz.
  rewrite (Hopp y x), (Hopp z x). f_equal. apply Heq. exact Hyz.
Qed.

Lemma ordered_gt {A} (cmp : A -> A -> comparison) (x y : A) :
  ordered cmp -> cmp x y = Gt <-> cmp y x = Lt.
Proof.
  intros [Hopp _ _]. rewrite (Hopp x y). destruct (cmp x y); simpl; split; congruence.
Qed.

(** The complement of [<] is transitive. *)
Lemma ordered_negtrans {A} (cmp : A -> A -> comparison) (x y z : A) :
  ordered cmp -> cmp x y <> Lt -> cmp y z <> Lt -> cmp x z <> Lt.
Proof.
  intros Hord Hxy Hyz Hxz. pose proof Hord as [Hopp Htrans Heql].
  destruct (cmp x y) eqn:Exy; [| contradiction |].
  - rewrite (Heql x y z Exy) in Hxz. contradiction.
  - apply (ordered_gt cmp x y Hord) in Exy.
    pose proof (Htrans y x z Exy Hxz). contradiction.
Qed.

Lemma lex_ordered {A B} (c1 : A -> A -> comparison) (c2 : B -> B -> comparison) :
  ordered c1 -> ordered c2 -> ordered (lex c1 c2).
Proof.
  intros H1 H2. pose proof H1 as [Hopp1 Htr1 Heq1]. pose proof H2 as [Hopp2 Htr2 Heq2].
  constructor; unfold lex.
  - intros [a b] [c d]. simpl. rewrite (Hopp1 a c).
    destruct (c1 a c); simpl; [apply Hopp2 | reflexivity | reflexivity].
  - intros [a b] [c d] [e f]. simpl.
    destruct (c1 a c) eqn:Eac; try discriminate.
    + rewrite (Heq1 a c e Eac). destruct (c1 c e); try discriminate; [apply Htr2 | reflexivity].
    + intros _. destruct (c1 c e) eqn:Ece; try discriminate.
      * rewrite (ordered_eq_r c1 a c e H1 Ece) in Eac. rewrite Eac. reflexivity.
      * rewrite (Htr1 a c e Eac Ece). reflexivity.
  - intros [a b] [c d] [e f]. simpl.
    destruct (c1 a c) eqn:Eac; try discriminate.
    intros Ebd. rewrite (Heq1 a c e Eac). destruct (c1 c e); [apply Heq2; exact Ebd | |];
      reflexivity.
Qed.

Lemma Z_compare_ordered : ordered Z.compare.
Proof.
  constructor.
  - intros x y. apply Z.compare_antisym.
  - intros x y z. rewrite !Z.compare_lt_iff. lia.
  - intros x y z Hxy. apply Z.compare_eq in Hxy. subst. reflexivity.
Qed.

Lemma str_compare_ordered : ordered str_compare.
Proof.
  constructor.
  - intros x y. apply StrFacts.str_compare_antisym.
  - apply StrFacts.str_compare_trans.
  - intros x y z Hxy. apply StrFacts.str_compare_eq in Hxy. subst. reflexivity.
Qed.

Lemma pullback_ordered {A B} (f : A -> B) (cmp : B -> B -> comparison) :
  ordered cmp -> ordered (fun x y => cmp (f x) (f y)).
Proof.
  intros [Hopp Htr Heq]. constructor.
  - intros x y. apply Hopp.
  - intros x y z. apply Htr.
  - intros x y z. apply Heq.
Qed.

Lemma ordered_ext {A} (c1 c2 : A -> A -> comparison) :
  (forall x y, c1 x y = c2 x y) -> ordered c2 -> ordered c1.
Proof.
  intros Hext [Hopp Htr Heq]. constructor.
  - intros x y. rewrite !Hext. apply Hopp.
  - intros x y z. rewrite !Hext. apply Htr.
  - intros x y z. rewrite !Hext. apply Heq.
Qed.

Lemma mag_cmp_opp e1 m1 e2 m2 : mag_cmp e2 m2 e1 m1 = CompOpp (mag_cmp e1 m1 e2 m2).
Proof.
  unfold mag_cmp. rewrite (Z.compare_antisym e1 e2), (Pos.compare_antisym m1 m2).
  destruct (Z.compare e1 e2); reflexivity.
Qed.

Lemma fcmp_finite (s1 : bool) m1 e1 (s2 : bool) m2 e2 :
  fcmp (S754_finite s1 m1 e1) (S754_finite s2 m2 e2)
  = match s1, s2 with
    | true, false => Lt
    | false, true => Gt
    | false, false => mag_cmp e1 m1 e2 m2
    | true, true => CompOpp (mag_cmp e1 m1 e2 m2)
    end.
Proof.
  unfold fcmp, mag_cmp. simpl. change (Pos.compare_cont Eq m1 m2) with (Pos.compare m1 m2).
  destruct s1, s2; try reflexivity; destruct (Z.compare e1 e2); reflexivity.
Qed.

(** [fcmp] compares the places of the two floats on the line. *)
Lemma fcmp_place (x y : PyFloat.float) :
  fcmp x y = lex Z.compare (lex Z.compare Z.compare) (place x) (place y).
Proof.
  destruct x as [s1|s1| |s1 m1 e1], y as [s2|s2| |s2 m2 e2];
    try (destruct s1; try destruct s2; reflexivity);
    try (destruct s2; reflexivity); try reflexivity.
  rewrite fcmp_finite. unfold place, lex, mag_cmp.
  destruct s1, s2; simpl fst; simpl snd; try reflexivity.
  change (Z.compare (-1) (-1)) with Eq. cbv iota.
  rewrite Z.compare_opp, (Z.compare_antisym e1 e2).
  change (Z.compare (Z.neg m1) (Z.neg m2)) with (CompOpp (Pos.compare m1 m2)).
  destruct (Z.compare e1 e2); reflexivity.
Qed.

Lemma fcmp_ordered : ordered fcmp.
Proof.
  apply (ordered_ext _ _ fcmp_place).
  apply (pullback_ordered place).
  repeat apply lex_ordered; apply Z_compare_ordered.
Qed.

Lemma cmp_key_ordered : ordered cmp_key.
Proof.
  unfold cmp_key. repeat apply lex_ordered;
    auto using Z_compare_ordered, fcmp_ordered, str_compare_ordered.
Qed.

(** On numbers, [fcmp] is the comparison of the floats. *)
Lemma fcmp_compare (x y : PyFloat.float) :
  PyFloat.is_nan x = false -> PyFloat.is_nan y = false ->
  SFcompare x y = Some (fcmp x y).
Proof.
  intros Hx Hy. unfold fcmp.
  destruct x as [s1|s1| |s1 m1 e1], y as [s2|s2| |s2 m2 e2]; try discriminate; reflexivity.
Qed.

Lemma eqb_fcmp (x y : PyFloat.float) :
  PyFloat.is_nan x = false -> PyFloat.is_nan y = false ->
  PyFloat.eqb x y = match fcmp x y with Eq => true | _ => false end.
Proof.
  intros Hx Hy. unfold PyFloat.eqb, SFeqb. rewrite (fcmp_compare x y Hx Hy). reflexivity.
Qed.

Lemma ltb_fcmp (x y : PyFloat.float) :
  PyFloat.is_nan x = false -> PyFloat.is_nan y = false ->
  PyFloat.ltb x y = match fcmp x y with Lt => true | _ => false end.
Proof.
  intros Hx Hy. unfold PyFloat.ltb, SFltb. rewrite (fcmp_compare x y Hx Hy). reflexivity.
Qed.

Lemma neg_is_nan (x : PyFloat.float) : PyFloat.is_nan (PyFloat.neg x) = PyFloat.is_nan x.
Proof. destruct x; reflexivity. Qed.

(** Negation reverses the comparison. *)
Lemma fcmp_neg (x y : PyFloat.float) :
  PyFloat.is_nan x = false -> PyFloat.is_nan y = false ->
  fcmp (PyFloat.neg x) (PyFloat.neg y) = fcmp y x.
Proof.
  intros Hx Hy.
  destruct x as [s1|s1| |s1 m1 e1], y as [s2|s2| |s2 m2 e2]; try discriminate;
    try (destruct s1; try destruct s2; reflexivity); try (destruct s2; reflexivity).
  unfold PyFloat.neg, SFopp. rewrite !fcmp_finite.
  destruct s1, s2; simpl; try reflexivity;
    rewrite (mag_cmp_opp e1 m1 e2 m2); destruct (mag_cmp e1 m1 e2 m2); reflexivity.
Qed.

End KeyFacts.

(** ** The sort key of the lexical ranker *)

Module RankFacts.
Import KeyOrder Ra2.

(** On keys whose time is a number, [<] on tuples is [cmp_key]. *)
Lemma key_lt_cmp (a b : SortKey) :
  PyFloat.is_nan (key_time a) = false -> PyFloat.is_nan (key_time b) = false ->
  key_lt a b = match cmp_key a b with Lt => true | _ => false end.
Proof.
  destruct a as [[[s1 m1] l1] u1], b as [[[s2 m2] l2] u2]. unfold key_time. simpl.
  intros Ha Hb. unfold key_lt, cmp_key, lex. simpl.
  rewrite (KeyFacts.eqb_fcmp m1 m2 Ha Hb), (KeyFacts.ltb_fcmp m1 m2 Ha Hb).
  rewrite !Z.eqb_compare. unfold Z.ltb.
  destruct (Z.compare s1 s2); try reflexivity.
  destruct (fcmp m1 m2); try reflexivity.
  destruct (Z.compare l1 l2); try reflexivity. simpl.
  unfold str_ltb. destruct (str_compare u1 u2) eqn:Hu.
  - apply StrFacts.str_compare_eq in Hu. subst.
    unfold str_eqb. rewrite bool_decide_eq_true_2 by reflexivity. reflexivity.
  - destruct (str_eqb u1 u2) eqn:He; [|reflexivity].
    apply StrFacts.str_eqb_eq, StrFacts.str_compare_eq in He. congruence.
  - destruct (str_eqb u1 u2); reflexivity.
Qed.

Section Keys.

Lemma sort_key_time (c : Candidate) :
  timed c -> PyFloat.is_nan (key_time (sort_key c)) = false.
Proof. unfold timed, sort_key, key_time. simpl. rewrite KeyFacts.neg_is_nan. trivial. Qed.

(** The comparison of the keys of two candidates, read off their fields:
    larger score first, then later time, then shorter name, then URI. *)
Lemma cmp_sort_key (a b : Candidate) :
  timed a -> timed b ->
  cmp_key (sort_key a) (sort_key b)
  = match Z.compare (score b) (score a) with
    | Eq =>
        match fcmp (meta_mtime (meta b)) (meta_mtime (meta a)) with
        | Eq =>
            match Z.compare (len (filename a)) (len (filename b)) with
            | Eq => str_compare (uri a) (uri b)
            | r => r
            end
        | r => r
        end
    | r => r
    end.
Proof.
  intros Ha Hb. unfold cmp_key, lex, sort_key. simpl.
  rewrite Z.compare_opp, (KeyFacts.fcmp_neg _ _ Ha Hb).
  destruct (Z.compare (score b) (score a)); try reflexivity.
  destruct (fcmp (meta_mtime (meta b)) (meta_mtime (meta a))); reflexivity.
Qed.

Lemma cand_lt_cmp (a b : Candidate) :
  timed a -> timed b ->
  key_lt (sort_key a) (sort_key b)
  = match cmp_key (sort_key a) (sort_key b) with Lt => true | _ => false end.
Proof. intros Ha Hb. apply key_lt_cmp; apply sort_key_time; assumption. Qed.

Lemma cand_lt_total (a b : Candidate) :
  timed a -> timed b -> uri a <> uri b ->
  key_lt (sort_key a) (sort_key b) = true \/ key_lt (sort_key b) (sort_key a) = true.
Proof.
  intros Ha Hb Hne. rewrite (cand_lt_cmp a b), (cand_lt_cmp b a) by assumption.
  rewrite (cmp_opp _ KeyFacts.cmp_key_ordered (sort_key a) (sort_key b)).
  destruct (cmp_key (sort_key a) (sort_key b)) eqn:Hc; simpl; auto.
  exfalso. rewrite cmp_sort_key in Hc by assumption.
  destruct (Z.compare (score b) (score a)); try discriminate.
  destruct (fcmp _ _); try discriminate.
  destruct (Z.compare _ _); try discriminate.
  apply StrFacts.str_compare_eq in Hc. contradiction.
Qed.

Lemma cand_lt_asym (a b : Candidate) :
  timed a -> timed b ->
  key_lt (sort_key a) (sort_key b) = true -> key_lt (sort_key b) (sort_key a) = false.
Proof.
  intros Ha Hb. rewrite (cand_lt_cmp a b), (cand_lt_cmp b a) by assumption.
  rewrite (cmp_opp _ KeyFacts.cmp_key_ordered (sort_key a) (sort_key b)).
  destruct (cmp_key (sort_key a) (sort_key b)); simpl; congruence.
Qed.

Lemma cand_lt_trans (a b c : Candidate) :
  timed a -> timed b -> timed c ->
  key_lt (sort_key a) (sort_key b) = true ->
  key_lt (sort_key b) (sort_key c) = true ->
  key_lt (sort_key a) (sort_key c) = true.
Proof.
  intros Ha Hb Hc.
  rewrite (cand_lt_cmp a b), (cand_lt_cmp b c), (cand_lt_cmp a c) by assumption.
  intros Hab Hbc.
  rewrite (cmp_lt_trans _ KeyFacts.cmp_key_ordered _ (sort_key b)); [reflexivity | |].
  - destruct (cmp_key (sort_key a) (sort_key b)); congruence.
  - destruct (cmp_key (sort_key b) (sort_key c)); congruence.
Qed.

Lemma cand_lt_negtrans (a b c : Candidate) :
  timed a -> timed b -> timed c ->
  key_lt (sort_key a) (sort_key b) = false ->
  key_lt (sort_key b) (sort_key c) = false ->
  key_lt (sort_key a) (sort_key c) = false.
Proof.
  intros Ha Hb Hc.
  rewrite (cand_lt_cmp a b), (cand_lt_cmp b c), (cand_lt_cmp a c) by assumption.
  intros Hab Hbc.
  pose proof (KeyFacts.ordered_negtrans cmp_key (sort_key a) (sort_key b) (sort_key c)
                KeyFacts.cmp_key_ordered) as Hnt.
  destruct (cmp_key (sort_key a) (sort_key c)); try reflexivity.
  exfalso. apply Hnt; [| | reflexivity].
  - destruct (cmp_key (sort_key a) (sort_key b)); congruence.
  - destruct (cmp_key (sort_key b) (sort_key c)); congruence.
Qed.

End Keys.
End RankFacts.

(** ** The ranking is strictly ordered *)

Module RankingFacts.
Import KeyOrder Ra2 TokenSpec.

Lemma rank_perm (cands : list Candidate) : Permutation (rank cands) cands.
Proof. apply SortFacts.sort_by_perm. Qed.

Lemma rank_sorted (cands : list Candidate) :
  List.Forall timed cands ->
  StronglySorted (PySort.key_le sort_key key_lt) (rank cands).
Proof.
  intros Ht.
  apply (SortFacts.sort_by_sorted sort_key key_lt
           (fun k => PyFloat.is_nan (KeyOrder.key_time k) = false)).
  - intros a b Ha Hb. rewrite !RankFacts.key_lt_cmp by assumption.
    rewrite (cmp_opp _ KeyFacts.cmp_key_ordered a b).
    destruct (cmp_key a b); simpl; congruence.
  - intros a b c Ha Hb Hc. rewrite !RankFacts.key_lt_cmp by assumption.
    intros Hab Hbc.
    pose proof (KeyFacts.ordered_negtrans cmp_key a b c KeyFacts.cmp_key_ordered) as Hnt.
    destruct (cmp_key a c); try reflexivity.
    exfalso. apply Hnt; [| | reflexivity].
    + destruct (cmp_key a b); congruence.
    + destruct (cmp_key b c); congruence.
  - revert Ht. apply List.Forall_impl. intros c Hc. apply RankFacts.sort_key_time. exact Hc.
Qed.

(** With pairwise different URIs, every candidate of the ranking comes
    strictly before all that follow it. *)
Lemma rank_strictly_sorted (cands : list Candidate) :
  List.Forall timed cands ->
  NoDup (List.map uri cands) ->
  StronglySorted ranks_before (rank cands).
Proof.
  intros Ht Hnd.
  assert (Ht' : List.Forall timed (rank cands))
    by (apply (Permutation_Forall (x := cands)); [symmetry; apply rank_perm | exact Ht]).
  assert (Hnd' : NoDup (List.map uri (rank cands)))
    by (rewrite (Permutation_map uri (rank_perm cands)); exact Hnd).
  pose proof (rank_sorted cands Ht) as Hs.
  induction Hs as [|x l Hs IH Hx]; [constructor|].
  apply List.Forall_cons_iff in Ht' as [Hxt Hlt].
  simpl in Hnd'. apply NoDup_cons in Hnd' as [Hxu Hlu].
  constructor; [apply IH; assumption|].
  rewrite List.Forall_forall in Hx, Hlt |- *. intros y Hy.
  destruct (RankFacts.cand_lt_total x y Hxt (Hlt y Hy)) as [Hlt1|Hlt2].
  - intros Heq. apply Hxu. rewrite Heq. apply list_elem_of_In, List.in_map. exact Hy.
  - exact Hlt1.
  - specialize (Hx y Hy). unfold PySort.key_le in Hx. congruence.
Qed.

(** In a list sorted by [R], an element stands in relation [R] to every
    element at a later position. *)
Lemma sorted_lookup {A} (R : A -> A -> Prop) (l : list A) :
  StronglySorted R l ->
  forall (i j : nat) (x y : A),
    (i < j)%nat -> l !! i = Some x -> l !! j = Some y -> R x y.
Proof.
  induction 1 as [|z l _ IH Hz]; intros i j x y Hij Hi Hj; [discriminate Hi|].
  destruct j as [|j]; [lia|]. simpl in Hj.
  destruct i as [|i].
  - simpl in Hi. assert (z = x) by congruence. subst z.
    rewrite List.Forall_forall in Hz. apply Hz.
    apply list_elem_of_In. eapply list_elem_of_lookup_2. exact Hj.
  - simpl in Hi. apply (IH i j); [lia | exact Hi | exact Hj].
Qed.

(** The ranking lists one candidate before another exactly when the
    sort key of the first is the smaller. *)
Lemma rank_listed_before (cands : list Candidate) (a b : Candidate) :
  List.Forall timed cands ->
  NoDup (List.map uri cands) ->
  In a cands -> In b cands ->
  uri a <> uri b ->
  ranks_before a b <-> RankOrder.listed_before (rank cands) a b.
Proof.
  intros Ht Hnd Hina Hinb Hne.
  pose proof (rank_strictly_sorted cands Ht Hnd) as Hss.
  rewrite List.Forall_forall in Ht. split.
  - intros Hab.
    assert (Ha : a ∈ rank cands)
      by (apply list_elem_of_In; unfold rank; apply SortFacts.sort_by_In; exact Hina).
    assert (Hb : b ∈ rank cands)
      by (apply list_elem_of_In; unfold rank; apply SortFacts.sort_by_In; exact Hinb).
    apply list_elem_of_lookup_1 in Ha as [i Hi].
    apply list_elem_of_lookup_1 in Hb as [j Hj].
    destruct (lt_eq_lt_dec i j) as [[Hlt|Heq]|Hgt].
    + exists i, j. repeat split; assumption.
    + exfalso. subst j. apply Hne. congruence.
    + exfalso. pose proof (sorted_lookup _ _ Hss j i b a Hgt Hj Hi) as Hba.
      unfold ranks_before in Hab, Hba.
      apply (RankFacts.cand_lt_asym a b (Ht a Hina) (Ht b Hinb)) in Hab. congruence.
  - intros (i & j & Hlt & Hi & Hj). exact (sorted_lookup _ _ Hss i j a b Hlt Hi Hj).
Qed.

End RankingFacts.

(** C2: two candidates with different URIs, as any two candidates of one
    ranking have, are strictly ordered by the sort key, one way and not
    the other, and [candidates.sort(key=sort_key)] lists them in that
    order: the larger overlap first; with equal overlap the later
    modification time first; then the shorter basename; then the smaller
    URI; and the order is transitive. *)
Theorem sort_key_strict_total (a b : Ra2.Candidate) :
  KeyOrder.timed a -> KeyOrder.timed b ->
  Ra2.uri a <> Ra2.uri b ->
  let lt x y := Ra2.key_lt (Ra2.sort_key x) (Ra2.sort_key y) = true in
  let mtime x := meta_mtime (Ra2.meta x) in
  (lt a b \/ lt b a)
  /\ ~ (lt a b /\ lt b a)
  /\ (forall candidates,
        List.Forall KeyOrder.timed candidates ->
        NoDup (List.map Ra2.uri candidates) ->
        In a candidates -> In b candidates ->
        (lt a b <-> RankOrder.listed_before (Ra2.rank candidates) a b)
        /\ (RankOrder.listed_before (Ra2.rank candidates) a b
            \/ RankOrder.listed_before (Ra2.rank candidates) b a)
        /\ ~ (RankOrder.listed_before (Ra2.rank candidates) a b
              /\ RankOrder.listed_before (Ra2.rank candidates) b a))
  /\ (Ra2.score b < Ra2.score a -> lt a b)
  /\ (Ra2.score a = Ra2.score b -> PyFloat.ltb (mtime b) (mtime a) = true -> lt a b)
  /\ (Ra2.score a = Ra2.score b -> PyFloat.eqb (mtime a) (mtime b) = true ->
      len (Ra2.filename a) < len (Ra2.filename b) -> lt a b)
  /\ (Ra2.score a = Ra2.score b -> PyFloat.eqb (mtime a) (mtime b) = true ->
      len (Ra2.filename a) = len (Ra2.filename b) ->
      str_ltb (Ra2.uri a) (Ra2.uri b) = true -> lt a b)
  /\ (forall c, KeyOrder.timed c -> lt a b -> lt b c -> lt a c).
Proof.
  intros Ha Hb Hne lt mtime. subst lt mtime. cbv beta.
  assert (Heqb : PyFloat.eqb (meta_mtime (Ra2.meta a)) (meta_mtime (Ra2.meta b)) = true ->
                 KeyOrder.fcmp (meta_mtime (Ra2.meta b)) (meta_mtime (Ra2.meta a)) = Eq).
  { rewrite (KeyFacts.eqb_fcmp _ _ Ha Hb).
    rewrite (KeyOrder.cmp_opp _ KeyFacts.fcmp_ordered (meta_mtime (Ra2.meta b))).
    destruct (KeyOrder.fcmp (meta_mtime (Ra2.meta b)) _); simpl; congruence. }
  assert (Hltb : PyFloat.ltb (meta_mtime (Ra2.meta b)) (meta_mtime (Ra2.meta a)) = true ->
                 KeyOrder.fcmp (meta_mtime (Ra2.meta b)) (meta_mtime (Ra2.meta a)) = Lt).
  { rewrite (KeyFacts.ltb_fcmp _ _ Hb Ha).
    destruct (KeyOrder.fcmp (meta_mtime (Ra2.meta b)) _); simpl; congruence. }
  assert (Htotal : Ra2.key_lt (Ra2.sort_key a) (Ra2.sort_key b) = true
                   \/ Ra2.key_lt (Ra2.sort_key b) (Ra2.sort_key a) = true)
    by (apply RankFacts.cand_lt_total; assumption).
  assert (Hasym : ~ (Ra2.key_lt (Ra2.sort_key a) (Ra2.sort_key b) = true
                     /\ Ra2.key_lt (Ra2.sort_key b) (Ra2.sort_key a) = true)).
  { intros [Hab Hba]. apply (RankFacts.cand_lt_asym a b Ha Hb) in Hab. congruence. }
  split; [exact Htotal|].
  split; [exact Hasym|].
  split.
  { intros candidates Ht Hnd Hina Hinb.
    pose proof (RankingFacts.rank_listed_before candidates a b Ht Hnd Hina Hinb Hne) as Hab.
    pose proof (RankingFacts.rank_listed_before candidates b a Ht Hnd Hinb Hina
                  (fun H => Hne (eq_sym H))) as Hba.
    unfold KeyOrder.ranks_before in Hab, Hba.
    split; [exact Hab|]. split.
    - destruct Htotal as [H|H]; [left; apply Hab | right; apply Hba]; exact H.
    - intros [H1 H2]. apply Hasym. split; [apply Hab | apply Hba]; assumption. }
  rewrite (RankFacts.cand_lt_cmp a b Ha Hb), (RankFacts.cmp_sort_key a b Ha Hb).
  split.
  { intros Hs. apply Z.compare_lt_iff in Hs. rewrite Hs. reflexivity. }
  split.
  { intros -> Hm. rewrite Z.compare_refl, (Hltb Hm). reflexivity. }
  split.
  { intros -> Hm Hl. rewrite Z.compare_refl, (Heqb Hm).
    apply Z.compare_lt_iff in Hl. rewrite Hl. reflexivity. }
  split.
  { intros -> Hm -> Hu. rewrite !Z.compare_refl, (Heqb Hm).
    unfold str_ltb in Hu. destruct (str_compare (Ra2.uri a) (Ra2.uri b)); congruence. }
  intros c Hc Hab Hbc.
  rewrite <- (RankFacts.cmp_sort_key a b Ha Hb), <- (RankFacts.cand_lt_cmp a b Ha Hb) in Hab.
  apply (RankFacts.cand_lt_trans a b c); assumption.
Qed.

Lemma sort_key_strict_total_witness :
  let a := Ra2.MkCandidate 1 (lit "workspace://docs/report%201.pdf")
             (MkMeta (lit "docs/report 1.pdf") (lit "/ws/docs/report 1.pdf") 1000
                     (PyFloat.of_Z 1700000012) (lit "application/pdf"))
             (lit "report 1.pdf") in
  let b := Ra2.MkCandidate 1 (lit "workspace://notes/draft.pdf")
             (MkMeta (lit "notes/draft.pdf") (lit "/ws/notes/draft.pdf") 1000
                     (PyFloat.of_Z 1700000009) (lit "application/pdf"))
             (lit "draft.pdf") in
  Ra2.key_lt (Ra2.sort_key a) (Ra2.sort_key b) = true
  /\ Ra2.key_lt (Ra2.sort_key b) (Ra2.sort_key a) <> true
  /\ RankOrder.listed_before (Ra2.rank [b; a]) a b
  /\ ~ RankOrder.listed_before (Ra2.rank [b; a]) b a.
Proof.
  intros a b.
  destruct (sort_key_strict_total a b eq_refl eq_refl ltac:(discriminate))
    as (_ & Hasym & Hrank & _ & Hlater & _).
  assert (Hab : Ra2.key_lt (Ra2.sort_key a) (Ra2.sort_key b) = true)
    by (apply Hlater; reflexivity).
  destruct (Hrank [b; a]) as (Hiff & _ & Hone).
  - repeat constructor.
  - apply NoDup_ListNoDup. repeat constructor; simpl; intuition discriminate.
  - right. left. reflexivity.
  - left. reflexivity.
  - assert (Hlisted : RankOrder.listed_before (Ra2.rank [b; a]) a b) by (apply Hiff; exact Hab).
    split; [exact Hab|]. split; [intros Hba; apply Hasym; split; assumption|].
    split; [exact Hlisted|]. intros Hrev. apply Hone. split; assumption.
Defined.

(** ** Tokens are the maximal runs *)

Module TokenFacts.
Import Ra2 TokenSpec.

Abbreviation tok_all := (List.Forall (fun c => is_token_char c = true)).

Lemma boundary_tok_nil (s : str) : boundary s -> tok_all s -> s = [].
Proof.
  destruct s as [|c s]; [reflexivity|]. simpl. intros Hc Hall.
  apply List.Forall_cons_iff in Hall as [Hc' _]. congruence.
Qed.

Lemma tok_all_rev (s : str) : tok_all s -> tok_all (rev s).
Proof. intros Hs. apply List.Forall_rev. exact Hs. Qed.

Lemma boundary_rev_tok_nil (l : str) : boundary (rev l) -> tok_all l -> l = [].
Proof.
  intros Hb Hall. apply tok_all_rev in Hall.
  pose proof (boundary_tok_nil _ Hb Hall) as Hnil.
  rewrite <- (List.rev_involutive l), Hnil. reflexivity.
Qed.

Lemma boundary_app (a b : str) : a <> [] -> boundary (a ++ b) <-> boundary a.
Proof. destruct a; [contradiction | reflexivity]. Qed.

(** The boundary at the end of [u ++ c :: l], for [c] outside the class,
    is the one at the end of [l]. *)
Lemma boundary_rev_sep (u l : str) (c : codepoint) :
  is_token_char c = false -> boundary (rev (u ++ c :: l)) <-> boundary (rev l).
Proof.
  intros Hc. rewrite List.rev_app_distr. simpl rev. rewrite <- !app_assoc.
  destruct (rev l) as [|x xs] eqn:Hl; simpl; [|tauto].
  split; [trivial | intros _; exact Hc].
Qed.

(** In a text made of class characters only, the one run is the text. *)
Lemma maximal_run_all (u t : str) :
  tok_all u -> maximal_run u t <-> u <> [] /\ t = u.
Proof.
  intros Hu. split.
  - intros (Hne & Ht & l & r & -> & Hl & Hr).
    apply List.Forall_app in Hu as [Hul Hu]. apply List.Forall_app in Hu as [_ Hur].
    rewrite (boundary_rev_tok_nil l Hl Hul), (boundary_tok_nil r Hr Hur), app_nil_r.
    split; [exact Hne | reflexivity].
  - intros [Hne ->]. split; [exact Hne|]. split; [exact Hu|].
    exists [], []. rewrite app_nil_r. repeat split.
Qed.

(** The runs of [u ++ c :: s], for a stretch [u] of class characters and
    [c] outside the class: [u] itself, and the runs of [s]. *)
Lemma maximal_run_split (u s t : str) (c : codepoint) :
  tok_all u -> is_token_char c = false ->
  maximal_run (u ++ c :: s) t <-> (u <> [] /\ t = u) \/ maximal_run s t.
Proof.
  intros Hu Hc. split.
  - intros (Hne & Ht & l & r & Heq & Hl & Hr).
    apply List.app_eq_app in Heq as [k [[Hul Htr]|[Hlu Hcs]]].
    + (* the run starts inside [u] *)
      subst u. apply List.Forall_app in Hu as [Hul Huk].
      pose proof (boundary_rev_tok_nil l Hl Hul) as ->. simpl in *.
      apply List.app_eq_app in Htr as [k2 [[Htk Hcs]|[Hkt Hr2]]].
      * destruct k2 as [|x k2].
        -- rewrite app_nil_r in Htk. subst t. left. split; [exact Hne | reflexivity].
        -- exfalso. simpl in Hcs. injection Hcs as <- _. subst t.
           apply List.Forall_app in Ht as [_ Ht].
           apply List.Forall_cons_iff in Ht as [Ht _]. congruence.
      * destruct k2 as [|x k2].
        -- rewrite app_nil_r in Hkt. subst k. left. split; [exact Hne | reflexivity].
        -- exfalso. subst k r. simpl in Hr.
           apply List.Forall_app in Huk as [_ Huk].
           apply List.Forall_cons_iff in Huk as [Hx _]. congruence.
    + (* the run starts after [u] *)
      destruct k as [|x k].
      * exfalso. simpl in Hcs. destruct t as [|x t]; [contradiction|].
        simpl in Hcs. injection Hcs as <- _.
        apply List.Forall_cons_iff in Ht as [Ht _]. congruence.
      * simpl in Hcs. injection Hcs as <- ->. right.
        split; [exact Hne|]. split; [exact Ht|]. exists k, r.
        split; [reflexivity|]. split; [|exact Hr].
        subst l. apply (boundary_rev_sep u k c Hc). exact Hl.
  - intros [[Hne ->]|(Hne & Ht & l & r & -> & Hl & Hr)].
    + split; [exact Hne|]. split; [exact Hu|]. exists [], (c :: s).
      repeat split. exact Hc.
    + split; [exact Hne|]. split; [exact Ht|]. exists (u ++ c :: l), r.
      split; [rewrite <- app_assoc; reflexivity|]. split; [|exact Hr].
      apply (boundary_rev_sep u l c Hc). exact Hl.
Qed.

(** The scan finds the maximal runs of the run read so far followed by
    the rest of the text. *)
Lemma findall_from_spec (cur s t : str) :
  tok_all cur -> In t (findall_from cur s) <-> maximal_run (rev cur ++ s) t.
Proof.
  revert cur. induction s as [|c s IH]; intros cur Hcur.
  - rewrite app_nil_r, (maximal_run_all (rev cur) t) by (apply tok_all_rev; exact Hcur).
    destruct cur as [|x cur]; simpl.
    + split; [contradiction | intros [Hne _]; apply Hne; reflexivity].
    + split.
      * intros [<-|[]]. split; [|reflexivity].
        intros Hnil. apply (f_equal (@List.length _)) in Hnil.
        rewrite List.length_app in Hnil. simpl in Hnil. lia.
      * intros [_ ->]. left. reflexivity.
  - simpl findall_from. destruct (is_token_char c) eqn:Hc.
    + rewrite IH by (constructor; assumption).
      simpl rev. rewrite <- app_assoc. reflexivity.
    + rewrite (maximal_run_split (rev cur) s t c) by (try apply tok_all_rev; assumption).
      destruct cur as [|x cur].
      * rewrite IH by constructor. simpl.
        split; [auto | intros [[Hne _]|Hr]; [contradiction | exact Hr]].
      * simpl In. rewrite IH by constructor. simpl app.
        split.
        -- intros [<-|Hr]; [left | right; exact Hr].
           split; [|reflexivity]. intros Hnil. apply (f_equal (@List.length _)) in Hnil.
           simpl in Hnil. rewrite List.length_app in Hnil. simpl in Hnil. lia.
        -- intros [[_ ->]|Hr]; [left; reflexivity | right; exact Hr].
Qed.

Lemma findall_spec (s t : str) : In t (findall s) <-> maximal_run s t.
Proof. unfold findall. rewrite findall_from_spec by constructor. reflexivity. Qed.

Section Tokens.
Context `{Unicode}.

(** The token set of a text: the maximal runs of its lower-cased form. *)
Lemma tokenize_spec (text t : str) :
  t ∈ tokenize text <-> maximal_run (str_lower text) t.
Proof.
  unfold tokenize. rewrite elem_of_list_to_set, list_elem_of_In. apply findall_spec.
Qed.

Lemma ascii_lower_is_ascii (s : str) : is_ascii s -> is_ascii (List.map ascii_lower_cp s).
Proof.
  unfold is_ascii. intros Hs. apply List.Forall_map. revert Hs. apply List.Forall_impl.
  intros c Hc. unfold ascii_lower_cp.
  destruct ((65 <=? c)%N && (c <=? 90)%N) eqn:Hup; [|exact Hc].
  apply andb_true_iff in Hup as [_ Hle]. apply N.leb_le in Hle. lia.
Qed.

Lemma ascii_lower_idem (c : codepoint) : ascii_lower_cp (ascii_lower_cp c) = ascii_lower_cp c.
Proof.
  unfold ascii_lower_cp.
  destruct ((65 <=? c)%N && (c <=? 90)%N) eqn:Hup; [|rewrite Hup; reflexivity].
  apply andb_true_iff in Hup as [Hge _]. apply N.leb_le in Hge.
  destruct (N.leb_spec (c + 32) 90); [lia|]. rewrite andb_false_r. reflexivity.
Qed.

(** On ASCII text, lower-casing twice is lower-casing once. *)
Lemma str_lower_twice (s : str) : is_ascii s -> str_lower (str_lower s) = str_lower s.
Proof.
  intros Hs. rewrite (str_lower_ascii s Hs).
  rewrite (str_lower_ascii _ (ascii_lower_is_ascii s Hs)).
  rewrite List.map_map. apply List.map_ext. intros c. apply ascii_lower_idem.
Qed.

End Tokens.
End TokenFacts.

(** ** Lexical ranker: the candidates and their scores *)

Module ScoreFacts.
Import Ra2.
Section Facts.
Context `{Unicode}.

(** The answer for a query with a token over an index with an entry. *)
Lemma locate_ranked (index : Index) (query : str) :
  tokenize (str_lower query) <> ∅ -> index <> [] ->
  locate_relevant_resouces index query
  = join Content.nl
      (lit "Top candidates:"
       :: imap candidate_line
            (firstn 10 (rank (List.map (candidate_of (tokenize (str_lower query))) index)))).
Proof.
  intros Hq Hi. unfold locate_relevant_resouces.
  rewrite bool_decide_eq_false_2 by assumption.
  destruct index; [contradiction | reflexivity].
Qed.

Lemma candidate_of_fields (q_tokens : gset str) (u : str) (m : Meta) :
  let c := candidate_of q_tokens (u, m) in
  uri c = u /\ meta c = m
  /\ filename c = name (Path_of_str (if truthy (meta_name m) then meta_name m else u))
  /\ score c = Z.of_nat (size (q_tokens ∩ tokenize (str_lower (filename c)))).
Proof. repeat split. Qed.

End Facts.
End ScoreFacts.

(** C5: for a query with a token and an index with an entry, the ranker
    lists the ranked candidates; there is one candidate for every entry
    of the index, whatever its score; the score of a candidate is the
    number of tokens that the query and the basename of the entry's
    display name share; and the tokens of a text are the maximal runs of
    [[a-z0-9]] in its lower-cased form. *)
Theorem overlap_score `{Unicode} (index : Index) (query : str) :
  Ra2.tokenize (str_lower query) <> ∅ ->
  index <> [] ->
  let q_tokens := Ra2.tokenize (str_lower query) in
  let candidates := Ra2.rank (List.map (Ra2.candidate_of q_tokens) index) in
  Ra2.locate_relevant_resouces index query
  = join Content.nl
      (lit "Top candidates:" :: imap Ra2.candidate_line (firstn 10 candidates))
  /\ List.length candidates = List.length index
  /\ (forall u m, In (u, m) index ->
        exists c, In c candidates
          /\ Ra2.uri c = u /\ Ra2.meta c = m
          /\ Ra2.filename c
             = name (Path_of_str (if truthy (meta_name m) then meta_name m else u))
          /\ 0 <= Ra2.score c
          /\ Ra2.score c
             = Z.of_nat (size (q_tokens ∩ Ra2.tokenize (str_lower (Ra2.filename c)))))
  /\ (forall text t,
        t ∈ Ra2.tokenize text <-> TokenSpec.maximal_run (str_lower text) t)
  /\ (forall text, is_ascii text -> Ra2.tokenize (str_lower text) = Ra2.tokenize text).
Proof.
  intros Hq Hi q_tokens candidates.
  split; [apply ScoreFacts.locate_ranked; assumption|].
  split.
  { unfold candidates, Ra2.rank. rewrite SortFacts.sort_by_length, List.length_map.
    reflexivity. }
  split.
  { intros u m Hin. exists (Ra2.candidate_of q_tokens (u, m)).
    split.
    - unfold candidates, Ra2.rank. apply SortFacts.sort_by_In.
      apply List.in_map. exact Hin.
    - destruct (ScoreFacts.candidate_of_fields q_tokens u m) as (Hu & Hm & Hf & Hs).
      repeat split; try assumption. rewrite Hs. lia. }
  split.
  { apply TokenFacts.tokenize_spec. }
  intros text Htext. unfold Ra2.tokenize.
  rewrite (TokenFacts.str_lower_twice text Htext). reflexivity.
Qed.

Lemma overlap_score_witness :
  register_file_resources Demo.docs_world default_include_globs default_ignore_dirs
    false None (lit "/ws") = Ret Demo.docs_index
  /\ @Ra2.locate_relevant_resouces ascii_unicode Demo.docs_index (lit "Report")
     = join Content.nl
         [lit "Top candidates:";
          lit "0- filename: `report 1.pdf` --- (overlap 1)";
          lit "1- filename: `draft.pdf` --- (overlap 0)"].
Proof.
  split; [vm_compute; reflexivity|].
  destruct (@overlap_score ascii_unicode Demo.docs_index (lit "Report")) as (Hloc & _).
  - vm_compute. discriminate.
  - discriminate.
  - rewrite Hloc. vm_compute. reflexivity.
Defined.

(** ** The candidates of a registered index *)

Module RegisteredFacts.
Import KeyOrder Ra2.

Section Facts.
Context `{Unicode} (w : World).

Lemma candidates_uris (q_tokens : gset str) (index : Index) :
  List.map uri (List.map (candidate_of q_tokens) index) = List.map fst index.
Proof.
  rewrite List.map_map. apply List.map_ext. intros [u m]. reflexivity.
Qed.

(** The keys of a registered index are pairwise different. *)
Lemma register_keys (include_globs ignore_dirs : list str) (follow_symlinks : bool)
    (max_bytes : option Z) (workspace : str) (index : Index) :
  register_file_resources w include_globs ignore_dirs follow_symlinks max_bytes workspace
  = Ret index ->
  NoDup (List.map fst index).
Proof.
  unfold register_file_resources.
  destruct (fs_expanduser w (Path_of_str workspace) ≫= fs_resolve w) as [root|e];
    [|discriminate]. rewrite bind_Ret.
  destruct (fs_exists w root) as [ex|e]; [|discriminate]. rewrite bind_Ret.
  destruct (if ex then fs_is_dir w root else Ret false) as [isd|e]; [|discriminate].
  rewrite bind_Ret. destruct (negb ex || negb isd); [discriminate|].
  intros [= <-]. apply IndexFacts.register_loop_keys. constructor.
Qed.

(** The times of a registered index are numbers, when the clock
    conversion gives numbers. *)
Lemma register_loop_timed (root : Path) (ps : list Path) (index : Index) :
  (forall t r, datetime_timestamp w t = Ret r -> PyFloat.is_nan r = false) ->
  List.Forall (fun item => PyFloat.is_nan (meta_mtime (snd item)) = false) index ->
  List.Forall (fun item => PyFloat.is_nan (meta_mtime (snd item)) = false)
              (fold_left (register_one w root) ps index).
Proof.
  intros Hclock. revert index. induction ps as [|p ps IH]; intros index Hidx; simpl;
    [exact Hidx|].
  apply IH. unfold register_one, register_body.
  destruct (relative_to p root) as [rel|e]; [|exact Hidx]. rewrite !bind_Ret.
  destruct (quote (as_posix rel) (lit "/")) as [q|e]; [|exact Hidx]. rewrite !bind_Ret.
  destruct (fs_stat w p) as [st|e]; [|exact Hidx]. rewrite !bind_Ret.
  destruct (datetime_timestamp w (st_mtime st)) as [mtime|e] eqn:Ht; [|exact Hidx].
  rewrite !bind_Ret.
  destruct (mcp_resource w _ _ _ _) as [[]|e]; [|exact Hidx]. rewrite !bind_Ret.
  apply List.Forall_forall. intros [u m] Hin.
  apply IndexFacts.dict_set_In in Hin as [[= -> ->]|Hin].
  - simpl. eapply Hclock. exact Ht.
  - rewrite List.Forall_forall in Hidx. apply (Hidx (u, m)). exact Hin.
Qed.

(** The ranking of the candidates of a registered index is strictly
    increasing in the sort key. *)
Lemma registered_rank_sorted (include_globs ignore_dirs : list str)
    (follow_symlinks : bool) (max_bytes : option Z) (workspace : str)
    (index : Index) (q_tokens : gset str) :
  (forall t r, datetime_timestamp w t = Ret r -> PyFloat.is_nan r = false) ->
  register_file_resources w include_globs ignore_dirs follow_symlinks max_bytes workspace
  = Ret index ->
  StronglySorted KeyOrder.ranks_before
    (rank (List.map (candidate_of q_tokens) index)).
Proof.
  intros Hclock Hreg. apply RankingFacts.rank_strictly_sorted.
  - assert (Ht : List.Forall (fun item => PyFloat.is_nan (meta_mtime (snd item)) = false)
                   index).
    { revert Hreg. unfold register_file_resources.
      destruct (fs_expanduser w (Path_of_str workspace) ≫= fs_resolve w) as [root|e];
        [|discriminate]. rewrite bind_Ret.
      destruct (fs_exists w root) as [ex|e]; [|discriminate]. rewrite bind_Ret.
      destruct (if ex then fs_is_dir w root else Ret false) as [isd|e]; [|discriminate].
      rewrite bind_Ret. destruct (negb ex || negb isd); [discriminate|].
      intros [= <-]. apply register_loop_timed; [exact Hclock | constructor]. }
    apply List.Forall_map. revert Ht. apply List.Forall_impl. intros [u m] Hm. exact Hm.
  - rewrite candidates_uris. eapply register_keys. exact Hreg.
Qed.

End Facts.
End RegisteredFacts.

(* ===================================================================== *)
(** * Further properties of the code *)
(* ===================================================================== *)

(** ** The walker: what it keeps and what it drops *)

Module WalkerMoreFacts.
Import WalkerSpec Notions.
Section Facts.
Context (w : World) (include_globs ignore_dirs : list str)
        (follow_symlinks : bool) (max_bytes : option Z).

Lemma accepts_tail (p : Path) :
  (ex ← fs_exists w p;
   isf ← (if (ex : bool) then fs_is_file w p else Ret false);
   if negb ex || negb isf then Ret false else
   match max_bytes with
   | None => Ret true
   | Some mb =>
       match fs_stat w p with
       | Ret st => Ret (negb (mb <? st_size st))
       | Raise _ => Ret false
       end
   end) = Ret true ->
  fs_exists w p = Ret true
  /\ fs_is_file w p = Ret true
  /\ (forall mb, max_bytes = Some mb ->
        exists st, fs_stat w p = Ret st /\ st_size st <= mb).
Proof.
  destruct (fs_exists w p) as [[|]|e]; try discriminate. rewrite bind_Ret.
  destruct (fs_is_file w p) as [[|]|e]; try discriminate. rewrite bind_Ret.
  simpl. intros Hacc. split; [reflexivity|]. split; [reflexivity|].
  intros mb ->. destruct (fs_stat w p) as [st|e]; [|discriminate].
  exists st. split; [reflexivity|]. injection Hacc as Hsz.
  apply negb_true_iff, Z.ltb_ge in Hsz. exact Hsz.
Qed.

Lemma accepts_passes (p : Path) :
  accepts w ignore_dirs follow_symlinks max_bytes p = Ret true ->
  passes w ignore_dirs follow_symlinks max_bytes p.
Proof.
  unfold accepts, passes. destruct (ignored ignore_dirs p) eqn:Hig; [discriminate|].
  intros Hacc. split.
  { intros ig Hin Hpart.
    assert (ignored ignore_dirs p = true)
      by (apply WalkerFacts.ignored_iff; exists ig; split; assumption).
    congruence. }
  destruct follow_symlinks.
  - split; [discriminate|]. apply accepts_tail. exact Hacc.
  - destruct (fs_is_symlink w p) as [[|]|e]; try discriminate.
    split; [reflexivity|]. apply accepts_tail. exact Hacc.
Qed.

Lemma filter_concat {A} (f : A -> bool) (ls : list (list A)) :
  List.filter f (List.concat ls) = List.concat (List.map (List.filter f) ls).
Proof.
  induction ls as [|l ls IH]; simpl; [reflexivity|].
  rewrite List.filter_app, IH. reflexivity.
Qed.

(** When no path test raises, the candidates are the accepted matches,
    in the order the patterns yield them. *)
Lemma scan_patterns_filter (root : Path) :
  List.Forall (fun p => returns (accepts w ignore_dirs follow_symlinks max_bytes p))
              (matches w include_globs root) ->
  scan_patterns w include_globs ignore_dirs follow_symlinks max_bytes root
  = List.filter (accepted w ignore_dirs follow_symlinks max_bytes)
                (matches w include_globs root).
Proof.
  intros Hret. unfold scan_patterns.
  rewrite (RerunFacts.fold_patterns_filter w) by exact Hret.
  simpl. unfold matches. rewrite filter_concat, List.map_map. reflexivity.
Qed.

End Facts.
End WalkerMoreFacts.

(** X1: every path the walker returns was yielded by one of the include
    patterns and passed every test of the loop: no component is an
    ignored name, it is not a symbolic link unless links are followed, it
    exists and is a regular file, and its size is within [max_bytes]
    when that is set. *)
Theorem walker_output_passes_tests (w : World) (include_globs ignore_dirs : list str)
    (follow_symlinks : bool) (max_bytes : option Z) (root p : Path) :
  In p (scan w include_globs ignore_dirs follow_symlinks max_bytes root) ->
  In p (WalkerSpec.matches w include_globs root)
  /\ Notions.passes w ignore_dirs follow_symlinks max_bytes p.
Proof.
  intros Hin. apply WalkerFacts.scan_In in Hin as [Hacc Hm].
  split; [exact Hm|]. apply WalkerMoreFacts.accepts_passes. exact Hacc.
Qed.

Lemma walker_output_passes_tests_witness :
  In Demo.report
     (scan Demo.docs_world default_include_globs default_ignore_dirs false (Some 1000)
           Demo.root)
  /\ Notions.passes Demo.docs_world default_ignore_dirs false (Some 1000) Demo.report.
Proof.
  assert (Hin : In Demo.report
                   (scan Demo.docs_world default_include_globs default_ignore_dirs false
                         (Some 1000) Demo.root))
    by (vm_compute; left; reflexivity).
  split; [exact Hin|].
  exact (proj2 (walker_output_passes_tests _ _ _ _ _ _ _ Hin)).
Defined.

(** X2: when no path test raises, the walker drops nothing it should
    keep: its output is a rearrangement of the yielded paths that pass
    the tests, each as often as it was yielded. *)
Theorem walker_keeps_accepted (w : World) (include_globs ignore_dirs : list str)
    (follow_symlinks : bool) (max_bytes : option Z) (root : Path) :
  List.Forall (fun p => returns (accepts w ignore_dirs follow_symlinks max_bytes p))
              (WalkerSpec.matches w include_globs root) ->
  Permutation (scan w include_globs ignore_dirs follow_symlinks max_bytes root)
              (List.filter (WalkerSpec.accepted w ignore_dirs follow_symlinks max_bytes)
                           (WalkerSpec.matches w include_globs root))
  /\ (forall p, In p (WalkerSpec.matches w include_globs root) ->
        accepts w ignore_dirs follow_symlinks max_bytes p = Ret true ->
        In p (scan w include_globs ignore_dirs follow_symlinks max_bytes root)).
Proof.
  intros Hret.
  assert (Hperm : Permutation
            (scan w include_globs ignore_dirs follow_symlinks max_bytes root)
            (List.filter (WalkerSpec.accepted w ignore_dirs follow_symlinks max_bytes)
                         (WalkerSpec.matches w include_globs root))).
  { rewrite <- (WalkerMoreFacts.scan_patterns_filter w) by exact Hret.
    apply WalkerFacts.scan_perm. }
  split; [exact Hperm|]. intros p Hm Hacc.
  apply (Permutation_in _ (Permutation_sym Hperm)).
  apply List.filter_In. split; [exact Hm|].
  unfold WalkerSpec.accepted. rewrite Hacc. reflexivity.
Qed.

Lemma walker_keeps_accepted_witness :
  Permutation
    (scan Demo.vcs_world default_include_globs default_ignore_dirs false None Demo.root)
    [Demo.report].
Proof.
  destruct (walker_keeps_accepted Demo.vcs_world default_include_globs
              default_ignore_dirs false None Demo.root) as [Hperm _].
  - change (WalkerSpec.matches Demo.vcs_world default_include_globs Demo.root)
      with [Demo.hidden; Demo.report].
    repeat (apply List.Forall_cons; [eexists; vm_compute; reflexivity|]).
    apply List.Forall_nil.
  - exact Hperm.
Defined.

(** ** The index: what an entry holds *)

Module EntryFacts.
Import EntrySpec Notions.

Lemma Ret_inj {A} (a b : A) : Ret a = Ret b -> a = b.
Proof. intros Heq. injection Heq. trivial. Qed.

Lemma hex_digit_quoted (n : N) : (n < 16)%N -> quoted_char (hex_digit n) = true.
Proof.
  intros Hn. unfold quoted_char, always_safe, hex_digit.
  destruct (N.ltb_spec n 10).
  - replace ((48 <=? 48 + n)%N) with true by (symmetry; apply N.leb_le; lia).
    replace ((48 + n <=? 57)%N) with true by (symmetry; apply N.leb_le; lia).
    rewrite !orb_true_r. reflexivity.
  - replace ((65 <=? 55 + n)%N) with true by (symmetry; apply N.leb_le; lia).
    replace ((55 + n <=? 90)%N) with true by (symmetry; apply N.leb_le; lia).
    reflexivity.
Qed.

Lemma quote_byte_chars (b : N) :
  (b < 256)%N -> List.Forall (fun c => quoted_char c = true) (quote_byte (lit "/") b).
Proof.
  intros Hb. unfold quote_byte.
  destruct (always_safe b || _) eqn:Hsafe.
  - constructor; [|constructor]. unfold quoted_char.
    apply orb_true_iff in Hsafe as [Hs|Hs]; [rewrite Hs; reflexivity|].
    change (List.filter (fun c => (c <? 128)%N) (lit "/")) with [47%N] in Hs.
    simpl in Hs. rewrite orb_false_r in Hs. rewrite Hs, orb_true_r. reflexivity.
  - constructor; [reflexivity|].
    constructor; [apply hex_digit_quoted, N.Div0.div_lt_upper_bound; lia|].
    constructor; [apply hex_digit_quoted, N.mod_lt; lia | constructor].
Qed.

(** What [quote] returns is made of unreserved characters, slashes and
    percent escapes. *)
Lemma quote_chars (s q : str) :
  quote s (lit "/") = Ret q -> List.Forall (fun c => quoted_char c = true) q.
Proof.
  unfold quote. destruct s as [|c s]; [intros [= <-]; constructor|].
  destruct (utf8_encode (c :: s)) as [bs|e] eqn:Henc; [|discriminate].
  rewrite bind_Ret. intros [= <-]. apply QuoteFacts.utf8_encode_bytes in Henc.
  unfold quote_from_bytes. induction Henc as [|b bs Hb _ IH]; [constructor|].
  simpl. apply List.Forall_app. split; [apply quote_byte_chars; exact Hb | exact IH].
Qed.

Section Facts.
Context (w : World).

Lemma register_body_entry_for (root p : Path) (index index' : Index) :
  register_body w root p index = Ret index' ->
  exists u m, index' = dict_set index u m /\ entry_for w root p u m.
Proof.
  unfold register_body, entry_for.
  destruct (relative_to p root) as [rel|e] eqn:Hrel; [|discriminate]. rewrite !bind_Ret.
  destruct (quote (as_posix rel) (lit "/")) as [q|e] eqn:Hq; [|discriminate].
  rewrite !bind_Ret.
  destruct (fs_stat w p) as [st|e] eqn:Hst; [|discriminate]. rewrite !bind_Ret.
  destruct (datetime_timestamp w (st_mtime st)) as [mtime|e]; [|discriminate].
  rewrite !bind_Ret.
  destruct (mcp_resource w _ _ _ _) as [[]|e]; [|discriminate]. rewrite !bind_Ret.
  intros Heq. apply Ret_inj in Heq. do 2 eexists. split; [symmetry; exact Heq|].
  exists rel, q, st.
  split; [reflexivity|]. split; [exact Hq|]. split; [reflexivity|].
  split; [reflexivity|]. split; [reflexivity|]. split; [reflexivity|].
  split; [reflexivity|]. simpl.
  destruct (guess_type w (name p)) as [[|c mime]|]; intros Hnil;
    vm_compute in Hnil; discriminate Hnil.
Qed.

Lemma register_loop_entry_for (root : Path) (ps : list Path) (index : Index)
    (u : str) (m : Meta) :
  In (u, m) (fold_left (register_one w root) ps index) ->
  In (u, m) index \/ exists p, In p ps /\ entry_for w root p u m.
Proof.
  revert index. induction ps as [|p ps IH]; intros index; simpl; [auto|].
  intros Hin. apply IH in Hin as [Hin|(q & Hq & Hentry)].
  - unfold register_one in Hin.
    destruct (register_body w root p index) as [index'|e] eqn:Hbody; [|auto].
    apply register_body_entry_for in Hbody as (u' & m' & -> & Hentry).
    apply IndexFacts.dict_set_In in Hin as [Heq|Hin]; [|auto].
    right. exists p. split; [left; reflexivity|]. congruence.
  - right. exists q. split; [right; assumption | assumption].
Qed.

End Facts.
End EntryFacts.

(** X3: in the index a registration builds, the URIs are pairwise
    different, and every entry belongs to a file of the walk: its display
    name is the file's path relative to the root in forward-slash form,
    its URI is [workspace://] followed by the percent-encoding of that
    name and holds only unreserved characters, slashes and percent
    escapes, its size is the file's, and its MIME type is not empty. *)
Theorem index_entries_well_formed (w : World) (include_globs ignore_dirs : list str)
    (follow_symlinks : bool) (max_bytes : option Z)
    (workspace : str) (root : Path) (index : Index) :
  fs_expanduser w (Path_of_str workspace) ≫= fs_resolve w = Ret root ->
  register_file_resources w include_globs ignore_dirs follow_symlinks max_bytes workspace
  = Ret index ->
  NoDup (List.map fst index)
  /\ (forall u m, In (u, m) index ->
        exists p q,
          In p (scan w include_globs ignore_dirs follow_symlinks max_bytes root)
          /\ EntrySpec.entry_for w root p u m
          /\ quote (meta_name m) (lit "/") = Ret q
          /\ u = lit "workspace://" ++ q
          /\ List.Forall (fun c => Notions.quoted_char c = true) q).
Proof.
  intros Hroot Hreg. split.
  { eapply RegisteredFacts.register_keys. exact Hreg. }
  unfold register_file_resources in Hreg. rewrite Hroot, bind_Ret in Hreg.
  destruct (fs_exists w root) as [ex|e]; [|discriminate]. rewrite bind_Ret in Hreg.
  destruct (if ex then fs_is_dir w root else Ret false) as [isd|e]; [|discriminate].
  rewrite bind_Ret in Hreg.
  destruct (negb ex || negb isd); [discriminate|]. injection Hreg as <-.
  intros u m Hin.
  apply EntryFacts.register_loop_entry_for in Hin as [[]|(p & Hp & Hentry)].
  pose proof Hentry as (rel & q & st & Hrel & Hq & Hu & Hst & Hname & Hpath & Hsize & Hmime).
  exists p, q. split; [exact Hp|]. split; [exact Hentry|].
  split; [rewrite Hname; exact Hq|]. split; [exact Hu|].
  eapply EntryFacts.quote_chars. exact Hq.
Qed.

Lemma index_entries_well_formed_witness :
  NoDup (List.map fst Demo.docs_index)
  /\ exists q,
       quote (lit "docs/report 1.pdf") (lit "/") = Ret q
       /\ lit "workspace://docs/report%201.pdf" = lit "workspace://" ++ q
       /\ List.Forall (fun c => Notions.quoted_char c = true) q.
Proof.
  destruct (index_entries_well_formed Demo.docs_world default_include_globs
              default_ignore_dirs false None (lit "/ws") Demo.root Demo.docs_index
              eq_refl eq_refl) as [Hkeys Hall].
  split; [exact Hkeys|].
  destruct (Hall (lit "workspace://docs/report%201.pdf")
              (MkMeta (lit "docs/report 1.pdf") (lit "/ws/docs/report 1.pdf") 1000
                      (PyFloat.of_Z 1700000012) (lit "application/pdf")))
    as (p & q & _ & _ & Hq & Hu & Hchars).
  - left. vm_compute. reflexivity.
  - exists q. repeat split; assumption.
Defined.

(** X4: two different files under one root never get the same URI. *)
Theorem file_uri_injective (root p q : Path) (u : str) :
  UriSpec.wf_path p -> UriSpec.wf_path q ->
  file_uri root p = Ret u -> file_uri root q = Ret u ->
  p = q.
Proof.
  intros Hp Hq Hup Huq.
  apply (IndexFacts.file_uri_resolves root p u Hp) in Hup.
  apply (IndexFacts.file_uri_resolves root q u Hq) in Huq.
  congruence.
Qed.

Lemma file_uri_injective_witness :
  file_uri Demo.root Demo.report = Ret (lit "workspace://docs/report%201.pdf")
  /\ file_uri Demo.root Demo.draft <> Ret (lit "workspace://docs/report%201.pdf").
Proof.
  assert (Hr : file_uri Demo.root Demo.report = Ret (lit "workspace://docs/report%201.pdf"))
    by (vm_compute; reflexivity).
  split; [exact Hr|]. intros Hd. destruct demo_paths_wf as [Hwr Hwd].
  pose proof (file_uri_injective Demo.root Demo.report Demo.draft _ Hwr Hwd Hr Hd) as Heq.
  discriminate Heq.
Defined.

(** ** Registration: the workspace check and the empty workspace *)

Module RegistrationFacts.

Section Facts.
Context (w : World) (include_globs ignore_dirs : list str)
        (follow_symlinks : bool) (max_bytes : option Z).

(** With no match at all, the walker returns nothing. *)
Lemma scan_no_matches (root : Path) :
  WalkerSpec.matches w include_globs root = [] ->
  scan w include_globs ignore_dirs follow_symlinks max_bytes root = [].
Proof.
  intros Hm.
  destruct (WalkerFacts.scan_patterns_sublist w include_globs ignore_dirs follow_symlinks
              max_bytes root) as [Hsub _].
  rewrite Hm in Hsub. apply sublist_nil_r in Hsub.
  unfold scan. rewrite Hsub. reflexivity.
Qed.

End Facts.
End RegistrationFacts.



(** X6: a workspace in which no include pattern yields a path is
    registered as the empty index, and the lexical ranker then answers
    every query that has a token with the no-resources sentinel. *)
Theorem empty_workspace_no_resources `{Unicode} (w : World)
    (include_globs ignore_dirs : list str) (follow_symlinks : bool) (max_bytes : option Z)
    (workspace : str) (root : Path) (index : Index) (query : str) :
  fs_expanduser w (Path_of_str workspace) ≫= fs_resolve w = Ret root ->
  WalkerSpec.matches w include_globs root = [] ->
  register_file_resources w include_globs ignore_dirs follow_symlinks max_bytes workspace
  = Ret index ->
  Ra2.tokenize (str_lower query) <> ∅ ->
  index = []
  /\ Ra2.locate_relevant_resouces index query = lit "No resources available to search.".
Proof.
  intros Hroot Hm Hreg Hq. unfold register_file_resources in Hreg.
  rewrite Hroot, bind_Ret in Hreg.
  destruct (fs_exists w root) as [ex|e]; [|discriminate]. rewrite bind_Ret in Hreg.
  destruct (if ex then fs_is_dir w root else Ret false) as [isd|e]; [|discriminate].
  rewrite bind_Ret in Hreg.
  destruct (negb ex || negb isd); [discriminate|].
  rewrite (RegistrationFacts.scan_no_matches w _ _ _ _ root Hm) in Hreg.
  simpl in Hreg. injection Hreg as <-. split; [reflexivity|].
  apply SentinelFacts.locate_empty_index. exact Hq.
Qed.

Lemma empty_workspace_no_resources_witness :
  @Ra2.locate_relevant_resouces ascii_unicode [] (lit "report")
  = lit "No resources available to search.".
Proof.
  refine (proj2 (@empty_workspace_no_resources ascii_unicode
                   (Demo.world [] (fun _ => []) []) default_include_globs
                   default_ignore_dirs false None (lit "/ws") Demo.root []
                   (lit "report") eq_refl eq_refl eq_refl _)).
  vm_compute. discriminate.
Defined.

(** ** Lexical ranker: the listing *)

Module ListingFacts.
Import KeyOrder Ra2 Notions.

Lemma StronglySorted_weaken {A} (R R' : A -> A -> Prop) (P : A -> Prop) (l : list A) :
  (forall x y, P x -> P y -> R x y -> R' x y) ->
  List.Forall P l -> StronglySorted R l -> StronglySorted R' l.
Proof.
  intros Himp HP Hs. induction Hs as [|x l Hs IH Hx]; [constructor|].
  apply List.Forall_cons_iff in HP as [Px Pl].
  constructor; [apply IH; exact Pl|].
  rewrite List.Forall_forall in Hx, Pl |- *. intros y Hy. apply Himp; auto.
Qed.

(** A candidate that does not come after another has at least its score. *)
Lemma key_le_score (x y : Candidate) :
  timed x -> timed y -> PySort.key_le sort_key key_lt x y -> score y <= score x.
Proof.
  intros Hx Hy. unfold PySort.key_le.
  rewrite (RankFacts.cand_lt_cmp y x Hy Hx), (RankFacts.cmp_sort_key y x Hy Hx).
  destruct (Z.compare_spec (score x) (score y)) as [->|Hlt|Hgt]; [lia | | lia].
  discriminate.
Qed.

Section Facts.
Context `{Unicode}.

Lemma candidates_timed (q_tokens : gset str) (index : Index) :
  timed_index index -> List.Forall timed (List.map (candidate_of q_tokens) index).
Proof.
  intros Ht. apply List.Forall_map. revert Ht. apply List.Forall_impl.
  intros [u m] Hm. exact Hm.
Qed.

Lemma ranked_timed (index : Index) (query : str) :
  timed_index index -> List.Forall timed (ranked index query).
Proof.
  intros Ht. unfold ranked.
  apply (Permutation_Forall (x := List.map (candidate_of (tokenize (str_lower query))) index)).
  - symmetry. apply RankingFacts.rank_perm.
  - apply candidates_timed. exact Ht.
Qed.

(** Every candidate of the ranking is the candidate of an index entry. *)
Lemma ranked_In (index : Index) (query : str) (c : Candidate) :
  In c (ranked index query) <->
  exists u m, In (u, m) index /\ c = candidate_of (tokenize (str_lower query)) (u, m).
Proof.
  unfold ranked, rank. rewrite SortFacts.sort_by_In, List.in_map_iff. split.
  - intros ([u m] & <- & Hin). exists u, m. split; [exact Hin | reflexivity].
  - intros (u & m & Hin & ->). exists (u, m). split; [reflexivity | exact Hin].
Qed.

Lemma ranked_length (index : Index) (query : str) :
  List.length (ranked index query) = List.length index.
Proof. unfold ranked, rank. rewrite SortFacts.sort_by_length, List.length_map. reflexivity. Qed.

End Facts.
End ListingFacts.

(** X7: the answer of the lexical ranker to a query with a token over a
    non-empty index is the heading followed by one line for each of the
    first ten candidates of the ranking, never more: the line at position
    [i] carries the number [i], counted from zero, the basename and the
    overlap of the candidate ranked [i]. *)
Theorem listing_top_ten `{Unicode} (index : Index) (query : str) :
  Ra2.tokenize (str_lower query) <> ∅ ->
  index <> [] ->
  exists lines,
    Ra2.locate_relevant_resouces index query
    = join Content.nl (lit "Top candidates:" :: lines)
    /\ List.length lines = Nat.min 10 (List.length index)
    /\ (forall (i : nat) c,
          (i < 10)%nat ->
          Notions.ranked index query !! i = Some c ->
          lines !! i
          = Some (str_of_Z (Z.of_nat i) ++ lit "- filename: `" ++ Ra2.filename c
                  ++ lit "` --- (overlap " ++ str_of_Z (Ra2.score c) ++ lit ")")).
Proof.
  intros Hq Hi.
  exists (imap Ra2.candidate_line (firstn 10 (Notions.ranked index query))).
  split; [apply ScoreFacts.locate_ranked; assumption|]. split.
  - rewrite length_imap, List.length_firstn, ListingFacts.ranked_length. reflexivity.
  - intros i c Hi10 Hc. rewrite list_lookup_imap.
    change (firstn 10 (Notions.ranked index query)) with (take 10 (Notions.ranked index query)).
    rewrite lookup_take_lt by exact Hi10.
    etrans; [exact (f_equal (fmap (Ra2.candidate_line i)) Hc)|]. reflexivity.
Qed.

Lemma listing_top_ten_witness :
  exists lines,
    @Ra2.locate_relevant_resouces ascii_unicode Demo.docs_index (lit "draft notes")
    = join Content.nl (lit "Top candidates:" :: lines)
    /\ List.length lines = 2%nat
    /\ lines !! 0%nat = Some (lit "0- filename: `draft.pdf` --- (overlap 1)").
Proof.
  destruct (@listing_top_ten ascii_unicode Demo.docs_index (lit "draft notes"))
    as (lines & Hloc & Hlen & Hline).
  - vm_compute. discriminate.
  - discriminate.
  - exists lines. split; [exact Hloc|]. split; [exact Hlen|].
    etrans; [apply (Hline 0%nat); [lia | vm_compute; reflexivity]|].
    vm_compute. reflexivity.
Defined.

(** X8: in the ranking the overlap scores never increase: every
    candidate has a score at least that of every candidate listed after
    it, so the first line shows a largest overlap. *)
Theorem ranking_scores_descend `{Unicode} (index : Index) (query : str) :
  Notions.timed_index index ->
  StronglySorted (fun x y => Ra2.score y <= Ra2.score x) (Notions.ranked index query).
Proof.
  intros Ht.
  apply (ListingFacts.StronglySorted_weaken
           (PySort.key_le Ra2.sort_key Ra2.key_lt) _ KeyOrder.timed).
  - intros x y. apply ListingFacts.key_le_score.
  - apply ListingFacts.ranked_timed. exact Ht.
  - apply RankingFacts.rank_sorted. apply ListingFacts.candidates_timed. exact Ht.
Qed.

Lemma ranking_scores_descend_witness :
  StronglySorted (fun x y => Ra2.score y <= Ra2.score x)
    (@Notions.ranked ascii_unicode Demo.docs_index (lit "draft notes"))
  /\ List.map Ra2.score (@Notions.ranked ascii_unicode Demo.docs_index (lit "draft notes"))
     = [1; 0].
Proof.
  split.
  - apply (@ranking_scores_descend ascii_unicode).
    repeat (apply List.Forall_cons; [reflexivity|]). apply List.Forall_nil.
  - vm_compute. reflexivity.
Defined.

(** ** Lexical ranker: the order of the index does not matter *)

Module OrderFreeFacts.
Import KeyOrder Ra2 Notions.

Lemma unique_value (index : Index) (u : str) (m1 m2 : Meta) :
  NoDup (List.map fst index) -> In (u, m1) index -> In (u, m2) index -> m1 = m2.
Proof.
  induction index as [|[k v] index IH]; simpl; [contradiction|].
  intros Hnd H1 H2. apply NoDup_cons in Hnd as [Hk Hnd].
  assert (Hfresh : forall m, In (u, m) index -> k <> u).
  { intros m Hin ->. apply Hk, list_elem_of_In, List.in_map_iff.
    exists (u, m). split; [reflexivity | exact Hin]. }
  destruct H1 as [E1|H1], H2 as [E2|H2].
  - congruence.
  - exfalso. apply (Hfresh m2 H2). congruence.
  - exfalso. apply (Hfresh m1 H1). congruence.
  - apply IH; assumption.
Qed.

Section Facts.
Context `{Unicode}.

(** Two index orders give the same ranking. *)
Lemma ranked_perm (index1 index2 : Index) (query : str) :
  Permutation index1 index2 ->
  NoDup (List.map fst index1) ->
  timed_index index1 ->
  ranked index1 query = ranked index2 query.
Proof.
  intros Hperm Hnd Ht.
  assert (Ht2 : timed_index index2)
    by (unfold timed_index; apply (Permutation_Forall (x := index1)); assumption).
  apply (SortFacts.sorted_perm_unique sort_key key_lt).
  - intros x y Hx Hy Hxy Hyx.
    pose proof (ListingFacts.ranked_timed index1 query Ht) as Htimed.
    rewrite List.Forall_forall in Htimed.
    pose proof (Htimed x Hx) as Tx. pose proof (Htimed y Hy) as Ty.
    apply ListingFacts.ranked_In in Hx as (u1 & m1 & Hin1 & ->).
    apply ListingFacts.ranked_In in Hy as (u2 & m2 & Hin2 & ->).
    destruct (decide (u1 = u2)) as [->|Hne].
    + rewrite (unique_value index1 u2 m1 m2 Hnd Hin1 Hin2). reflexivity.
    + exfalso. unfold PySort.key_le in Hxy, Hyx.
      destruct (RankFacts.cand_lt_total _ _ Tx Ty Hne); congruence.
  - apply RankingFacts.rank_sorted, ListingFacts.candidates_timed. exact Ht.
  - apply RankingFacts.rank_sorted, ListingFacts.candidates_timed. exact Ht2.
  - unfold ranked. rewrite !RankingFacts.rank_perm. apply Permutation_map. exact Hperm.
Qed.

End Facts.
End OrderFreeFacts.

(** X9: the answer of the lexical ranker does not depend on the order in
    which the entries were put into the index: two indexes with the same
    entries, their URIs pairwise different and their times numbers, get
    the same answer to every query. *)
Theorem ranking_ignores_index_order `{Unicode} (index1 index2 : Index) (query : str) :
  Permutation index1 index2 ->
  NoDup (List.map fst index1) ->
  Notions.timed_index index1 ->
  Ra2.locate_relevant_resouces index1 query = Ra2.locate_relevant_resouces index2 query.
Proof.
  intros Hperm Hnd Ht.
  destruct (decide (Ra2.tokenize (str_lower query) = ∅)) as [He|Hne].
  { rewrite !SentinelFacts.locate_empty_tokens by exact He. reflexivity. }
  destruct index1 as [|x index1].
  { apply Permutation_nil in Hperm. subst. reflexivity. }
  assert (Hne2 : index2 <> []).
  { intros ->. symmetry in Hperm. apply Permutation_nil in Hperm. discriminate. }
  rewrite !ScoreFacts.locate_ranked by (assumption || discriminate).
  change (Ra2.rank (List.map (Ra2.candidate_of (Ra2.tokenize (str_lower query))) ?i))
    with (Notions.ranked i query).
  rewrite (OrderFreeFacts.ranked_perm (x :: index1) index2 query Hperm Hnd Ht).
  reflexivity.
Qed.

Lemma ranking_ignores_index_order_witness :
  @Ra2.locate_relevant_resouces ascii_unicode Demo.docs_index (lit "draft")
  = @Ra2.locate_relevant_resouces ascii_unicode (rev Demo.docs_index) (lit "draft").
Proof.
  apply (@ranking_ignores_index_order ascii_unicode).
  - apply Permutation_rev.
  - apply (bool_decide_unpack _). vm_compute. exact I.
  - repeat (apply List.Forall_cons; [reflexivity|]). apply List.Forall_nil.
Defined.

(** X10: the overlap of a candidate lies between zero and the number of
    tokens of the query, is at most the number of tokens of its basename,
    and is zero exactly when the query and the basename share no token. *)
Theorem score_bounds `{U : Unicode} (index : Index) (query : str) (c : Ra2.Candidate) :
  In c (Notions.ranked index query) ->
  let q_tokens := Ra2.tokenize (str_lower query) in
  let name_tokens := Ra2.tokenize (str_lower (Ra2.filename c)) in
  0 <= Ra2.score c <= Z.of_nat (size q_tokens)
  /\ Ra2.score c <= Z.of_nat (size name_tokens)
  /\ (Ra2.score c = 0 <-> forall t, t ∈ q_tokens -> t ∉ name_tokens).
Proof.
  intros Hin. apply ListingFacts.ranked_In in Hin as (u & m & _ & ->). cbv zeta.
  set (Q := Ra2.tokenize (str_lower query)).
  set (T := Ra2.tokenize (str_lower (Ra2.filename (Ra2.candidate_of Q (u, m))))).
  change (Ra2.score (Ra2.candidate_of Q (u, m))) with (Z.of_nat (size (Q ∩ T))).
  clearbody T. clearbody Q.
  assert (H1 : (size (Q ∩ T) <= size Q)%nat)
    by apply subseteq_size, intersection_subseteq_l.
  assert (H2 : (size (Q ∩ T) <= size T)%nat)
    by apply subseteq_size, intersection_subseteq_r.
  split; [lia|]. split; [lia|].
  split.
  - intros Hzero. assert (Hz : size (Q ∩ T) = 0%nat) by lia.
    apply size_empty_iff in Hz. intros t Hq Ht.
    apply (not_elem_of_empty (C := gset str) t). rewrite <- Hz.
    apply elem_of_intersection. split; assumption.
  - intros Hdis. assert (Hz : size (Q ∩ T) = 0%nat).
    { apply size_empty_iff. intros t. split.
      - intros Hin. apply elem_of_intersection in Hin as [Hq Ht].
        exfalso. exact (Hdis t Hq Ht).
      - intros Hin. exfalso. exact (not_elem_of_empty t Hin). }
    lia.
Qed.

Lemma score_bounds_witness :
  let c := Ra2.MkCandidate 1 (lit "workspace://docs/report%201.pdf")
             (MkMeta (lit "docs/report 1.pdf") (lit "/ws/docs/report 1.pdf") 1000
                     (PyFloat.of_Z 1700000012) (lit "application/pdf"))
             (lit "report 1.pdf") in
  In c (@Notions.ranked ascii_unicode Demo.docs_index (lit "Report, please"))
  /\ 0 <= Ra2.score c
     <= Z.of_nat (size (@Ra2.tokenize ascii_unicode
                          (@str_lower ascii_unicode (lit "Report, please")))).
Proof.
  intros c.
  assert (Hin : In c (@Notions.ranked ascii_unicode Demo.docs_index (lit "Report, please")))
    by (vm_compute; left; reflexivity).
  split; [exact Hin|].
  exact (proj1 (@score_bounds ascii_unicode Demo.docs_index (lit "Report, please") c Hin)).
Defined.

(** ** Content accessor: answers to failures *)

Module AnswerFacts.
Import Content.
Section Facts.
Context `{Unicode} (w : World) (args : Args).

(** A relative path whose tests pass reaches the guarded read. *)
Lemma reach_read (path : str) (root po : Path) :
  is_absolute (Path_of_str path) = false ->
  fs_expanduser w (Path_of_str (workspace_directory args)) ≫= fs_resolve w = Ret root ->
  fs_resolve w (joinpath root (Path_of_str path)) = Ret po ->
  fs_exists w po = Ret true ->
  fs_is_file w po = Ret true ->
  obtain_resource_content w args path
  = try_except (read_body w args path po) (read_handler path).
Proof.
  intros Hrel Hroot Hres Hex Hisf. unfold obtain_resource_content.
  rewrite Hroot, bind_Ret, Hrel. simpl negb. cbv iota.
  rewrite Hres, !bind_Ret. simpl load_local. rewrite !bind_Ret, Hex, bind_Ret.
  simpl negb. cbv iota. rewrite Hisf, bind_Ret. reflexivity.
Qed.

(** A relative path that fails a test is answered before any read. *)
Lemma failed_test (path : str) (root po : Path) :
  is_absolute (Path_of_str path) = false ->
  fs_expanduser w (Path_of_str (workspace_directory args)) ≫= fs_resolve w = Ret root ->
  fs_resolve w (joinpath root (Path_of_str path)) = Ret po ->
  (fs_exists w po = Ret false ->
     obtain_resource_content w args path = Ret (lit "File not found: " ++ path))
  /\ (fs_exists w po = Ret true -> fs_is_file w po = Ret false ->
     obtain_resource_content w args path = Ret (lit "Path is not a file: " ++ path)).
Proof.
  intros Hrel Hroot Hres. unfold obtain_resource_content.
  rewrite Hroot, bind_Ret, Hrel. simpl negb. cbv iota.
  rewrite Hres, !bind_Ret. simpl load_local. rewrite !bind_Ret. split.
  - intros Hex. rewrite Hex, bind_Ret. reflexivity.
  - intros Hex Hisf. rewrite Hex, bind_Ret. simpl negb. cbv iota.
    rewrite Hisf, bind_Ret. reflexivity.
Qed.

(** The body of the read on a path that does not name a PDF. *)
Lemma read_body_text (path : str) (po : Path) :
  endswith (str_lower (strip path)) (lit ".pdf") = false ->
  read_body w args path po
  = (content ← fs_read_text w po;
     Ret (lit "Contents of " ++ path ++ lit ":" ++ nl ++ content)).
Proof. intros Hpdf. unfold read_body. rewrite Hpdf. reflexivity. Qed.

End Facts.
End AnswerFacts.

(** X11: for a relative path, as soon as the workspace root and the path
    resolve and the two path tests answer, the accessor returns a
    string: whatever the opening, the PDF extraction or the decoding
    raises is turned into text. *)
Theorem relative_path_answered `{Unicode} (w : World) (args : Args)
    (path : str) (root po : Path) (ex isf : bool) :
  is_absolute (Path_of_str path) = false ->
  fs_expanduser w (Path_of_str (workspace_directory args)) ≫= fs_resolve w = Ret root ->
  fs_resolve w (joinpath root (Path_of_str path)) = Ret po ->
  fs_exists w po = Ret ex ->
  fs_is_file w po = Ret isf ->
  exists answer, Content.obtain_resource_content w args path = Ret answer.
Proof. apply ContentFacts.relative_path_returns. Qed.

Lemma relative_path_answered_witness :
  exists answer,
    @Content.obtain_resource_content ascii_unicode Demo.docs_world
      (Demo.args (ArgInt (-1))) (lit "notes/readme.txt") = Ret answer.
Proof.
  exact (@relative_path_answered ascii_unicode Demo.docs_world (Demo.args (ArgInt (-1)))
           (lit "notes/readme.txt") Demo.root
           (MkPath true [lit "ws"; lit "notes"; lit "readme.txt"]) false false
           eq_refl eq_refl eq_refl eq_refl eq_refl).
Defined.

(** X12: a relative path that does not exist is answered [File not
    found], one that exists without being a regular file [Path is not a
    file]; and when the read of an existing file raises, the answer is
    chosen by the class of the exception: the unsupported-encoding text
    for a decoding error, the permission text for a permission error,
    and [Error reading file:] with the message of the exception for any
    other. *)
Theorem failure_answers `{Unicode} (w : World) (args : Args)
    (path : str) (root po : Path) :
  is_absolute (Path_of_str path) = false ->
  fs_expanduser w (Path_of_str (workspace_directory args)) ≫= fs_resolve w = Ret root ->
  fs_resolve w (joinpath root (Path_of_str path)) = Ret po ->
  (fs_exists w po = Ret false ->
     Content.obtain_resource_content w args path = Ret (lit "File not found: " ++ path))
  /\ (fs_exists w po = Ret true -> fs_is_file w po = Ret false ->
     Content.obtain_resource_content w args path
     = Ret (lit "Path is not a file: " ++ path))
  /\ (forall e,
        fs_exists w po = Ret true -> fs_is_file w po = Ret true ->
        Content.read_body w args path po = Raise e ->
        Content.obtain_resource_content w args path
        = Ret match exn_cls e with
              | UnicodeDecodeError =>
                  lit "File is not text or uses unsupported encoding: " ++ path
              | PermissionError => lit "Permission denied reading: " ++ path
              | _ => lit "Error reading file: " ++ exn_msg e
              end)
  /\ (forall e,
        endswith (str_lower (strip path)) (lit ".pdf") = false ->
        fs_read_text w po = Raise e -> Content.read_body w args path po = Raise e)
  /\ (forall e,
        endswith (str_lower (strip path)) (lit ".pdf") = true ->
        fs_pdf_reader w po = Raise e
        \/ (exists pages, fs_pdf_reader w po = Ret (MkPdf pages (Some e))) ->
        Content.read_body w args path po = Raise e).
Proof.
  intros Hrel Hroot Hres.
  destruct (AnswerFacts.failed_test w args path root po Hrel Hroot Hres) as [Hmiss Hnot].
  split; [exact Hmiss|]. split; [exact Hnot|]. split; [|split].
  - intros e Hex Hisf Hread.
    rewrite (AnswerFacts.reach_read w args path root po Hrel Hroot Hres Hex Hisf), Hread.
    unfold try_except, Content.read_handler. destruct (exn_cls e); reflexivity.
  - intros e Hpdf Htext. rewrite AnswerFacts.read_body_text by exact Hpdf.
    rewrite Htext. reflexivity.
  - intros e Hpdf [Hopen|[pages Hopen]]; unfold Content.read_body; rewrite Hpdf, Hopen;
      reflexivity.
Qed.

Lemma failure_answers_witness :
  @Content.obtain_resource_content ascii_unicode Demo.docs_world
    (Demo.args (ArgInt (-1))) (lit "notes/missing.pdf")
  = Ret (lit "File not found: notes/missing.pdf").
Proof.
  exact (proj1 (@failure_answers ascii_unicode Demo.docs_world (Demo.args (ArgInt (-1)))
                  (lit "notes/missing.pdf") Demo.root
                  (MkPath true [lit "ws"; lit "notes"; lit "missing.pdf"])
                  eq_refl eq_refl eq_refl) eq_refl).
Defined.

(** X13: when [limit_text] is no integer literal, [int(args.limit_text)]
    raises inside the per-page [try] for every page that has text, so a
    PDF read returns the header line alone. *)
Theorem bad_limit_drops_pages `{Unicode} (w : World) (args : Args)
    (path : str) (root po : Path) (pages : list (result str)) (e : exn) :
  is_absolute (Path_of_str path) = false ->
  endswith (str_lower (strip path)) (lit ".pdf") = true ->
  fs_expanduser w (Path_of_str (workspace_directory args)) ≫= fs_resolve w = Ret root ->
  fs_resolve w (joinpath root (Path_of_str path)) = Ret po ->
  fs_exists w po = Ret true ->
  fs_is_file w po = Ret true ->
  fs_pdf_reader w po = Ret (MkPdf pages None) ->
  py_int (limit_text args) = Raise e ->
  Content.obtain_resource_content w args path
  = Ret (lit "Contents of " ++ path ++ lit ":" ++ Content.nl).
Proof.
  intros Hrel Hpdf Hroot Hres Hex Hisf Hdoc Hlim.
  rewrite (AnswerFacts.reach_read w args path root po Hrel Hroot Hres Hex Hisf).
  unfold Content.read_body. rewrite Hpdf, Hdoc, bind_Ret. simpl pdf_abort. cbv iota.
  simpl pdf_pages. rewrite (LimitFacts.extract_pages_bad_limit args e) by exact Hlim.
  change (join Content.nl []) with (@nil codepoint). rewrite app_nil_r. reflexivity.
Qed.

Lemma bad_limit_drops_pages_witness :
  @Content.obtain_resource_content ascii_unicode Demo.docs_world
    (Demo.args (ArgStr (lit "fifty"))) (lit "docs/report 1.pdf")
  = Ret (lit "Contents of docs/report 1.pdf:" ++ Content.nl).
Proof.
  etrans; [exact (@bad_limit_drops_pages ascii_unicode Demo.docs_world
                    (Demo.args (ArgStr (lit "fifty"))) (lit "docs/report 1.pdf")
                    Demo.root Demo.report [Ret Demo.page200]
                    (MkExn ValueError (lit "invalid literal for int() with base 10"))
                    eq_refl eq_refl eq_refl eq_refl eq_refl eq_refl eq_refl eq_refl)|].
  vm_compute. reflexivity.
Defined.

(** X14: the limit concerns PDF pages only: a file whose name does not
    end in [.pdf] is returned whole after the header line, whatever
    [limit_text] is. *)
Theorem text_file_not_limited `{Unicode} (w : World) (args : Args)
    (path : str) (root po : Path) (content : str) :
  is_absolute (Path_of_str path) = false ->
  endswith (str_lower (strip path)) (lit ".pdf") = false ->
  fs_expanduser w (Path_of_str (workspace_directory args)) ≫= fs_resolve w = Ret root ->
  fs_resolve w (joinpath root (Path_of_str path)) = Ret po ->
  fs_exists w po = Ret true ->
  fs_is_file w po = Ret true ->
  fs_read_text w po = Ret content ->
  Content.obtain_resource_content w args path
  = Ret (lit "Contents of " ++ path ++ lit ":" ++ Content.nl ++ content).
Proof.
  intros Hrel Hpdf Hroot Hres Hex Hisf Htext.
  rewrite (AnswerFacts.reach_read w args path root po Hrel Hroot Hres Hex Hisf).
  rewrite AnswerFacts.read_body_text by exact Hpdf. rewrite Htext. reflexivity.
Qed.

Lemma text_file_not_limited_witness :
  @Content.obtain_resource_content ascii_unicode DemoText.text_world
    (Demo.args (ArgInt 5)) (lit "notes/readme.txt")
  = Ret (lit "Contents of notes/readme.txt:" ++ Content.nl ++ lit "hello world").
Proof.
  etrans; [exact (@text_file_not_limited ascii_unicode DemoText.text_world
                    (Demo.args (ArgInt 5)) (lit "notes/readme.txt")
                    Demo.root DemoText.readme (lit "hello world")
                    eq_refl eq_refl eq_refl eq_refl eq_refl eq_refl eq_refl)|].
  vm_compute. reflexivity.
Defined.

(** ** Similarity ranker: sentinels and rows *)

Module BlankFacts.
Import Notions.

Lemma lstrip_head (s : str) (c : codepoint) (t : str) :
  lstrip s = c :: t -> is_space c = false.
Proof.
  induction s as [|x s IH]; simpl; [discriminate|].
  destruct (is_space x) eqn:Hx; [exact IH|]. intros [= <- _]. exact Hx.
Qed.

Lemma lstrip_nil_iff (s : str) : lstrip s = [] <-> blank s.
Proof.
  unfold blank. induction s as [|x s IH]; simpl.
  - split; [constructor | reflexivity].
  - destruct (is_space x) eqn:Hx.
    + rewrite IH. split; [intros Hs; constructor; assumption|].
      intros Hs. apply List.Forall_cons_iff in Hs as [_ Hs]. exact Hs.
    + split; [discriminate|]. intros Hs.
      apply List.Forall_cons_iff in Hs as [Hs _]. congruence.
Qed.

Lemma rev_nil_inv {A} (l : list A) : rev l = [] -> l = [].
Proof.
  intros Hr. rewrite <- (List.rev_involutive l), Hr. reflexivity.
Qed.

(** Stripping leaves nothing exactly of the strings of white space. *)
Lemma strip_nil_iff (s : str) : strip s = [] <-> blank s.
Proof.
  unfold strip. split.
  - intros Hs. apply rev_nil_inv, lstrip_nil_iff in Hs.
    apply lstrip_nil_iff. destruct (lstrip s) as [|c t] eqn:Hl; [reflexivity|].
    exfalso. pose proof (lstrip_head s c t Hl) as Hc.
    unfold blank in Hs. apply List.Forall_rev in Hs.
    rewrite List.rev_involutive in Hs.
    apply List.Forall_cons_iff in Hs as [Hs _]. congruence.
  - intros Hs. apply lstrip_nil_iff in Hs. rewrite Hs. reflexivity.
Qed.

Lemma truthy_strip (s : str) : truthy (strip s) = false <-> blank s.
Proof.
  rewrite <- strip_nil_iff. destruct (strip s); simpl; split; congruence.
Qed.

(** Without a collection, a query that is not blank gets the
    unavailable-store text. *)
Lemma no_collection (query : str) :
  ~ blank query ->
  Ra3.locate_relevant_resources None query
  = lit "ChromaDB collection not available. Please check the database path.".
Proof.
  intros Hnb. unfold Ra3.locate_relevant_resources.
  destruct (truthy (strip query)) eqn:Ht; [reflexivity|].
  exfalso. apply Hnb, truthy_strip. exact Ht.
Qed.

End BlankFacts.

(** X15: the similarity ranker answers a query of white space only with
    [Query is empty.], before it looks at the store; any other query
    gets the unavailable-store text when no collection is set, the text
    [Error querying ChromaDB:] with the message when the store raises,
    and the no-documents text when the store returns no document. *)
Theorem similarity_sentinels (chroma_collection : option Ra3.Collection) (query : str) :
  (Notions.blank query ->
     Ra3.locate_relevant_resources chroma_collection query = lit "Query is empty.")
  /\ (~ Notions.blank query ->
      match chroma_collection with
      | None =>
          Ra3.locate_relevant_resources chroma_collection query
          = lit "ChromaDB collection not available. Please check the database path."
      | Some collection =>
          match Ra3.coll_query collection query 10 with
          | Raise e =>
              Ra3.locate_relevant_resources chroma_collection query
              = lit "Error querying ChromaDB: " ++ exn_msg e
          | Ret results =>
              Ra3.first_or_empty (Ra3.documents results) = [] ->
              Ra3.locate_relevant_resources chroma_collection query
              = lit "No relevant documents found in the database."
          end
      end).
Proof.
  split.
  - intros Hb. apply BlankFacts.truthy_strip in Hb.
    unfold Ra3.locate_relevant_resources. rewrite Hb. reflexivity.
  - intros Hnb.
    assert (Ht : truthy (strip query) = true).
    { destruct (truthy (strip query)) eqn:Ht; [reflexivity|].
      exfalso. apply Hnb, BlankFacts.truthy_strip. exact Ht. }
    unfold Ra3.locate_relevant_resources. rewrite Ht. simpl negb. cbv iota.
    destruct chroma_collection as [collection|]; [|reflexivity].
    destruct (Ra3.coll_query collection query 10) as [results|e]; [|reflexivity].
    intros Hdocs. rewrite bind_Ret, Hdocs. reflexivity.
Qed.

Lemma similarity_sentinels_witness :
  Ra3.locate_relevant_resources (Some Demo.collection) [32%N; 9%N; 10%N]
  = lit "Query is empty."
  /\ Ra3.locate_relevant_resources (Some DemoText.other_collection) (lit "governance")
     = lit "Error querying ChromaDB: never asked".
Proof.
  split.
  - apply (proj1 (similarity_sentinels (Some Demo.collection) [32%N; 9%N; 10%N])).
    repeat constructor.
  - apply (proj2 (similarity_sentinels (Some DemoText.other_collection) (lit "governance"))).
    intros Hb. apply List.Forall_cons_iff in Hb as [Hb _]. vm_compute in Hb. discriminate.
Defined.

(** X16: the similarity ranker lists as many rows as the shortest of the
    three lists of identifiers, distances and metadata the store returns;
    in particular, an answer with documents but without distances (or
    without metadata) is listed as the heading alone. *)
Theorem similarity_rows (collection : Ra3.Collection) (query : str)
    (results : Ra3.QueryResult) :
  ~ Notions.blank query ->
  Ra3.coll_query collection query 10 = Ret results ->
  Ra3.first_or_empty (Ra3.documents results) <> [] ->
  List.length (Ra3.result_lines results)
  = Nat.min (List.length (List.hd [] (Ra3.ids results)))
      (Nat.min (List.length (Ra3.first_or_empty (Ra3.distances results)))
               (List.length (Ra3.first_or_empty (Ra3.metadatas results))))
  /\ (Ra3.distances results = None \/ Ra3.metadatas results = None ->
      Ra3.locate_relevant_resources (Some collection) query = lit "Top candidates:").
Proof.
  intros Hnb Hres Hdocs.
  assert (Ht : truthy (strip query) = true).
  { destruct (truthy (strip query)) eqn:Ht; [reflexivity|].
    exfalso. apply Hnb, BlankFacts.truthy_strip. exact Ht. }
  assert (Hlen : List.length (Ra3.result_lines results)
                 = Nat.min (List.length (List.hd [] (Ra3.ids results)))
                     (Nat.min (List.length (Ra3.first_or_empty (Ra3.distances results)))
                              (List.length (Ra3.first_or_empty (Ra3.metadatas results))))).
  { unfold Ra3.result_lines. rewrite length_imap, SimilarityFacts.zip3_length.
    destruct (Ra3.ids results); reflexivity. }
  split; [exact Hlen|]. intros Hnone.
  rewrite (SimilarityFacts.locate_lines collection query results Ht Hres Hdocs).
  assert (Hz : List.length (Ra3.result_lines results) = 0%nat).
  { rewrite Hlen. destruct Hnone as [-> | ->]; simpl; lia. }
  destruct (Ra3.result_lines results); [reflexivity | discriminate].
Qed.

Lemma similarity_rows_witness :
  Ra3.locate_relevant_resources (Some DemoText.bare_collection) (lit "governance")
  = lit "Top candidates:".
Proof.
  refine (proj2 (similarity_rows DemoText.bare_collection (lit "governance") _ _ eq_refl _)
            (or_introl eq_refl)).
  - intros Hb. apply List.Forall_cons_iff in Hb as [Hb _]. vm_compute in Hb. discriminate.
  - discriminate.
Defined.

(** ** ra-3: start-up *)

(** X17: after a start-up in which the store cannot be opened, cannot
    list its collections or lists none, no collection is set and every
    query that is not blank gets the unavailable-store text; when the
    store lists collections, the first one is set and answers the
    queries, the others are never asked. *)
Theorem startup_collection (persistent_client : str -> result Ra3Init.Client)
    (args : Args) (query : str) :
  let g := Ra3Init.initialize_chromadb persistent_client args Ra3Init.unset in
  (forall client first others,
     persistent_client (chroma_db_path args) = Ret client ->
     Ra3Init.list_collections client = Ret (first :: others) ->
     Ra3Init.chroma_collection g = Some first
     /\ Ra3.locate_relevant_resources (Ra3Init.chroma_collection g) query
        = Ra3.locate_relevant_resources (Some first) query)
  /\ ((forall client first others,
         persistent_client (chroma_db_path args) = Ret client ->
         Ra3Init.list_collections client <> Ret (first :: others)) ->
      Ra3Init.chroma_collection g = None
      /\ (~ Notions.blank query ->
          Ra3.locate_relevant_resources (Ra3Init.chroma_collection g) query
          = lit "ChromaDB collection not available. Please check the database path.")).
Proof.
  intros g. subst g. unfold Ra3Init.initialize_chromadb. split.
  - intros client first others Hopen Hlist. rewrite Hopen, Hlist. simpl.
    split; reflexivity.
  - intros Hnone.
    assert (Hc : Ra3Init.chroma_collection
                   match persistent_client (chroma_db_path args) with
                   | Ret client =>
                       match Ra3Init.list_collections client with
                       | Ret [] =>
                           {| Ra3Init.chroma_client := Some client;
                              Ra3Init.chroma_collection :=
                                Ra3Init.chroma_collection Ra3Init.unset |}
                       | Ret (first :: _) =>
                           {| Ra3Init.chroma_client := Some client;
                              Ra3Init.chroma_collection := Some first |}
                       | Raise _ => Ra3Init.unset
                       end
                   | Raise _ => Ra3Init.unset
                   end = None).
    { destruct (persistent_client (chroma_db_path args)) as [client|e] eqn:Hopen;
        [|reflexivity].
      destruct (Ra3Init.list_collections client) as [[|first others]|e] eqn:Hlist;
        try reflexivity.
      exfalso. exact (Hnone client first others eq_refl Hlist). }
    split; [exact Hc|]. intros Hnb. rewrite Hc.
    exact (BlankFacts.no_collection query Hnb).
Qed.

Lemma startup_collection_witness :
  Ra3.locate_relevant_resources
    (Ra3Init.chroma_collection
       (Ra3Init.initialize_chromadb DemoText.full_store (Demo.args (ArgInt (-1)))
          Ra3Init.unset))
    (lit "governance")
  = Ra3.locate_relevant_resources (Some Demo.collection) (lit "governance")
  /\ Ra3.locate_relevant_resources
       (Ra3Init.chroma_collection
          (Ra3Init.initialize_chromadb DemoText.no_store (Demo.args (ArgInt (-1)))
             Ra3Init.unset))
       (lit "governance")
     = lit "ChromaDB collection not available. Please check the database path.".
Proof.
  split.
  - exact (proj2 (proj1 (startup_collection DemoText.full_store (Demo.args (ArgInt (-1)))
                           (lit "governance"))
                   _ Demo.collection [DemoText.other_collection] eq_refl eq_refl)).
  - refine (proj2 (proj2 (startup_collection DemoText.no_store (Demo.args (ArgInt (-1)))
                            (lit "governance")) _) _).
    + intros client first others Hopen. discriminate Hopen.
    + intros Hb. apply List.Forall_cons_iff in Hb as [Hb _]. vm_compute in Hb. discriminate.
Defined.

(** X18: a later call of [initialize_chromadb] that opens a store
    without collections sets the new client but leaves the collection of
    the earlier call in place; a later call that fails clears both. *)
Theorem reinitialize_keeps_stale_collection
    (persistent_client : str -> result Ra3Init.Client) (args : Args) (g : Ra3Init.Globals) :
  (forall client,
     persistent_client (chroma_db_path args) = Ret client ->
     Ra3Init.list_collections client = Ret [] ->
     Ra3Init.initialize_chromadb persistent_client args g
     = {| Ra3Init.chroma_client := Some client;
          Ra3Init.chroma_collection := Ra3Init.chroma_collection g |})
  /\ ((forall client, persistent_client (chroma_db_path args) = Ret client ->
                      exists e, Ra3Init.list_collections client = Raise e) ->
      Ra3Init.initialize_chromadb persistent_client args g = Ra3Init.unset).
Proof.
  unfold Ra3Init.initialize_chromadb. split.
  - intros client Hopen Hlist. rewrite Hopen, Hlist. reflexivity.
  - intros Hfail. destruct (persistent_client (chroma_db_path args)) as [client|e];
      [|reflexivity].
    destruct (Hfail client eq_refl) as [e ->]. reflexivity.
Qed.

Lemma reinitialize_keeps_stale_collection_witness :
  Ra3Init.chroma_collection
    (Ra3Init.initialize_chromadb DemoText.empty_store (Demo.args (ArgInt (-1)))
       (Ra3Init.initialize_chromadb DemoText.full_store (Demo.args (ArgInt (-1)))
          Ra3Init.unset))
  = Some Demo.collection.
Proof.
  rewrite (proj1 (reinitialize_keeps_stale_collection DemoText.empty_store
                    (Demo.args (ArgInt (-1)))
                    (Ra3Init.initialize_chromadb DemoText.full_store
                       (Demo.args (ArgInt (-1))) Ra3Init.unset))
             _ eq_refl eq_refl).
  reflexivity.
Defined.

(** ** ra-1: what gets registered *)

Module Ra1Facts.
Import Ra1.
Section Facts.
Context (w : World).

Lemma register_path_some (root p : Path) (r : Resource) :
  register_path w root p = Ret (Some r) ->
  fs_is_file w p = Ret true
  /\ file_uri root p = Ret (res_uri r)
  /\ res_target r = p
  /\ res_name r = name p.
Proof.
  unfold register_path, file_uri.
  destruct (fs_is_file w p) as [[|]|e]; try discriminate. rewrite bind_Ret. cbv iota.
  destruct (relative_to p root) as [rel|e]; [|discriminate]. rewrite !bind_Ret.
  destruct (quote (as_posix rel) (lit "/")) as [q|e]; [|discriminate]. rewrite !bind_Ret.
  destruct (mcp_resource w _ _ _ _) as [[]|e]; [|discriminate]. rewrite bind_Ret.
  intros Heq. apply EntryFacts.Ret_inj in Heq.
  assert (Hr : r = MkResource (lit "workspace://" ++ q) p (name p)) by congruence.
  rewrite Hr. repeat split.
Qed.

(** The loop registers the files of a first stretch of the paths, and
    stops before the first path at which something raises. *)
Lemma register_paths_prefix (root : Path) (ps : list Path) (registered : list Resource)
    (regs : list Resource) (out : option exn) :
  register_paths w root ps registered = (regs, out) ->
  exists done rest,
    ps = done ++ rest
    /\ regs = registered ++ resources_of w root done
    /\ match out with
       | None => rest = []
       | Some e => exists p rest', rest = p :: rest' /\ register_path w root p = Raise e
       end.
Proof.
  revert registered. induction ps as [|p ps IH]; intros registered; simpl.
  - intros [= <- <-]. exists [], []. split; [reflexivity|].
    split; [symmetry; apply app_nil_r | reflexivity].
  - destruct (register_path w root p) as [[r|]|e] eqn:Hp.
    + intros Hrest. apply IH in Hrest as (done & rest & -> & -> & Hout).
      exists (p :: done), rest. split; [reflexivity|]. split; [|exact Hout].
      unfold resources_of. simpl. rewrite Hp. rewrite <- app_assoc. reflexivity.
    + intros Hrest. apply IH in Hrest as (done & rest & -> & -> & Hout).
      exists (p :: done), rest. split; [reflexivity|]. split; [|exact Hout].
      unfold resources_of. simpl. rewrite Hp. reflexivity.
    + intros [= <- <-]. exists [], (p :: ps). split; [reflexivity|].
      split; [symmetry; apply app_nil_r|]. exists p, ps. split; [reflexivity | exact Hp].
Qed.

(** The loop stops at the first path at which the body raises. *)
Lemma register_paths_raise (root : Path) (done rest : list Path) (p : Path) (e : exn)
    (registered : list Resource) :
  List.Forall (fun q => returns (register_path w root q)) done ->
  register_path w root p = Raise e ->
  register_paths w root (done ++ p :: rest) registered
  = (registered ++ resources_of w root done, Some e).
Proof.
  intros Hdone Hp. revert registered.
  induction Hdone as [|q done [o Hq] _ IH]; intros registered; simpl.
  - rewrite Hp, app_nil_r. reflexivity.
  - unfold resources_of. simpl. rewrite Hq. destruct o as [r|].
    + rewrite IH, <- app_assoc. reflexivity.
    + apply IH.
Qed.

(** Without such a path the loop runs to its end. *)
Lemma register_paths_all (root : Path) (ps : list Path) (registered : list Resource) :
  List.Forall (fun q => returns (register_path w root q)) ps ->
  register_paths w root ps registered = (registered ++ resources_of w root ps, None).
Proof.
  intros Hall. revert registered.
  induction Hall as [|q ps [o Hq] _ IH]; intros registered; simpl.
  - rewrite app_nil_r. reflexivity.
  - unfold resources_of. simpl. rewrite Hq. destruct o as [r|].
    + rewrite IH, <- app_assoc. reflexivity.
    + apply IH.
Qed.

Lemma resources_of_In (root : Path) (ps : list Path) (r : Resource) :
  In r (resources_of w root ps) ->
  In (res_target r) ps /\ register_path w root (res_target r) = Ret (Some r).
Proof.
  unfold resources_of. rewrite List.in_flat_map. intros (p & Hp & Hr).
  destruct (register_path w root p) as [[r'|]|e] eqn:Hreg; try contradiction.
  destruct Hr as [<-|[]].
  destruct (register_path_some root p r' Hreg) as (_ & _ & -> & _).
  split; assumption.
Qed.

(** What [register_file_resources] leaves behind, once the root is
    accepted. *)
Lemma register_after_check (workspace : str) (root : Path) :
  fs_expanduser w (Path_of_str workspace) ≫= fs_resolve w = Ret root ->
  fs_exists w root = Ret true ->
  fs_is_dir w root = Ret true ->
  register_file_resources w workspace
  = match register_paths w root (fst (rglob w root (lit "*.pdf"))) [] with
    | (registered, Some e) => (registered, Some e)
    | (registered, None) => (registered, snd (rglob w root (lit "*.pdf")))
    end.
Proof.
  intros Hroot Hex Hisd. unfold register_file_resources.
  rewrite Hroot, bind_Ret, Hex, bind_Ret, Hisd, bind_Ret. simpl negb. simpl orb. cbv iota.
  destruct (rglob w root (lit "*.pdf")) as [ps stop]. reflexivity.
Qed.

End Facts.
End Ra1Facts.

(** X19: every resource ra-1 registers is a regular file that
    [rglob("*.pdf")] yielded; its display name is the file's basename,
    its URI is the one ra-2 gives the file, and resolving the URI gives
    the file back. *)
Theorem ra1_resources (w : World) (workspace : str) (root : Path) (r : Ra1.Resource) :
  fs_expanduser w (Path_of_str workspace) ≫= fs_resolve w = Ret root ->
  fs_exists w root = Ret true ->
  fs_is_dir w root = Ret true ->
  In r (fst (Ra1.register_file_resources w workspace)) ->
  In (Ra1.res_target r) (fst (Ra1.rglob w root (lit "*.pdf")))
  /\ fs_is_file w (Ra1.res_target r) = Ret true
  /\ Ra1.res_name r = name (Ra1.res_target r)
  /\ file_uri root (Ra1.res_target r) = Ret (Ra1.res_uri r)
  /\ (UriSpec.wf_path (Ra1.res_target r) ->
      UriSpec.uri_to_path root (Ra1.res_uri r) = Some (Ra1.res_target r)).
Proof.
  intros Hroot Hex Hisd Hin.
  rewrite (Ra1Facts.register_after_check w workspace root Hroot Hex Hisd) in Hin.
  destruct (Ra1.register_paths w root (fst (Ra1.rglob w root (lit "*.pdf"))) [])
    as [regs out] eqn:Hloop.
  assert (Hin' : In r regs) by (destruct out; exact Hin).
  apply Ra1Facts.register_paths_prefix in Hloop as (done & rest & Hps & -> & _).
  simpl in Hin'. apply Ra1Facts.resources_of_In in Hin' as [Hdone Hreg].
  destruct (Ra1Facts.register_path_some w root _ r Hreg) as (Hisf & Huri & _ & Hname).
  split; [rewrite Hps; apply List.in_or_app; left; exact Hdone|].
  split; [exact Hisf|]. split; [exact Hname|]. split; [exact Huri|].
  intros Hwf. apply IndexFacts.file_uri_resolves; assumption.
Qed.

Lemma ra1_resources_witness :
  let r := Ra1.MkResource (lit "workspace://docs/report%201.pdf") Demo.report
             (lit "report 1.pdf") in
  In r (fst (Ra1.register_file_resources Demo.docs_world (lit "/ws")))
  /\ UriSpec.uri_to_path Demo.root (Ra1.res_uri r) = Some Demo.report.
Proof.
  intros r.
  assert (Hin : In r (fst (Ra1.register_file_resources Demo.docs_world (lit "/ws"))))
    by (vm_compute; left; reflexivity).
  split; [exact Hin|].
  destruct (ra1_resources Demo.docs_world (lit "/ws") Demo.root r
              eq_refl eq_refl eq_refl Hin) as (_ & _ & _ & _ & Hres).
  apply Hres. exact (proj1 demo_paths_wf).
Defined.

(** X20: ra-1 catches nothing in its loop.  When the paths yielded
    before some path all pass through the body of the loop and the body
    raises at that path, the call ends with that exception, having
    registered the files among the paths before it and nothing of what
    was yielded after it.  When the body raises at no yielded path, the
    files among all of them are registered. *)
Theorem ra1_stops_at_first_failure (w : World) (workspace : str) (root : Path) :
  fs_expanduser w (Path_of_str workspace) ≫= fs_resolve w = Ret root ->
  fs_exists w root = Ret true ->
  fs_is_dir w root = Ret true ->
  (forall done p rest e,
     fst (Ra1.rglob w root (lit "*.pdf")) = done ++ p :: rest ->
     List.Forall (fun q => returns (Ra1.register_path w root q)) done ->
     Ra1.register_path w root p = Raise e ->
     Ra1.register_file_resources w workspace = (Ra1.resources_of w root done, Some e)
     /\ (forall r, In r (fst (Ra1.register_file_resources w workspace)) ->
                   In (Ra1.res_target r) done))
  /\ (List.Forall (fun q => returns (Ra1.register_path w root q))
                  (fst (Ra1.rglob w root (lit "*.pdf"))) ->
      Ra1.register_file_resources w workspace
      = (Ra1.resources_of w root (fst (Ra1.rglob w root (lit "*.pdf"))),
         snd (Ra1.rglob w root (lit "*.pdf")))).
Proof.
  intros Hroot Hex Hisd.
  rewrite (Ra1Facts.register_after_check w workspace root Hroot Hex Hisd).
  split.
  - intros done p rest e Hps Hdone Hp.
    rewrite Hps, (Ra1Facts.register_paths_raise w root done rest p e [] Hdone Hp).
    split; [reflexivity|]. intros r Hr. simpl in Hr.
    apply Ra1Facts.resources_of_In in Hr as [Hin _]. exact Hin.
  - intros Hall. rewrite (Ra1Facts.register_paths_all w root _ [] Hall). reflexivity.
Qed.

Lemma ra1_stops_at_first_failure_witness :
  Ra1.register_file_resources DemoBroken.broken_world (lit "/ws")
  = ([Ra1.MkResource (lit "workspace://docs/report%201.pdf") Demo.report
        (lit "report 1.pdf")],
     Some Demo.io_error)
  /\ ~ In Demo.draft
        (List.map Ra1.res_target
           (fst (Ra1.register_file_resources DemoBroken.broken_world (lit "/ws")))).
Proof.
  destruct (proj1 (ra1_stops_at_first_failure DemoBroken.broken_world (lit "/ws") Demo.root
                     eq_refl eq_refl eq_refl)
              [Demo.report] DemoBroken.broken [Demo.draft] Demo.io_error)
    as [Hcall Hbefore].
  - reflexivity.
  - constructor; [eexists; vm_compute; reflexivity | constructor].
  - reflexivity.
  - split; [exact Hcall|]. intros Hin. apply List.in_map_iff in Hin as (r & Htarget & Hr).
    apply Hbefore in Hr. rewrite Htarget in Hr. destruct Hr as [Heq|[]]. discriminate Heq.
Defined.

(** ** The walker: a test that raises *)

Module WalkerRaiseFacts.
Import WalkerSpec.
Section Facts.
Context (w : World) (ignore_dirs : list str)
        (follow_symlinks : bool) (max_bytes : option Z).

Lemma scan_matches_raise (done rest : list Path) (p : Path) (e : exn)
    (candidates : list Path) :
  List.Forall (fun q => returns (accepts w ignore_dirs follow_symlinks max_bytes q)) done ->
  accepts w ignore_dirs follow_symlinks max_bytes p = Raise e ->
  scan_matches w ignore_dirs follow_symlinks max_bytes (done ++ p :: rest) candidates
  = candidates ++ List.filter (accepted w ignore_dirs follow_symlinks max_bytes) done.
Proof.
  intros Hdone Hp. revert candidates.
  induction Hdone as [|q done [b Hq] _ IH]; intros candidates; simpl.
  - rewrite Hp, app_nil_r. reflexivity.
  - unfold accepted at 1. rewrite Hq. destruct b.
    + rewrite IH, <- app_assoc. reflexivity.
    + apply IH.
Qed.

End Facts.
End WalkerRaiseFacts.

(** X21: a path test that raises ends the loop over the matches of the
    pattern at hand: with one include pattern, the output holds the
    accepted paths yielded before the path at which the test raised, and
    none of the paths yielded after it, whether they would pass or not. *)
Theorem walker_raise_ends_pattern (w : World) (pattern : str) (ignore_dirs : list str)
    (follow_symlinks : bool) (max_bytes : option Z) (root : Path)
    (done rest : list Path) (p : Path) (e : exn) :
  fst (fs_glob w root pattern) = done ++ p :: rest ->
  List.Forall (fun q => returns (accepts w ignore_dirs follow_symlinks max_bytes q)) done ->
  accepts w ignore_dirs follow_symlinks max_bytes p = Raise e ->
  scan w [pattern] ignore_dirs follow_symlinks max_bytes root
  = sort_by as_posix str_ltb
      (List.filter (WalkerSpec.accepted w ignore_dirs follow_symlinks max_bytes) done)
  /\ (forall q, In q (scan w [pattern] ignore_dirs follow_symlinks max_bytes root) ->
                In q done).
Proof.
  intros Hglob Hdone Hp.
  assert (Hscan : scan w [pattern] ignore_dirs follow_symlinks max_bytes root
                  = sort_by as_posix str_ltb
                      (List.filter
                         (WalkerSpec.accepted w ignore_dirs follow_symlinks max_bytes) done)).
  { unfold scan, scan_patterns. simpl fold_left. rewrite Hglob.
    rewrite (WalkerRaiseFacts.scan_matches_raise w _ _ _ done rest p e []) by assumption.
    reflexivity. }
  split; [exact Hscan|]. intros q Hq. rewrite Hscan in Hq.
  apply SortFacts.sort_by_In, List.filter_In in Hq as [Hq _]. exact Hq.
Qed.

Lemma walker_raise_ends_pattern_witness :
  scan DemoBroken.broken_world [lit "**/*.pdf"] default_ignore_dirs false None Demo.root
  = [Demo.report]
  /\ ~ In Demo.draft
       (scan DemoBroken.broken_world [lit "**/*.pdf"] default_ignore_dirs false None
             Demo.root).
Proof.
  destruct (walker_raise_ends_pattern DemoBroken.broken_world (lit "**/*.pdf")
              default_ignore_dirs false None Demo.root [Demo.report] [Demo.draft]
              DemoBroken.broken Demo.io_error eq_refl) as [Hscan Hin].
  - constructor; [eexists; vm_compute; reflexivity | constructor].
  - vm_compute. reflexivity.
  - split.
    + rewrite Hscan. vm_compute. reflexivity.
    + intros Hd. apply Hin in Hd as [Hd|[]]. discriminate Hd.
Defined.

(** ** The packager: name and manifest *)

Module PackagerFacts.
Import Packager.

Lemma startswith_app (p s : str) : startswith (p ++ s) p = true.
Proof.
  induction p as [|c p IH]; simpl; [destruct s; reflexivity|].
  rewrite N.eqb_refl. exact IH.
Qed.

Lemma endswith_app (s suffix : str) : endswith (s ++ suffix) suffix = true.
Proof. unfold endswith. rewrite List.rev_app_distr. apply startswith_app. Qed.

Lemma endswith_truthy (s : str) : endswith s (lit ".dxt") = true -> truthy s = true.
Proof. destruct s; [vm_compute; discriminate | reflexivity]. Qed.

Lemma check_required_done (manifest : json) (fields : list str) (rest : outcome json)
    (m : json) :
  check_required manifest fields rest = Done m <->
  List.Forall (fun field => contains manifest field = Ret true) fields /\ rest = Done m.
Proof.
  induction fields as [|field fields IH]; simpl.
  - split; [intros Hr; split; [constructor | exact Hr] | intros [_ Hr]; exact Hr].
  - destruct (contains manifest field) as [[|]|e] eqn:Hc.
    + rewrite IH. split.
      * intros [Hall Hr]. split; [constructor; [exact Hc | exact Hall] | exact Hr].
      * intros [Hall Hr]. apply List.Forall_cons_iff in Hall as [_ Hall].
        split; assumption.
    + split; [discriminate|]. intros [Hall _].
      apply List.Forall_cons_iff in Hall as [Hf _]. congruence.
    + split; [discriminate|]. intros [Hall _].
      apply List.Forall_cons_iff in Hall as [Hf _]. congruence.
Qed.

Lemma contains_members (members : list (str * json)) (field : str) :
  contains (JObj members) field = Ret true <-> is_Some (members_get members field).
Proof.
  simpl. split.
  - intros Heq. apply EntryFacts.Ret_inj in Heq. apply bool_decide_eq_true in Heq. exact Heq.
  - intros Hs. rewrite bool_decide_eq_true_2 by exact Hs. reflexivity.
Qed.

Lemma is_str_eq (v : json) (s : str) : is_str v s = true <-> v = JStr s.
Proof.
  destruct v; simpl; try (split; [discriminate | discriminate]).
  rewrite StrFacts.str_eqb_eq. split; congruence.
Qed.

(** The server checks pass exactly on an object whose [server] is an
    object of type [python] with an entry point. *)
Lemma check_server_done (members : list (str * json)) (m : json) :
  is_Some (members_get members (lit "server")) ->
  check_server (JObj members) = Done m <->
  m = JObj members
  /\ exists server,
       members_get members (lit "server") = Some (JObj server)
       /\ members_get server (lit "type") = Some (JStr (lit "python"))
       /\ is_Some (members_get server (lit "entry_point")).
Proof.
  intros [sv Hsv]. unfold check_server. simpl get. rewrite Hsv.
  destruct sv as [| | | | |items|server];
    try (simpl; split; [discriminate | intros [_ (server & Hs & _)]; discriminate]).
  simpl get.
  destruct (members_get server (lit "type")) as [ty|] eqn:Hty.
  - destruct (is_str ty (lit "python")) eqn:Hpy; simpl negb; cbv iota.
    + apply is_str_eq in Hpy. subst ty.
      destruct (contains (JObj server) (lit "entry_point")) as [[|]|e] eqn:Hc.
      * apply contains_members in Hc. split.
        -- intros [= <-]. split; [reflexivity|]. exists server. repeat split; assumption.
        -- intros [-> _]. reflexivity.
      * split; [discriminate|]. intros [_ (server' & Hs & _ & Hep)].
        injection Hs as <-. apply contains_members in Hep. congruence.
      * simpl in Hc. discriminate.
    + split; [discriminate|]. intros [_ (server' & Hs & Ht & _)].
      injection Hs as <-. rewrite Hty in Ht. injection Ht as ->.
      assert (is_str (JStr (lit "python")) (lit "python") = true) by (apply is_str_eq; reflexivity).
      congruence.
  - simpl. split; [discriminate|]. intros [_ (server' & Hs & Ht & _)].
    injection Hs as <-. congruence.
Qed.

End PackagerFacts.

(** X22: the output name the packager settles on always ends in [.dxt];
    a given name that already ends in [.dxt] is kept as it is, so the
    suffix is never doubled. *)
Theorem output_name_suffix (name : option str) (source_dir : Path) :
  endswith (Packager.output_name name source_dir) (lit ".dxt") = true
  /\ (forall n, name = Some n -> endswith n (lit ".dxt") = true ->
                Packager.output_name name source_dir = n)
  /\ (forall other_dir,
        Packager.output_name (Some (Packager.output_name name source_dir)) other_dir
        = Packager.output_name name source_dir).
Proof.
  assert (Hends : endswith (Packager.output_name name source_dir) (lit ".dxt") = true).
  { unfold Packager.output_name. destruct name as [n|]; [|apply PackagerFacts.endswith_app].
    destruct (truthy n); [|apply PackagerFacts.endswith_app].
    destruct (endswith n (lit ".dxt")) eqn:Hn; [exact Hn | apply PackagerFacts.endswith_app]. }
  split; [exact Hends|]. split.
  - intros n -> Hn. unfold Packager.output_name.
    rewrite (PackagerFacts.endswith_truthy n Hn), Hn. reflexivity.
  - intros other_dir. unfold Packager.output_name at 1.
    rewrite (PackagerFacts.endswith_truthy _ Hends), Hends. reflexivity.
Qed.

(** X23: [validate_manifest] returns only for a manifest that is an
    object with the members [dxt_version], [name], [version] and
    [server], whose [server] is an object with [type] equal to [python]
    and an [entry_point]; it returns every such manifest, unchanged.
    Anything else ends in an exit or an exception. *)
Theorem validate_manifest_sound (file : Packager.loaded) (m : Packager.json) :
  Packager.validate_manifest file = Packager.Done m <->
  file = Packager.Loaded m /\ Packager.manifest_ok m.
Proof.
  unfold Packager.validate_manifest, Packager.manifest_ok.
  destruct file as [manifest|e|e];
    [|split; [discriminate | intros [Hf _]; discriminate]
     |split; [discriminate | intros [Hf _]; discriminate]].
  rewrite PackagerFacts.check_required_done. split.
  - intros [Hreq Hserver].
    destruct manifest as [| | | | s|items|members];
      try (exfalso; apply List.Forall_cons_iff in Hreq as [Hreq _]; discriminate Hreq);
      try (exfalso; discriminate Hserver).
    assert (Hall : List.Forall (fun field => is_Some (Packager.members_get members field))
                     Packager.required_fields).
    { revert Hreq. apply List.Forall_impl. intros field.
      apply PackagerFacts.contains_members. }
    assert (Hs : is_Some (Packager.members_get members (lit "server"))).
    { rewrite List.Forall_forall in Hall. apply Hall. right. right. right. left. reflexivity. }
    apply (PackagerFacts.check_server_done members m Hs) in Hserver
      as [-> (server & Hsv & Hty & Hep)].
    split; [reflexivity|]. exists members, server. repeat split; assumption.
  - intros [Hfile (members & server & -> & Hall & Hsv & Hty & Hep)].
    injection Hfile as ->. split.
    + revert Hall. apply List.Forall_impl. intros field.
      apply PackagerFacts.contains_members.
    + apply PackagerFacts.check_server_done.
      * rewrite Hsv. eexists. reflexivity.
      * split; [reflexivity|]. exists server. repeat split; assumption.
Qed.

Lemma output_name_suffix_witness :
  Packager.output_name (Some (lit "ra-3.dxt")) DemoPack.source_dir = lit "ra-3.dxt"
  /\ Packager.output_name None DemoPack.source_dir = lit "ra-3.dxt"
  /\ Packager.output_name (Some (lit "assistant")) DemoPack.source_dir
     = lit "assistant.dxt".
Proof.
  split; [|split; vm_compute; reflexivity].
  exact (proj1 (proj2 (output_name_suffix (Some (lit "ra-3.dxt")) DemoPack.source_dir))
           (lit "ra-3.dxt") eq_refl eq_refl).
Defined.

Lemma validate_manifest_sound_witness :
  Packager.validate_manifest (Packager.Loaded DemoPack.manifest)
  = Packager.Done DemoPack.manifest.
Proof.
  apply validate_manifest_sound. split; [reflexivity|].
  eexists _, _. split; [reflexivity|]. split.
  - repeat (apply List.Forall_cons; [eexists; vm_compute; reflexivity|]).
    apply List.Forall_nil.
  - split; [vm_compute; reflexivity|]. split; [vm_compute; reflexivity|].
    eexists. vm_compute. reflexivity.
Defined.

(** X24: [validate_source_structure] returns exactly when the source
    directory, its [manifest.json], its [server] directory and
    [server/main.py] all exist; when the source directory itself is
    missing it exits with status 1 and the message that names the
    directory. *)
Theorem validate_source_structure_sound (w : World) (source_dir : Path) :
  let manifest_path := joinpath source_dir (Path_of_str (lit "manifest.json")) in
  let server_dir := joinpath source_dir (Path_of_str (lit "server")) in
  let main_py := joinpath server_dir (Path_of_str (lit "main.py")) in
  (Packager.validate_source_structure w source_dir = Packager.Done tt <->
   fs_exists w source_dir = Ret true /\ fs_exists w manifest_path = Ret true
   /\ fs_exists w server_dir = Ret true /\ fs_exists w main_py = Ret true)
  /\ (fs_exists w source_dir = Ret false ->
      Packager.validate_source_structure w source_dir
      = Packager.Exit 1 (lit "[ERROR] Source directory does not exist: "
                         ++ as_posix source_dir)).
Proof.
  intros manifest_path server_dir main_py.
  subst manifest_path server_dir main_py. unfold Packager.validate_source_structure.
  split.
  - destruct (fs_exists w source_dir) as [[|]|e];
      [|split; [discriminate | intros [Hf _]; discriminate]
       |split; [discriminate | intros [Hf _]; discriminate]].
    destruct (fs_exists w (joinpath source_dir (Path_of_str (lit "manifest.json"))))
      as [[|]|e];
      [|split; [discriminate | intros (_ & Hf & _); discriminate]
       |split; [discriminate | intros (_ & Hf & _); discriminate]].
    destruct (fs_exists w (joinpath source_dir (Path_of_str (lit "server")))) as [[|]|e];
      [|split; [discriminate | intros (_ & _ & Hf & _); discriminate]
       |split; [discriminate | intros (_ & _ & Hf & _); discriminate]].
    destruct (fs_exists w (joinpath (joinpath source_dir (Path_of_str (lit "server")))
                                    (Path_of_str (lit "main.py")))) as [[|]|e];
      [|split; [discriminate | intros (_ & _ & _ & Hf); discriminate]
       |split; [discriminate | intros (_ & _ & _ & Hf); discriminate]].
    split; [intros _; repeat split | reflexivity].
  - intros Hex. rewrite Hex. unfold Packager.error. rewrite app_assoc. reflexivity.
Qed.

Lemma validate_source_structure_sound_witness :
  Packager.validate_source_structure DemoPack.source_world DemoPack.source_dir
  = Packager.Done tt
  /\ Packager.validate_source_structure DemoPack.source_world (MkPath true [lit "gone"])
     = Packager.Exit 1 (lit "[ERROR] Source directory does not exist: /gone").
Proof.
  split.
  - apply (proj1 (validate_source_structure_sound DemoPack.source_world DemoPack.source_dir)).
    repeat split.
  - etrans; [apply (proj2 (validate_source_structure_sound DemoPack.source_world
                             (MkPath true [lit "gone"]))); reflexivity|].
    vm_compute. reflexivity.
Defined.

(** ** Content accessor: absolute paths *)

(** X25: the accessor answers no absolute path: when the workspace root
    resolves, the call raises [UnboundLocalError] for the variable
    [path_obj], before the file system is asked about the path. *)
Theorem absolute_path_unanswered `{Unicode} (w : World) (args : Args)
    (path : str) (root : Path) :
  is_absolute (Path_of_str path) = true ->
  fs_expanduser w (Path_of_str (workspace_directory args)) ≫= fs_resolve w = Ret root ->
  Content.obtain_resource_content w args path
  = Raise (MkExn UnboundLocalError
             (lit "cannot access local variable 'path_obj' where it is not associated with a value")).
Proof.
  intros Habs Hroot. unfold Content.obtain_resource_content.
  rewrite Hroot, bind_Ret, Habs. reflexivity.
Qed.

Lemma absolute_path_unanswered_witness :
  @Content.obtain_resource_content ascii_unicode DemoText.text_world
    (Demo.args (ArgInt (-1))) (lit "/ws/notes/readme.txt")
  = Raise (MkExn UnboundLocalError
             (lit "cannot access local variable 'path_obj' where it is not associated with a value")).
Proof.
  exact (@absolute_path_unanswered ascii_unicode DemoText.text_world
           (Demo.args (ArgInt (-1))) (lit "/ws/notes/readme.txt") Demo.root
           eq_refl eq_refl).
Defined.

(** ** Lexical ranker: what the file name contributes *)

Module NameFacts.
Import Ra2 TokenSpec.

Lemma last_app_ne {A} (l l' : list A) (d : A) :
  l' <> [] -> List.last (l ++ l') d = List.last l' d.
Proof.
  intros Hne. induction l as [|x l IH]; [reflexivity|].
  simpl app. destruct (l ++ l') as [|y r] eqn:Happ.
  - destruct l; [simpl in Happ; contradiction | discriminate Happ].
  - exact IH.
Qed.

(** A token character is an ASCII character that lower-casing keeps. *)
Lemma token_char_lower (c : codepoint) :
  is_token_char c = true -> (c < 128)%N /\ ascii_lower_cp c = c.
Proof.
  unfold is_token_char, ascii_lower_cp. intros Hc.
  apply orb_true_iff in Hc as [Hc|Hc]; apply andb_true_iff in Hc as [Hlo Hhi];
    apply N.leb_le in Hlo; apply N.leb_le in Hhi;
    (split; [lia|]);
    (destruct (N.leb_spec 65 c); [|reflexivity]);
    (destruct (N.leb_spec c 90); [lia | reflexivity]).
Qed.

Lemma token_str_lower (t : str) :
  List.Forall (fun c => is_token_char c = true) t ->
  is_ascii t /\ List.map ascii_lower_cp t = t.
Proof.
  induction 1 as [|c t Hc _ [IHa IHl]]; [split; [constructor | reflexivity]|].
  destruct (token_char_lower c Hc) as [Hlt Hlow]. split.
  - constructor; assumption.
  - simpl. rewrite Hlow, IHl. reflexivity.
Qed.

(** The display name the registration stores is never empty. *)
Lemma as_posix_truthy (rel : Path) :
  UriSpec.wf_path rel -> truthy (as_posix rel) = true.
Proof.
  destruct rel as [a ns]. unfold UriSpec.wf_path, as_posix. simpl names. simpl anchored.
  intros Hwf. destruct a; [reflexivity|]. destruct ns as [|n ns]; [reflexivity|].
  apply List.Forall_cons_iff in Hwf as [Hn _].
  change (lit "/") with [slash].
  destruct (PathFacts.join_first_char n ns Hn) as (c & rest & -> & _). reflexivity.
Qed.

End NameFacts.

(** X26: the extension of a file name counts as a token: when the
    basename of a candidate is an ASCII stem, a dot and an extension of
    lower-case letters and digits, the extension is one of the name's
    tokens, so a query that holds it as a word gives the candidate an
    overlap of at least one. *)
Theorem extension_is_a_token `{U : Unicode} (index : Index) (query stem ext : str)
    (c : Ra2.Candidate) :
  In c (Notions.ranked index query) ->
  Ra2.filename c = stem ++ lit "." ++ ext ->
  is_ascii stem ->
  ext <> [] ->
  List.Forall (fun ch => Ra2.is_token_char ch = true) ext ->
  ext ∈ Ra2.tokenize (str_lower query) ->
  ext ∈ Ra2.tokenize (str_lower (Ra2.filename c)) /\ 1 <= Ra2.score c.
Proof.
  intros Hin Hname Hstem Hne Hext Hq.
  destruct (NameFacts.token_str_lower ext Hext) as [Hea Hel].
  assert (Hascii : is_ascii (Ra2.filename c)).
  { rewrite Hname. unfold is_ascii. apply List.Forall_app. split; [exact Hstem|].
    apply List.Forall_app. split; [|exact Hea].
    constructor; [vm_compute; reflexivity | constructor]. }
  assert (Htok : ext ∈ Ra2.tokenize (str_lower (Ra2.filename c))).
  { apply TokenFacts.tokenize_spec.
    rewrite (TokenFacts.str_lower_twice _ Hascii), (str_lower_ascii _ Hascii), Hname.
    rewrite !List.map_app, Hel.
    split; [exact Hne|]. split; [exact Hext|].
    exists (List.map ascii_lower_cp stem ++ List.map ascii_lower_cp (lit ".")), [].
    split; [rewrite app_nil_r, <- app_assoc; reflexivity|].
    split; [|exact I].
    rewrite rev_app_distr. vm_compute. reflexivity. }
  split; [exact Htok|].
  apply ListingFacts.ranked_In in Hin as (u & m & _ & ->).
  set (Q := Ra2.tokenize (str_lower query)) in *.
  set (T := Ra2.tokenize (str_lower (Ra2.filename (Ra2.candidate_of Q (u, m))))) in *.
  change (Ra2.score (Ra2.candidate_of Q (u, m))) with (Z.of_nat (size (Q ∩ T))).
  clearbody T. clearbody Q.
  assert (Hsub : ({[ ext ]} : gset str) ⊆ Q ∩ T).
  { intros t Ht. apply elem_of_singleton in Ht as ->.
    apply elem_of_intersection. split; assumption. }
  apply subseteq_size in Hsub. rewrite size_singleton in Hsub. lia.
Qed.

Lemma extension_is_a_token_witness :
  let c := Ra2.MkCandidate 1 (lit "workspace://notes/draft.pdf")
             (MkMeta (lit "notes/draft.pdf") (lit "/ws/notes/draft.pdf") 1000
                     (PyFloat.of_Z 1700000009) (lit "application/pdf"))
             (lit "draft.pdf") in
  In c (@Notions.ranked ascii_unicode Demo.docs_index (lit "any PDF here"))
  /\ 1 <= Ra2.score c.
Proof.
  intros c.
  assert (Hin : In c (@Notions.ranked ascii_unicode Demo.docs_index (lit "any PDF here")))
    by (vm_compute; right; left; reflexivity).
  split; [exact Hin|].
  refine (proj2 (@extension_is_a_token ascii_unicode Demo.docs_index (lit "any PDF here")
                   (lit "draft") (lit "pdf") c Hin eq_refl _ _ _ _)).
  - repeat (constructor; [vm_compute; reflexivity|]). constructor.
  - discriminate.
  - repeat (constructor; [vm_compute; reflexivity|]). constructor.
  - vm_compute. reflexivity.
Defined.

(** X27: the file name a candidate is ranked and listed by is the
    basename of the indexed file: for the entry the registration stores
    for a file [p] below the root, the candidate's file name is the last
    component of [p]. *)
Theorem listing_shows_basename `{U : Unicode} (w : World) (root p : Path)
    (u : str) (m : Meta) (index : Index) (query : str) :
  UriSpec.wf_path p ->
  p <> root ->
  EntrySpec.entry_for w root p u m ->
  In (u, m) index ->
  exists c, In c (Notions.ranked index query)
    /\ Ra2.uri c = u /\ Ra2.meta c = m /\ Ra2.filename c = name p.
Proof.
  intros Hwf Hne (rel & q & st & Hrel & _ & _ & _ & Hname & _) Hin.
  exists (Ra2.candidate_of (Ra2.tokenize (str_lower query)) (u, m)).
  split; [apply ListingFacts.ranked_In; exists u, m; split; [exact Hin | reflexivity]|].
  split; [reflexivity|]. split; [reflexivity|].
  pose proof (PathFacts.relative_to_wf p root rel Hwf Hrel) as Hwr.
  apply PathFacts.relative_to_joinpath in Hrel as [Hjoin Ha].
  destruct (ScoreFacts.candidate_of_fields (Ra2.tokenize (str_lower query)) u m)
    as (_ & _ & -> & _).
  rewrite Hname, (NameFacts.as_posix_truthy rel Hwr), (PathFacts.Path_of_str_as_posix rel Hwr).
  rewrite <- Hjoin. unfold joinpath. rewrite Ha. unfold name. simpl names.
  symmetry. apply NameFacts.last_app_ne. intros Hnil. apply Hne. rewrite <- Hjoin.
  unfold joinpath. rewrite Ha, Hnil, app_nil_r. destruct root; reflexivity.
Qed.

Lemma listing_shows_basename_witness :
  exists c, In c (@Notions.ranked ascii_unicode Demo.docs_index (lit "report"))
    /\ Ra2.uri c = lit "workspace://docs/report%201.pdf"
    /\ Ra2.meta c = MkMeta (lit "docs/report 1.pdf") (lit "/ws/docs/report 1.pdf") 1000
                      (PyFloat.of_Z 1700000012) (lit "application/pdf")
    /\ Ra2.filename c = lit "report 1.pdf".
Proof.
  refine (@listing_shows_basename ascii_unicode Demo.docs_world Demo.root Demo.report
            (lit "workspace://docs/report%201.pdf")
            (MkMeta (lit "docs/report 1.pdf") (lit "/ws/docs/report 1.pdf") 1000
                    (PyFloat.of_Z 1700000012) (lit "application/pdf"))
            Demo.docs_index (lit "report") (proj1 demo_paths_wf) _ _ _).
  - discriminate.
  - eexists _, _, _. repeat split; try (vm_compute; reflexivity). discriminate.
  - left. vm_compute. reflexivity.
Defined.
